(** * Extractive summarizer: the orchestrator, the preprocessing and the
      feature extraction of the AIML-Project repository, embedded in Rocq.

    Source files embedded here:
      - [src/preprocess.py]          (module [preprocess])
      - [src/feature_extraction.py]  (module [feature_extraction])
      - [src/summarizer.py]          (module [summarizer])
    [src/clustering.py], which [summarizer.py] imports, is not among them:
    its Grouper is a component of the environment and its Selector is
    modelled from the design document (module [clustering]).

    Python values are modelled as follows.
      - [str] is a sequence of Unicode code points ([list N]).
      - [float] is IEEE-754 binary64, through the Standard Library's
        [spec_float] with [prec = 53] and [emax = 1024]; every operation is
        the correctly rounded one of [SpecFloat].
      - [int] is [Z].
      - an exception is a value of [exn]; a call that can raise returns [res].
      - the weights that scikit-learn and NumPy compute with [log] and
        [sqrt] are taken in the real numbers [R]: the matrix layer is the
        exact-arithmetic reading of the floating-point one. *)

From Stdlib Require Import String Ascii.
From Stdlib Require Import ZArith NArith List Bool Lia.
From Stdlib Require Import Floats.SpecFloat.
From Stdlib Require Import Sorting.Sorted Sorting.Permutation Sorting.Mergesort.
From Stdlib Require Import Orders.
From Stdlib Require Import Reals Lra.
Import ListNotations.

Set Implicit Arguments.

(* ================================================================== *)
(** * Python values *)
(* ================================================================== *)

Module Py.

(** Built-in exceptions that the embedded code can raise. *)
Inductive exn : Type :=
| ValueError
| OverflowError
| ZeroDivisionError
| LookupError.

(** The outcome of a call: a value, or a raised exception. *)
Inductive res (A : Type) : Type :=
| Ok (a : A)
| Raise (e : exn).
Arguments Ok {A} a.
Arguments Raise {A} e.

Definition bind {A B : Type} (x : res A) (k : A -> res B) : res B :=
  match x with
  | Ok a => k a
  | Raise e => Raise e
  end.

(** ** Strings *)

Definition codepoint := N.
Definition str := list codepoint.

Definition of_ascii (c : ascii) : codepoint := N_of_ascii c.

Fixpoint of_string (s : string) : str :=
  match s with
  | EmptyString => []
  | String c s' => of_ascii c :: of_string s'
  end.

(** [str.isspace] on one character, which is also what [\s] matches in a
    [str] pattern: the code points CPython lists as whitespace. *)
Definition isspace (c : codepoint) : bool :=
  ((9 <=? c) && (c <=? 13)           (* \t \n \v \f \r *)
   || (28 <=? c) && (c <=? 32)       (* FS GS RS US and the space *)
   || (c =? 133) || (c =? 160)       (* NEL, no-break space *)
   || (c =? 5760)                    (* U+1680 *)
   || (8192 <=? c) && (c <=? 8202)   (* U+2000 .. U+200A *)
   || (c =? 8232) || (c =? 8233)     (* line and paragraph separators *)
   || (c =? 8239) || (c =? 8287)     (* U+202F, U+205F *)
   || (c =? 12288))%N.               (* U+3000 *)

Definition space : codepoint := 32%N.

(** [s.lstrip()], [s.rstrip()] and [s.strip()] with no argument. *)
Fixpoint lstrip (s : str) : str :=
  match s with
  | [] => []
  | c :: s' => if isspace c then lstrip s' else s
  end.

Definition rstrip (s : str) : str := rev (lstrip (rev s)).

Definition strip (s : str) : str := rstrip (lstrip s).

(** [re.sub(r"\s+", " ", s)]: every maximal run of whitespace becomes one
    space.  [in_run] says that the previous character belonged to a run
    that has already been replaced. *)
Fixpoint sub_ws_from (in_run : bool) (s : str) : str :=
  match s with
  | [] => []
  | c :: s' =>
      if isspace c
      then (if in_run then sub_ws_from true s' else space :: sub_ws_from true s')
      else c :: sub_ws_from false s'
  end.

Definition sub_ws (s : str) : str := sub_ws_from false s.

(** [sep.join(parts)]. *)
Fixpoint join (sep : str) (parts : list str) : str :=
  match parts with
  | [] => []
  | [p] => p
  | p :: rest => p ++ sep ++ join sep rest
  end.

(** Truthiness of a [str]: the empty string is false. *)
Definition truthy (s : str) : bool :=
  match s with [] => false | _ :: _ => true end.

(** [len] of a list, as a Python [int]. *)
Definition len {A : Type} (l : list A) : Z := Z.of_nat (List.length l).

End Py.

(* ================================================================== *)
(** * Binary64 floating point *)
(* ================================================================== *)

Module F64.
Import Py.

Definition prec : Z := 53.
Definition emax : Z := 1024.

Definition float := spec_float.

Definition mul : float -> float -> float := SFmul prec emax.
Definition div : float -> float -> float := SFdiv prec emax.
Definition leb : float -> float -> bool := SFleb.
Definition ltb : float -> float -> bool := SFltb.

Definition is_finite (x : float) : bool :=
  match x with
  | S754_zero _ | S754_finite _ _ _ => true
  | S754_infinity _ | S754_nan => false
  end.

(** The integer [n] as a float with an unrounded mantissa; the
    operations of [SpecFloat] round their result, so a quotient or a
    product of such values is the correctly rounded one. *)
Definition exact_of_int (n : Z) : float :=
  match n with
  | Z0 => S754_zero false
  | Zpos p => S754_finite false p 0
  | Zneg p => S754_finite true p 0
  end.

(** [float(n)]: the nearest binary64 (ties to even); [OverflowError] for
    an integer beyond the range. *)
Definition of_int (n : Z) : res float :=
  match binary_normalize prec emax n 0 false with
  | S754_infinity _ => Raise OverflowError
  | x => Ok x
  end.

(** [int(x)]: truncation toward zero; [ValueError] on NaN and
    [OverflowError] on an infinity. *)
Definition to_int (x : float) : res Z :=
  match x with
  | S754_nan => Raise ValueError
  | S754_infinity _ => Raise OverflowError
  | S754_zero _ => Ok 0%Z
  | S754_finite s m e => Ok (cond_Zopp s (Z.shiftl (Zpos m) e))
  end.

(** [n * x] for an [int] [n] and a [float] [x]: [n] is converted first. *)
Definition int_mul (n : Z) (x : float) : res float :=
  bind (of_int n) (fun fn => Ok (mul fn x)).

(** [a / b] on two [int]s (true division): the correctly rounded
    quotient. *)
Definition truediv (a b : Z) : res float :=
  if (b =? 0)%Z then Raise ZeroDivisionError
  else match div (exact_of_int a) (exact_of_int b) with
       | S754_infinity _ => Raise OverflowError
       | q => Ok q
       end.

(** [round(x, 2)]: the exact value of [x] is rounded to two decimals,
    ties to even, and the decimal is converted back to the nearest
    float; a zero, an infinity or a NaN is returned as it is. *)
Definition round2 (x : float) : float :=
  match x with
  | S754_finite s m e =>
      let n := (100 * Zpos m)%Z in
      let d :=
        match e with
        | Zneg p =>
            let w := Z.pow 2 (Zpos p) in
            let q := (n / w)%Z in
            let r := (n mod w)%Z in
            match (2 * r ?= w)%Z with
            | Lt => q
            | Gt => (q + 1)%Z
            | Eq => if Z.even q then q else (q + 1)%Z
            end
        | _ => Z.shiftl n e
        end in
      match d with
      | Z0 => S754_zero s
      | _ => div (exact_of_int (cond_Zopp s d)) (exact_of_int 100)
      end
  | _ => x
  end.

(** A binary64 value: the mantissa and the exponent are in the format. *)
Definition valid (x : float) : Prop :=
  valid_binary prec emax x = true.

(** The value [m * 2^e] is at least the integer [K]. *)
Definition at_least (m e K : Z) : Prop :=
  (K * 2 ^ Z.max (- e) 0 <= m * 2 ^ Z.max e 0)%Z.

(** Float literals of the source. *)
Definition zero : float := S754_zero false.                       (* 0.0 *)
Definition one : float := S754_finite false 4503599627370496 (-52). (* 1.0 *)
(** 0.95, the nearest binary64 to 95/100. *)
Definition lit_0_95 : float := S754_finite false 8556839292003942 (-53).
(** 0.3, the default [ratio]. *)
Definition lit_0_3 : float := S754_finite false 5404319552844595 (-54).

End F64.

(* ================================================================== *)
(** * External collaborators and process state *)
(* ================================================================== *)

Module Ext.
Import Py.

(** The NLTK data packages that [ensure_nltk_data] looks for. *)
Inductive resource : Type := punkt | punkt_tab | stopwords.

Definition resource_eqb (a b : resource) : bool :=
  match a, b with
  | punkt, punkt | punkt_tab, punkt_tab | stopwords, stopwords => true
  | _, _ => false
  end.

(** The packages present in the NLTK data directory. *)
Definition nltk_data := list resource.

(** The state of the process between two calls: the module global
    [_NLTK_READY] of [preprocess.py] and the NLTK data directory. *)
Record world : Type := {
  _NLTK_READY : bool;
  data : nltk_data
}.

(** A TF-IDF matrix, one row per sentence, one column per vocabulary
    term. *)
Definition matrix := list (list R).

(** The libraries the code calls and the parts of the repository that
    the embedded files import without defining.
      - [nltk_download name] is [nltk.download(name, quiet=True)]: it
        may or may not add the package to the data directory;
      - [sent_tokenize] is NLTK's Punkt tokenizer, which reads the data
        directory and raises [LookupError] when its model is missing;
      - [analyzer] is the analyzer of scikit-learn's [TfidfVectorizer]
        built with [stop_words="english"]: lower-casing, the default token
        pattern and the removal of English stop words;
      - [cluster_sentences] is the Grouper of [src/clustering.py]. *)
Record Env : Type := {
  nltk_download : resource -> nltk_data -> nltk_data;
  sent_tokenize : nltk_data -> str -> res (list str);
  analyzer : str -> list str;
  (** Modelled from the spec: [cluster_sentences] of [src/clustering.py]
      is not among the embedded files.  The design fixes its contract
      only (one label per row, a deterministic function of the matrix
      and the group count), so it is a component of the environment and
      the contract is [Grouper_contract] below. *)
  cluster_sentences : matrix -> Z -> res (list Z)
}.

(** Modelled from the spec: the contract of the Grouper,
    "given the Weighted Matrix and a requested group count k
    (1 <= k <= N) ... Output: one group label per sentence, labels in
    [0,k) ... must never raise on a legitimate 1 <= k <= N". *)
Definition Grouper_contract (E : Env) : Prop :=
  forall (M : matrix) (k : Z),
    (1 <= k <= len M)%Z ->
    exists labels,
      cluster_sentences E M k = Ok labels
      /\ List.length labels = List.length M
      /\ Forall (fun l => (0 <= l < k)%Z) labels.

End Ext.

(* ================================================================== *)
(** * src/preprocess.py *)
(* ================================================================== *)

Module preprocess.
Import Py Ext.

(** [nltk.data.find(path)] succeeds when the package is installed. *)
Definition nltk_find (r : resource) (d : nltk_data) : bool :=
  existsb (resource_eqb r) d.

(** The body of the [for name, path in resources.items()] loop: look the
    package up, download it when the lookup raises [LookupError]. *)
Definition ensure_one (E : Env) (d : nltk_data) (r : resource) : nltk_data :=
  if nltk_find r d then d else nltk_download E r d.

(** [ensure_nltk_data()]: nothing when [_NLTK_READY] is set; otherwise
    the three packages are checked in the order of the dict and the flag
    is set. *)
Definition ensure_nltk_data (E : Env) (w : world) : world :=
  if _NLTK_READY w then w
  else {| _NLTK_READY := true;
          data := fold_left (ensure_one E) [punkt; punkt_tab; stopwords] (data w) |}.

(** [clean_text(text)]. *)
Definition clean_text (text : str) : str :=
  if negb (truthy text) then []
  else strip (sub_ws text).

(** [[s.strip() for s in sentences if s.strip()]]. *)
Fixpoint strip_nonblank (sentences : list str) : list str :=
  match sentences with
  | [] => []
  | s :: rest =>
      if truthy (strip s) then strip s :: strip_nonblank rest
      else strip_nonblank rest
  end.

(** [split_sentences(text)]. *)
Definition split_sentences (E : Env) (w : world) (text : str)
  : res (list str) * world :=
  let w1 := ensure_nltk_data E w in
  (bind (sent_tokenize E (data w1) text) (fun sentences =>
     Ok (strip_nonblank sentences)),
   w1).

(** [preprocess_text(text)]. *)
Definition preprocess_text (E : Env) (w : world) (text : str)
  : res (str * list str) * world :=
  let cleaned := clean_text text in
  let '(r, w1) := split_sentences E w cleaned in
  (bind r (fun sentences => Ok (cleaned, sentences)), w1).

End preprocess.

(* ================================================================== *)
(** * Sorting by a key, as [sorted] does *)
(* ================================================================== *)

Section SortBy.
Variable A : Type.
Variable leb : A -> A -> bool.

(** [x] goes before the first element that is not smaller than it. *)
Fixpoint insert_sorted (x : A) (l : list A) : list A :=
  match l with
  | [] => [x]
  | y :: l' => if leb x y then x :: l else y :: insert_sorted x l'
  end.

Definition sort_by (l : list A) : list A :=
  fold_right insert_sorted [] l.
End SortBy.

(* ================================================================== *)
(** * src/feature_extraction.py *)
(* ================================================================== *)

Module feature_extraction.
Import Py Ext.

(** Equality and order of [str] values, as Python compares them: code
    point by code point. *)
Fixpoint str_eqb (a b : str) : bool :=
  match a, b with
  | [], [] => true
  | x :: a', y :: b' => (x =? y)%N && str_eqb a' b'
  | _, _ => false
  end.

Fixpoint str_leb (a b : str) : bool :=
  match a, b with
  | [], _ => true
  | _ :: _, [] => false
  | x :: a', y :: b' =>
      if (x <? y)%N then true
      else if (y <? x)%N then false
      else str_leb a' b'
  end.

(** The raw count of term [t] in an analysed sentence. *)
Definition tf_raw (t : str) (doc : list str) : nat :=
  List.length (filter (str_eqb t) doc).

(** The number of sentences that contain [t]. *)
Definition df (t : str) (docs : list (list str)) : nat :=
  List.length (filter (fun doc => existsb (str_eqb t) doc) docs).

(** The distinct terms of a list, in the order of first occurrence. *)
Fixpoint distinct (seen : list str) (l : list str) : list str :=
  match l with
  | [] => []
  | t :: l' =>
      if existsb (str_eqb t) seen then distinct seen l'
      else t :: distinct (t :: seen) l'
  end.

(** [max_df=0.95] and [min_df=1] of the constructor call. *)
Definition max_df : F64.float := F64.lit_0_95.
Definition min_df : Z := 1.

(** The vocabulary that [fit_transform] learns: the distinct terms of the
    analysed sentences, pruned to those whose document frequency is at
    most [max_df * n_doc] and at least [min_df], sorted.  scikit-learn
    raises [ValueError] on an empty vocabulary, when the upper bound is
    below the lower one, and when pruning leaves no term. *)
Definition fit_vocabulary (docs : list (list str)) : res (list str) :=
  match distinct [] (concat docs) with
  | [] => Raise ValueError
  | vocabulary =>
      let n_doc := len docs in
      bind (F64.int_mul n_doc max_df) (fun max_doc_count =>
      bind (F64.of_int min_df) (fun min_doc_count =>
      if F64.ltb max_doc_count min_doc_count then Raise ValueError
      else
        let keep (t : str) : bool :=
          match F64.of_int (Z.of_nat (df t docs)) with
          | Ok d => F64.leb d max_doc_count && F64.leb min_doc_count d
          | Raise _ => false
          end in
        match filter keep vocabulary with
        | [] => Raise ValueError
        | kept => Ok (sort_by str_leb kept)
        end))
  end.

(** [sublinear_tf=True]: a stored count [c] becomes [1 + log(c)]; a
    term that does not occur has no stored cell, hence weight 0. *)
Definition tf (count : nat) : R :=
  match count with
  | O => 0%R
  | S _ => (1 + ln (INR count))%R
  end.

(** The inverse document frequency that [TfidfVectorizer] fits with its
    default [smooth_idf=True]: one is added to the number of sentences
    and to every document frequency before the logarithm. *)
Definition idf (n_samples : nat) (df_t : nat) : R :=
  (ln (INR (n_samples + 1) / INR (df_t + 1)) + 1)%R.

(** The cell of sentence [doc] and term [t] before normalisation. *)
Definition weight (docs : list (list str)) (doc : list str) (t : str) : R :=
  (tf (tf_raw t doc) * idf (List.length docs) (df t docs))%R.

Definition weight_row (docs : list (list str)) (vocabulary : list str)
           (doc : list str) : list R :=
  map (weight docs doc) vocabulary.

(** The matrix before the rows are normalised. *)
Definition weight_matrix (docs : list (list str)) (vocabulary : list str)
  : matrix :=
  map (weight_row docs vocabulary) docs.

Definition sum (row : list R) : R := fold_right Rplus 0%R row.

Definition sum_squares (row : list R) : R :=
  sum (map (fun x => (x * x)%R) row).

Definition l2_norm (row : list R) : R := sqrt (sum_squares row).

(** [norm="l2"], the default: a row is divided by its Euclidean norm; a
    row whose squares sum to zero is skipped. *)
Definition normalize_row (row : list R) : list R :=
  if Req_dec_T (sum_squares row) 0%R then row
  else map (fun x => (x / l2_norm row)%R) row.

(** [build_tfidf_matrix(sentences)]: the matrix and, for the fitted
    vectorizer, its vocabulary in column order. *)
Definition build_tfidf_matrix (E : Env) (sentences : list str)
  : res (matrix * list str) :=
  let docs := map (analyzer E) sentences in
  bind (fit_vocabulary docs) (fun vocabulary =>
    Ok (map normalize_row (weight_matrix docs vocabulary), vocabulary)).

(** [get_sentence_scores(tfidf_matrix)]: [mean(axis=1)], the sum of a row
    over the number of columns, flattened to one score per row. *)
Definition get_sentence_scores (tfidf_matrix : matrix) : list R :=
  map (fun row => (sum row / INR (List.length row))%R) tfidf_matrix.

End feature_extraction.

(* ================================================================== *)
(** * src/clustering.py, the Selector *)
(* ================================================================== *)

Module clustering.
Import Py Ext.

Section Selector.
(** The scores and their strict order; the pipeline uses [R]. *)
Variable score : Type.
Variable score_ltb : score -> score -> bool.

(** A sentence with its original position, its group label and its
    score. *)
Record member : Type := {
  position : nat;
  sentence : str;
  label : Z;
  member_score : score
}.

Fixpoint members_from (i : nat) (sentences : list str) (labels : list Z)
         (scores : list score) : list member :=
  match sentences, labels, scores with
  | s :: sentences', l :: labels', c :: scores' =>
      {| position := i; sentence := s; label := l; member_score := c |}
        :: members_from (S i) sentences' labels' scores'
  | _, _, _ => []
  end.

(** The labels that occur, each once. *)
Fixpoint occupied (seen : list Z) (ms : list member) : list Z :=
  match ms with
  | [] => []
  | m :: ms' =>
      if existsb (Z.eqb (label m)) seen then occupied seen ms'
      else label m :: occupied (label m :: seen) ms'
  end.

(** The member of group [g] with the maximum score; a later member
    replaces the current best only with a strictly greater score, so
    the earliest position wins a tie. *)
Fixpoint best_of (g : Z) (best : option member) (ms : list member)
  : option member :=
  match ms with
  | [] => best
  | m :: ms' =>
      if (label m =? g)%Z then
        match best with
        | None => best_of g (Some m) ms'
        | Some b =>
            if score_ltb (member_score b) (member_score m)
            then best_of g (Some m) ms'
            else best_of g best ms'
        end
      else best_of g best ms'
  end.

Fixpoint collect (ms : list member) (groups : list Z) : list member :=
  match groups with
  | [] => []
  | g :: groups' =>
      match best_of g None ms with
      | Some m => m :: collect ms groups'
      | None => collect ms groups'
      end
  end.

Definition position_leb (a b : member) : bool :=
  (position a <=? position b)%nat.

(** Modelled from the spec: [select_representative_sentences] of
    [src/clustering.py], which is not among the embedded files.  "For
    each occupied group, choose the sentence with the maximum score
    among members of that group; ties broken by earliest original
    position.  Collect the chosen sentences, sort by original position
    ascending." *)
Definition select_members (sentences : list str) (labels : list Z)
           (scores : list score) : list member :=
  let ms := members_from 0 sentences labels scores in
  sort_by position_leb (collect ms (occupied [] ms)).

(** Modelled from the spec: [select_representative_sentences(sentences,
    labels, scores)] of [src/clustering.py], the sentences of the chosen
    members, "ordered by original document position (not by group id or
    score)". *)
Definition select_representative_sentences (sentences : list str)
           (labels : list Z) (scores : list score) : list str :=
  map sentence (select_members sentences labels scores).
End Selector.

(** A member of the list built from position [i] on carries the
    sentence found at its position. *)
Definition placed {score : Type} (i : nat) (sentences : list str)
           (m : member score) : Prop :=
  (i <= position m)%nat
  /\ nth_error sentences (position m - i) = Some (sentence m).

(** The strict order of the real scores. *)
Definition Rltb (a b : R) : bool :=
  if Rlt_dec a b then true else false.

End clustering.

(* ================================================================== *)
(** * src/summarizer.py *)
(* ================================================================== *)

Module summarizer.
Import Py Ext.
Import preprocess feature_extraction clustering.

(** The dict that [summarize] returns. *)
Record result : Type := {
  summary : str;
  original_sentence_count : Z;
  summary_sentence_count : Z;
  compression_ratio : F64.float
}.

(** [_empty_result()]. *)
Definition _empty_result : result :=
  {| summary := [];
     original_sentence_count := 0;
     summary_sentence_count := 0;
     compression_ratio := F64.zero |}.

(** The guard [not text or not text.strip()]. *)
Definition is_blank (text : str) : bool :=
  negb (truthy text) || negb (truthy (strip text)).

(** The two assignments to [n_clusters]:
    [max(1, int(len(sentences) * ratio))], then
    [min(n_clusters, len(sentences))]. *)
Definition derive_n_clusters (n_sentences : Z) (ratio : F64.float) : res Z :=
  bind (F64.int_mul n_sentences ratio) (fun product =>
  bind (F64.to_int product) (fun truncated =>
    let n_clusters := Z.max 1 truncated in
    Ok (Z.min n_clusters n_sentences))).

(** The sentences that the Selector returns for a matrix and its
    labels. *)
Definition representatives (sentences : list str) (tfidf_matrix : matrix)
           (labels : list Z) : list str :=
  let scores := get_sentence_scores tfidf_matrix in
  select_representative_sentences Rltb sentences labels scores.

(** The rest of the normal regime, from the feature extraction to the
    returned dict, for a group count [n_clusters]. *)
Definition run_pipeline (E : Env) (sentences : list str) (n_clusters : Z)
  : res result :=
  bind (build_tfidf_matrix E sentences) (fun '(tfidf_matrix, _vectorizer) =>
  bind (cluster_sentences E tfidf_matrix n_clusters) (fun labels =>
    let summary_sentences := representatives sentences tfidf_matrix labels in
    let summary_text := join [space] summary_sentences in
    bind (F64.truediv (len summary_sentences) (len sentences)) (fun q =>
      Ok {| summary := summary_text;
            original_sentence_count := len sentences;
            summary_sentence_count := len summary_sentences;
            compression_ratio := F64.round2 q |}))).

(** [summarize(text, ratio)]: the outcome and the state of the process
    after the call. *)
Definition summarize (E : Env) (w : world) (text : str) (ratio : F64.float)
  : res result * world :=
  if is_blank text then (Ok _empty_result, w)
  else
    let '(r, w1) := preprocess_text E w text in
    (bind r (fun '(cleaned, sentences) =>
       if (len sentences <=? 2)%Z then
         Ok {| summary := cleaned;
               original_sentence_count := len sentences;
               summary_sentence_count := len sentences;
               compression_ratio := F64.one |}
       else
         bind (derive_n_clusters (len sentences) ratio) (fun n_clusters =>
           run_pipeline E sentences n_clusters)),
     w1).

(** The default of the parameter, [ratio=0.3]. *)
Definition default_ratio : F64.float := F64.lit_0_3.

(** The state of the process after a sequence of calls, each with its
    text and its ratio. *)
Fixpoint run_calls (E : Env) (w : world) (calls : list (str * F64.float))
  : world :=
  match calls with
  | [] => w
  | (text, ratio) :: rest => run_calls E (snd (summarize E w text ratio)) rest
  end.

End summarizer.

(* ================================================================== *)
(** * The words of the design document, for comparison *)
(* ================================================================== *)

Module Design.
Import Py.

(** [clamp(x, lo, hi)]. *)
Definition clamp (x lo hi : Z) : Z :=
  if (x <? lo)%Z then lo else if (hi <? x)%Z then hi else x.

(** The exact value of a finite float, as the fraction
    [numerator / 2^shift]. *)
Definition numerator (x : F64.float) : Z :=
  match x with
  | S754_finite s m e => cond_Zopp s (Zpos m * 2 ^ Z.max e 0)
  | _ => 0
  end.

Definition denominator (x : F64.float) : Z :=
  match x with
  | S754_finite _ _ e => 2 ^ Z.max (- e) 0
  | _ => 1
  end.

(** Rounding the fraction [a / b] ([b > 0]) to the nearest integer, a
    tie going to the even one. *)
Definition round_fraction (a b : Z) : Z :=
  let q := (a / b)%Z in
  match (2 * (a mod b) ?= b)%Z with
  | Lt => q
  | Gt => (q + 1)%Z
  | Eq => if Z.even q then q else (q + 1)%Z
  end.

(** Truncating the fraction [a / b] toward zero. *)
Definition trunc_fraction (a b : Z) : Z := Z.quot a b.

(** "derive k = clamp(round(N * ratio), 1, N)", on the float product
    [N * ratio]. *)
Definition k_rounded (product : F64.float) (n : Z) : Z :=
  clamp (round_fraction (numerator product) (denominator product)) 1 n.

(** The same with truncation toward zero in place of rounding. *)
Definition k_truncated (product : F64.float) (n : Z) : Z :=
  clamp (trunc_fraction (numerator product) (denominator product)) 1 n.

(** "idf(t) = ln(N / (1 + df(t))) + 1". *)
Definition idf_spec (n : nat) (df_t : nat) : R :=
  (ln (INR n / (1 + INR df_t)) + 1)%R.

(** "tf(t,d) = 1 + log(tf_raw(t,d)) when tf_raw > 0, else 0". *)
Definition tf_spec (tf_raw : nat) : R :=
  if (0 <? tf_raw)%nat then (1 + ln (INR tf_raw))%R else 0%R.

(** "Selector output is always a subset of the input sentences (by value
    and by original position), never exceeds N elements, and is strictly
    increasing in original position": the chosen sentences are found in
    the document at positions that strictly increase, and there are no
    more of them than the document has. *)
Definition in_document_order (sentences chosen : list str) : Prop :=
  exists positions : list nat,
    Forall2 (fun p s => nth_error sentences p = Some s) positions chosen
    /\ StronglySorted lt positions
    /\ (List.length chosen <= List.length sentences)%nat.

(** A row "with all-zero weight". *)
Definition zero_row (row : list R) : Prop := Forall (fun x => x = 0%R) row.

End Design.

(* ================================================================== *)
(** * A small environment for closed examples *)
(* ================================================================== *)

Module Demo.
Import Py Ext.

(** A sentence ends after a full stop, a question mark or an
    exclamation mark. *)
Definition is_stop (c : codepoint) : bool :=
  ((c =? 46) || (c =? 63) || (c =? 33))%N.

Fixpoint split_after_stop (current : str) (s : str) : list str :=
  match s with
  | [] => match current with [] => [] | _ => [rev current] end
  | c :: s' =>
      if is_stop c then rev (c :: current) :: split_after_stop [] s'
      else split_after_stop (c :: current) s'
  end.

(** Lower-case ASCII letters and digits make up a word. *)
Definition lower (c : codepoint) : codepoint :=
  if ((65 <=? c) && (c <=? 90))%N then (c + 32)%N else c.

Definition is_word_char (c : codepoint) : bool :=
  ((48 <=? c) && (c <=? 57) || (97 <=? c) && (c <=? 122))%N.

Fixpoint words (current : str) (s : str) : list str :=
  match s with
  | [] => match current with [] | [_] => [] | _ => [rev current] end
  | c :: s' =>
      if is_word_char (lower c) then words (lower c :: current) s'
      else match current with
           | [] | [_] => words [] s'
           | _ => rev current :: words [] s'
           end
  end.

(** Labels that go round the groups: row [i] is in group [i mod k]. *)
Definition round_robin (M : matrix) (k : Z) : res (list Z) :=
  Ok (map (fun i => (Z.of_nat i mod k)%Z) (seq 0 (List.length M))).

(** Downloads succeed, Punkt needs its model, sentences end at a stop. *)
Definition env : Env :=
  {| nltk_download := fun r d => r :: d;
     sent_tokenize := fun d s =>
       if preprocess.nltk_find punkt_tab d then Ok (split_after_stop [] s)
       else Raise LookupError;
     analyzer := words [];
     cluster_sentences := round_robin |}.

(** The same with a tokenizer that finds only a blank fragment. *)
Definition blank_env : Env :=
  {| nltk_download := nltk_download env;
     sent_tokenize := fun _ _ => Ok [[space]];
     analyzer := analyzer env;
     cluster_sentences := cluster_sentences env |}.

(** A fresh process with an empty data directory. *)
Definition fresh : world := {| _NLTK_READY := false; data := [] |}.

Definition two_sentences : str :=
  of_string "One sentence.   Two sentences.".

Definition four_sentences : str :=
  of_string "Cats chase mice. Dogs chase cats. Birds sing songs. Fish swim deep.".

(** The sentences of [four_sentences] and the vocabulary fitted on them. *)
Definition sentences4 : list str :=
  [of_string "Cats chase mice."; of_string "Dogs chase cats.";
   of_string "Birds sing songs."; of_string "Fish swim deep."].

Definition vocabulary4 : list str :=
  [of_string "birds"; of_string "cats"; of_string "chase"; of_string "deep";
   of_string "dogs"; of_string "fish"; of_string "mice"; of_string "sing";
   of_string "songs"; of_string "swim"].

(** Three times the same sentence: every term is in all of them. *)
Definition same_three : list str :=
  [of_string "Hello world."; of_string "Hello world."; of_string "Hello world."].

(** 0.4375 = 7/16, exactly representable. *)
Definition ratio_7_16 : F64.float := S754_finite false 7881299347898368 (-54).
(** 2.0 and -1.0. *)
Definition ratio_2 : F64.float := S754_finite false 4503599627370496 (-51).
Definition ratio_minus_1 : F64.float := S754_finite true 4503599627370496 (-52).
(** The largest finite float, 1.7976931348623157e308. *)
Definition ratio_huge : F64.float := SFmax_float F64.prec F64.emax.

End Demo.

(* ================================================================== *)
(** * src/feature_extraction.py, the similarity matrix *)
(* ================================================================== *)

Module similarity.
Import Py Ext feature_extraction.

(** The dot product of two rows. *)
Fixpoint dot (a b : list R) : R :=
  match a, b with
  | x :: a', y :: b' => (x * y + dot a' b')%R
  | _, _ => 0%R
  end.

(** scikit-learn's [cosine_similarity(X)]: the rows are L2-normalised
    (a zero row is left as it is) and the result is the product of the
    normalised matrix with its transpose.  The arithmetic is that of the
    real numbers, as for the matrix itself; binary64 rounds each
    operation, so what is proved of it below is the shape, the symmetry
    and the sign of the cells, which rounding leaves alone. *)
Definition cosine_similarity (X : matrix) : matrix :=
  let X_normalized := map normalize_row X in
  map (fun x => map (dot x) X_normalized) X_normalized.

(** [compute_similarity_matrix(tfidf_matrix)]. *)
Definition compute_similarity_matrix (tfidf_matrix : matrix) : matrix :=
  cosine_similarity tfidf_matrix.

(** The cell [(i, j)] of a matrix, when it has one. *)
Definition cell (M : matrix) (i j : nat) : option R :=
  match nth_error M i with
  | Some row => nth_error row j
  | None => None
  end.

End similarity.

(* ================================================================== *)
(** * src/preprocess.py, the word-level tokenization *)
(* ================================================================== *)

Module tokenization.
Import Py Ext preprocess feature_extraction.

(** What the word-level functions take from NLTK and from the built-in
    [str] methods.
      - [word_tokenize] is NLTK's word tokenizer, which reads the data
        directory;
      - [stopwords_words] is [stopwords.words("english")], which raises
        [LookupError] when the corpus is missing;
      - [lower] is [str.lower];
      - [isalpha_char] tells the alphabetic characters, as [str.isalpha]
        sees them. *)
Record Lexer : Type := {
  word_tokenize : nltk_data -> str -> res (list str);
  stopwords_words : nltk_data -> res (list str);
  lower : str -> str;
  isalpha_char : codepoint -> bool
}.

(** [t.isalpha()]: at least one character, and all of them alphabetic. *)
Definition isalpha (L : Lexer) (t : str) : bool :=
  truthy t && forallb (isalpha_char L) t.

(** The state of the process with the cache of [functools.lru_cache]
    around [_get_stop_words]: empty, or the set the first call built. *)
Record cached_world : Type := {
  process : world;
  stop_words_cache : option (list str)
}.

(** [t in stop_words] for the frozen set. *)
Definition in_set (stop_words : list str) (t : str) : bool :=
  existsb (str_eqb t) stop_words.

(** [_get_stop_words()]: the cached set when there is one; otherwise the
    NLTK data is ensured, the list is read and the set is cached.  A call
    that raises caches nothing. *)
Definition _get_stop_words (L : Lexer) (E : Env) (cw : cached_world)
  : res (list str) * cached_world :=
  match stop_words_cache cw with
  | Some stop_words => (Ok stop_words, cw)
  | None =>
      let w1 := ensure_nltk_data E (process cw) in
      match stopwords_words L (data w1) with
      | Ok stop_words =>
          (Ok stop_words,
           {| process := w1; stop_words_cache := Some stop_words |})
      | Raise e => (Raise e, {| process := w1; stop_words_cache := None |})
      end
  end.

(** [tokenize_and_clean(sentence, remove_stopwords)]. *)
Definition tokenize_and_clean (L : Lexer) (E : Env) (cw : cached_world)
           (sentence : str) (remove_stopwords : bool)
  : res (list str) * cached_world :=
  let w1 := ensure_nltk_data E (process cw) in
  let cw1 := {| process := w1; stop_words_cache := stop_words_cache cw |} in
  match word_tokenize L (data w1) (lower L sentence) with
  | Raise e => (Raise e, cw1)
  | Ok tokens =>
      let tokens := filter (isalpha L) tokens in
      if remove_stopwords then
        let '(r, cw2) := _get_stop_words L E cw1 in
        (bind r (fun stop_words =>
           Ok (filter (fun t => negb (in_set stop_words t)) tokens)),
         cw2)
      else (Ok tokens, cw1)
  end.

End tokenization.

(* ================================================================== *)
(** * Shapes of texts and lists, for the statements *)
(* ================================================================== *)

Module Shape.
Import Py Ext.

(** Every download installs its package and removes none. *)
Definition downloads_install (E : Env) : Prop :=
  forall (r : resource) (d : nltk_data),
    preprocess.nltk_find r (nltk_download E r d) = true
    /\ forall r', preprocess.nltk_find r' d = true ->
                  preprocess.nltk_find r' (nltk_download E r d) = true.

(** The three packages are in the data directory. *)
Definition all_installed (d : nltk_data) : Prop :=
  preprocess.nltk_find punkt d = true
  /\ preprocess.nltk_find punkt_tab d = true
  /\ preprocess.nltk_find stopwords d = true.

(** Every whitespace character of [s] is a single space that no other
    whitespace precedes; [after_space] tells that the character before
    [s] was whitespace. *)
Fixpoint collapsed (after_space : bool) (s : str) : bool :=
  match s with
  | [] => true
  | c :: s' =>
      if isspace c
      then (c =? space)%N && negb after_space && collapsed true s'
      else collapsed false s'
  end.

(** [s] neither begins nor ends with whitespace. *)
Definition trimmed (s : str) : Prop :=
  match s with
  | [] => True
  | c :: _ => isspace c = false /\ isspace (last s c) = false
  end.

(** The characters of [s] that are not whitespace, in order. *)
Definition ink (s : str) : str := filter (fun c => negb (isspace c)) s.

(** [sub] is [l] with some elements left out, the order kept. *)
Inductive subsequence {A : Type} : list A -> list A -> Prop :=
| sub_nil : subsequence [] []
| sub_keep (x : A) (sub l : list A) :
    subsequence sub l -> subsequence (x :: sub) (x :: l)
| sub_skip (x : A) (sub l : list A) :
    subsequence sub l -> subsequence sub (x :: l).

End Shape.

(* ================================================================== *)
(** * A word-level environment for closed examples *)
(* ================================================================== *)

Module DemoWords.
Import Py Ext tokenization.

Definition is_letter (c : codepoint) : bool :=
  ((65 <=? c) && (c <=? 90) || (97 <=? c) && (c <=? 122))%N.

(** Words are separated by spaces. *)
Fixpoint split_spaces (current : str) (s : str) : list str :=
  match s with
  | [] => match current with [] => [] | _ => [rev current] end
  | c :: s' =>
      if (c =? space)%N
      then match current with
           | [] => split_spaces [] s'
           | _ => rev current :: split_spaces [] s'
           end
      else split_spaces (c :: current) s'
  end.

Definition lexer : Lexer :=
  {| word_tokenize := fun _ s => Ok (split_spaces [] s);
     stopwords_words := fun d =>
       if preprocess.nltk_find stopwords d
       then Ok [of_string "the"; of_string "a"; of_string "is"]
       else Raise LookupError;
     lower := map Demo.lower;
     isalpha_char := is_letter |}.

Definition fresh : cached_world :=
  {| process := Demo.fresh; stop_words_cache := None |}.

(** The environment of [Demo] without a network: a download installs
    nothing. *)
Definition offline_env : Env :=
  {| nltk_download := fun _ d => d;
     sent_tokenize := sent_tokenize Demo.env;
     analyzer := analyzer Demo.env;
     cluster_sentences := cluster_sentences Demo.env |}.

End DemoWords.

(* ================================================================== *)
(** * Properties *)
(* ================================================================== *)

Import Py Ext.
Import preprocess feature_extraction clustering summarizer.
Import Design.

(** ** Strings *)

Lemma lstrip_blank (s : str) :
  forallb isspace s = true -> lstrip s = [].
Proof.
  induction s as [|c s IH]; simpl; [reflexivity|].
  intros H. apply andb_true_iff in H as [Hc Hs].
  rewrite Hc. now apply IH.
Qed.

Lemma lstrip_not_blank (s : str) :
  forallb isspace s = false -> lstrip s <> [].
Proof.
  induction s as [|c s IH]; simpl; [discriminate|].
  destruct (isspace c) eqn:Hc; simpl; [exact IH | discriminate].
Qed.

Lemma lstrip_head (s : str) :
  match lstrip s with
  | [] => True
  | c :: _ => isspace c = false
  end.
Proof.
  induction s as [|c s IH]; simpl; [exact I|].
  destruct (isspace c) eqn:Hc; [exact IH | exact Hc].
Qed.

Lemma lstrip_keeps_last (s : str) (c : codepoint) :
  isspace c = false -> lstrip (s ++ [c]) <> [].
Proof.
  intros Hc. induction s as [|d s IH]; simpl.
  - rewrite Hc. discriminate.
  - destruct (isspace d); [exact IH | discriminate].
Qed.

(** A text with a character that is not whitespace keeps it under
    [strip]. *)
Lemma strip_not_blank (s : str) :
  forallb isspace s = false -> strip s <> [].
Proof.
  intros H. unfold strip, rstrip.
  pose proof (lstrip_not_blank s H) as Hne.
  pose proof (lstrip_head s) as Hhd.
  destruct (lstrip s) as [|c t]; [congruence|].
  simpl rev. intros Habs.
  apply (lstrip_keeps_last (rev t) c Hhd).
  apply (f_equal (@rev codepoint)) in Habs.
  now rewrite rev_involutive in Habs.
Qed.

Lemma strip_blank (s : str) :
  forallb isspace s = true -> strip s = [].
Proof.
  intros H. unfold strip. now rewrite (lstrip_blank s H).
Qed.

(** The guard of [summarize] holds exactly on the texts that are empty or
    made of whitespace only. *)
Lemma is_blank_spec (text : str) :
  is_blank text = forallb isspace text.
Proof.
  unfold is_blank.
  destruct (forallb isspace text) eqn:H.
  - rewrite (strip_blank text H). simpl. now rewrite orb_true_r.
  - pose proof (strip_not_blank text H) as Hs.
    destruct text as [|c t]; [discriminate|].
    destruct (strip (c :: t)); [congruence | reflexivity].
Qed.

(** ** The process state *)

Lemma ensure_nltk_data_ready (E : Env) (w : world) :
  _NLTK_READY (ensure_nltk_data E w) = true.
Proof.
  unfold ensure_nltk_data. destruct (_NLTK_READY w) eqn:H; [exact H | reflexivity].
Qed.

Lemma ensure_nltk_data_idempotent (E : Env) (w : world) :
  ensure_nltk_data E (ensure_nltk_data E w) = ensure_nltk_data E w.
Proof.
  unfold ensure_nltk_data at 1. now rewrite ensure_nltk_data_ready.
Qed.

Lemma preprocess_text_world (E : Env) (w : world) (text : str) :
  snd (preprocess_text E w text) = ensure_nltk_data E w.
Proof. reflexivity. Qed.

Lemma preprocess_text_after_ensure (E : Env) (w : world) (text : str) :
  preprocess_text E (ensure_nltk_data E w) text = preprocess_text E w text.
Proof.
  unfold preprocess_text, split_sentences.
  now rewrite ensure_nltk_data_idempotent.
Qed.

Lemma preprocess_text_cleaned (E : Env) (w : world) (text cleaned : str)
      (sentences : list str) :
  fst (preprocess_text E w text) = Ok (cleaned, sentences) ->
  cleaned = clean_text text.
Proof.
  unfold preprocess_text, split_sentences. simpl.
  destruct (sent_tokenize E _ _); simpl; congruence.
Qed.

(** What [summarize] does when the guard does not fire. *)
Lemma summarize_not_blank (E : Env) (w : world) (text : str)
      (ratio : F64.float) (cleaned : str) (sentences : list str) :
  forallb isspace text = false ->
  fst (preprocess_text E w text) = Ok (cleaned, sentences) ->
  fst (summarize E w text ratio) =
    if (len sentences <=? 2)%Z then
      Ok {| summary := cleaned;
            original_sentence_count := len sentences;
            summary_sentence_count := len sentences;
            compression_ratio := F64.one |}
    else bind (derive_n_clusters (len sentences) ratio)
              (run_pipeline E sentences).
Proof.
  intros Hb Hp. unfold summarize. rewrite is_blank_spec, Hb.
  destruct (preprocess_text E w text) as [r w1]. simpl in *. subst r.
  simpl. destruct (len sentences <=? 2)%Z; reflexivity.
Qed.

(** ** The regimes of the orchestrator *)

(** C4.  A text that is empty or made of whitespace only gets the
    zero-valued result: empty summary, both counts 0, ratio 0.0.  The
    outcome and the untouched process state are the same whatever the
    collaborators are, so none of the tokenizer, the Vectorizer, the
    Scorer, the Grouper and the Selector takes part in it. *)
Theorem empty_regime (E : Env) (w : world) (text : str) (ratio : F64.float) :
  forallb isspace text = true ->
  summarize E w text ratio =
    (Ok {| summary := [];
           original_sentence_count := 0;
           summary_sentence_count := 0;
           compression_ratio := S754_zero false |}, w).
Proof.
  intros H. unfold summarize. rewrite is_blank_spec, H. reflexivity.
Qed.

Lemma empty_regime_witness :
  summarize Demo.blank_env Demo.fresh (of_string "  ") default_ratio =
    (Ok {| summary := [];
           original_sentence_count := 0;
           summary_sentence_count := 0;
           compression_ratio := S754_zero false |}, Demo.fresh).
Proof.
  apply (empty_regime Demo.blank_env Demo.fresh (of_string "  ") default_ratio).
  reflexivity.
Defined.

(** C3.  A text that is not blank and whose cleaned form splits into at
    most two sentences comes back as its cleaned form, with both counts
    equal to the number of sentences and a compression ratio of exactly
    1.0. *)
Theorem trivial_regime (E : Env) (w : world) (text : str) (ratio : F64.float)
        (cleaned : str) (sentences : list str) :
  forallb isspace text = false ->
  fst (preprocess_text E w text) = Ok (cleaned, sentences) ->
  (len sentences <= 2)%Z ->
  cleaned = clean_text text
  /\ fst (summarize E w text ratio) =
       Ok {| summary := clean_text text;
             original_sentence_count := len sentences;
             summary_sentence_count := len sentences;
             compression_ratio := F64.one |}.
Proof.
  intros Hb Hp Hlen.
  pose proof (preprocess_text_cleaned E w text Hp) as Hc.
  split; [exact Hc|].
  rewrite (summarize_not_blank E w text ratio Hb Hp).
  apply Z.leb_le in Hlen. rewrite Hlen. now rewrite Hc.
Qed.

Lemma trivial_regime_witness :
  of_string "One sentence. Two sentences." = clean_text Demo.two_sentences
  /\ fst (summarize Demo.env Demo.fresh Demo.two_sentences default_ratio) =
       Ok {| summary := clean_text Demo.two_sentences;
             original_sentence_count := len [of_string "One sentence."; of_string "Two sentences."];
             summary_sentence_count := len [of_string "One sentence."; of_string "Two sentences."];
             compression_ratio := F64.one |}.
Proof.
  apply (trivial_regime Demo.env Demo.fresh Demo.two_sentences default_ratio).
  - reflexivity.
  - vm_compute. reflexivity.
  - unfold len. simpl. lia.
Defined.

(** C10.  A text that is not blank but whose split yields no sentence (the
    tokenizer returns nothing, or blank fragments that [split_sentences]
    drops) is handled by the trivial regime: the summary is the cleaned
    text, both counts are 0 and the ratio is 1.0, which is not the
    zero-valued result of the empty regime. *)
Theorem no_sentence_regime (E : Env) (w : world) (text : str)
        (ratio : F64.float) :
  forallb isspace text = false ->
  fst (split_sentences E w (clean_text text)) = Ok [] ->
  fst (summarize E w text ratio) =
    Ok {| summary := clean_text text;
          original_sentence_count := 0;
          summary_sentence_count := 0;
          compression_ratio := F64.one |}
  /\ fst (summarize E w text ratio) <> Ok _empty_result.
Proof.
  intros Hb Hs.
  assert (Hp : fst (preprocess_text E w text) = Ok (clean_text text, [])).
  { unfold preprocess_text.
    destruct (split_sentences E w (clean_text text)) as [r w1].
    simpl in *. now subst r. }
  rewrite (summarize_not_blank E w text ratio Hb Hp). simpl.
  split; [reflexivity | discriminate].
Qed.

Lemma no_sentence_regime_witness :
  fst (summarize Demo.blank_env Demo.fresh Demo.two_sentences default_ratio) =
    Ok {| summary := clean_text Demo.two_sentences;
          original_sentence_count := 0;
          summary_sentence_count := 0;
          compression_ratio := F64.one |}
  /\ fst (summarize Demo.blank_env Demo.fresh Demo.two_sentences default_ratio)
     <> Ok _empty_result.
Proof.
  apply (no_sentence_regime Demo.blank_env Demo.fresh Demo.two_sentences default_ratio).
  - reflexivity.
  - reflexivity.
Defined.

Lemma summarize_world (E : Env) (w : world) (text : str) (ratio : F64.float) :
  snd (summarize E w text ratio) =
    if is_blank text then w else ensure_nltk_data E w.
Proof.
  unfold summarize. destruct (is_blank text); [reflexivity|].
  rewrite <- (preprocess_text_world E w text).
  destruct (preprocess_text E w text) as [r w1]. reflexivity.
Qed.

Lemma summarize_after_ensure (E : Env) (w : world) (text : str)
      (ratio : F64.float) :
  fst (summarize E (ensure_nltk_data E w) text ratio)
  = fst (summarize E w text ratio).
Proof.
  unfold summarize. destruct (is_blank text); [reflexivity|].
  rewrite preprocess_text_after_ensure.
  destruct (preprocess_text E w text) as [r w1]. reflexivity.
Qed.

(** Once the flag is set, no call changes the state of the process. *)
Lemma run_calls_ready (E : Env) (calls : list (str * F64.float)) :
  forall w, _NLTK_READY w = true -> run_calls E w calls = w.
Proof.
  induction calls as [|[text ratio] calls IH]; intros w Hw; simpl;
    [reflexivity|].
  rewrite summarize_world.
  assert (He : ensure_nltk_data E w = w)
    by (unfold ensure_nltk_data; now rewrite Hw).
  rewrite He. destruct (is_blank text); now apply IH.
Qed.

(** The state of the process does not reach the result of a later call:
    a call on the same text and ratio, made after the first one and after
    any other calls in between, finds the readiness flag and the data
    directory as the first call left them and gives the same outcome.
    The collaborators of [Env] are functions of their arguments, so this
    is about the state that [preprocess.py] keeps and about nothing that
    a collaborator might draw at random. *)
Lemma summarize_repeated_call (E : Env) (w : world) (text : str)
      (ratio : F64.float) (between : list (str * F64.float)) :
  let first := summarize E w text ratio in
  let again := summarize E (run_calls E (snd first) between) text ratio in
  fst again = fst first.
Proof.
  cbv zeta. rewrite summarize_world.
  destruct (is_blank text) eqn:Hb.
  - unfold summarize. now rewrite Hb.
  - rewrite run_calls_ready by apply ensure_nltk_data_ready.
    apply summarize_after_ensure.
Qed.

(** ** The group count *)

Lemma to_int_truncates (x : F64.float) (z : Z) :
  F64.to_int x = Ok z ->
  z = Design.trunc_fraction (Design.numerator x) (Design.denominator x).
Proof.
  unfold Design.trunc_fraction.
  destruct x as [s|s| |s m e];
    cbn [F64.to_int Design.numerator Design.denominator]; try discriminate.
  - intros H. injection H as <-. reflexivity.
  - intros H. injection H as <-.
    destruct (Z.le_gt_cases 0 e) as [He|He].
    + rewrite (Z.max_l e 0), (Z.max_r (- e) 0) by lia.
      rewrite Z.shiftl_mul_pow2 by lia.
      change (2 ^ 0)%Z with 1%Z. now rewrite Z.quot_1_r.
    + rewrite (Z.max_r e 0), (Z.max_l (- e) 0) by lia.
      change (2 ^ 0)%Z with 1%Z. rewrite Z.mul_1_r.
      replace e with (- - e)%Z at 1 by lia.
      rewrite Z.shiftl_opp_r, Z.shiftr_div_pow2 by lia.
      assert (Hp : (0 < 2 ^ (- e))%Z) by (apply Z.pow_pos_nonneg; lia).
      destruct s; cbn [cond_Zopp].
      * rewrite Z.quot_opp_l by lia.
        rewrite Z.quot_div_nonneg by lia. reflexivity.
      * rewrite Z.quot_div_nonneg by lia. reflexivity.
Qed.

Lemma clamp_min_max (x n : Z) :
  (1 <= n)%Z -> Z.min (Z.max 1 x) n = Design.clamp x 1 n.
Proof.
  intros Hn. unfold Design.clamp.
  destruct (x <? 1)%Z eqn:H1; [apply Z.ltb_lt in H1; lia|].
  apply Z.ltb_ge in H1.
  destruct (n <? x)%Z eqn:H2; [apply Z.ltb_lt in H2 | apply Z.ltb_ge in H2]; lia.
Qed.

Lemma clamp_bounds (x n : Z) :
  (1 <= n)%Z -> (1 <= Design.clamp x 1 n <= n)%Z.
Proof.
  intros Hn. rewrite <- clamp_min_max by exact Hn. lia.
Qed.

Lemma to_int_finite (x : F64.float) :
  F64.is_finite x = true -> exists z, F64.to_int x = Ok z.
Proof.
  destruct x; simpl; try discriminate; eauto.
Qed.

(** C1, as the code has it.  With at least three sentences and a finite
    float product [N * ratio], the group count is
    [clamp(trunc(N * ratio), 1, N)], the product being truncated toward
    zero; it lies between 1 and N, and it is the count that the rest of
    [summarize] runs with. *)
Theorem n_clusters_truncates (E : Env) (w : world) (text : str)
        (ratio : F64.float) (cleaned : str) (sentences : list str)
        (product : F64.float) :
  forallb isspace text = false ->
  fst (preprocess_text E w text) = Ok (cleaned, sentences) ->
  (3 <= len sentences)%Z ->
  F64.int_mul (len sentences) ratio = Ok product ->
  F64.is_finite product = true ->
  derive_n_clusters (len sentences) ratio =
    Ok (Design.k_truncated product (len sentences))
  /\ (1 <= Design.k_truncated product (len sentences) <= len sentences)%Z
  /\ fst (summarize E w text ratio) =
       run_pipeline E sentences (Design.k_truncated product (len sentences)).
Proof.
  intros Hb Hp Hlen Hmul Hfin.
  assert (Hk : derive_n_clusters (len sentences) ratio =
               Ok (Design.k_truncated product (len sentences))).
  { unfold derive_n_clusters. rewrite Hmul. simpl.
    destruct (to_int_finite product Hfin) as [z Hz].
    rewrite Hz. simpl. unfold Design.k_truncated.
    rewrite <- (to_int_truncates product Hz).
    now rewrite clamp_min_max by lia. }
  split; [exact Hk|]. split.
  - unfold Design.k_truncated. apply clamp_bounds. lia.
  - rewrite (summarize_not_blank E w text ratio Hb Hp).
    destruct (len sentences <=? 2)%Z eqn:H2; [apply Z.leb_le in H2; lia|].
    rewrite Hk. reflexivity.
Qed.

Lemma n_clusters_truncates_witness :
  derive_n_clusters 4 Demo.ratio_7_16 = Ok 1%Z
  /\ (1 <= 1 <= 4)%Z
  /\ fst (summarize Demo.env Demo.fresh Demo.four_sentences Demo.ratio_7_16) =
       run_pipeline Demo.env
         Demo.sentences4 1.
Proof.
  apply (n_clusters_truncates Demo.env Demo.fresh Demo.four_sentences
           Demo.ratio_7_16
           (cleaned := clean_text Demo.four_sentences)
           (sentences := Demo.sentences4)
           (product := S754_finite false 7881299347898368 (-52))).
  - reflexivity.
  - vm_compute. reflexivity.
  - unfold len. simpl. lia.
  - vm_compute. reflexivity.
  - reflexivity.
Defined.

(** C1, as the design document states it, fails: with four sentences and the ratio
    0.4375 the product is 1.75, which rounds to 2 and truncates to 1; the
    code derives 1 group where [clamp(round(N * ratio), 1, N)] is 2. *)
Lemma n_clusters_not_rounded :
  exists cleaned sentences product,
    fst (preprocess_text Demo.env Demo.fresh Demo.four_sentences)
      = Ok (cleaned, sentences)
    /\ len sentences = 4%Z
    /\ F64.int_mul (len sentences) Demo.ratio_7_16 = Ok product
    /\ derive_n_clusters (len sentences) Demo.ratio_7_16 = Ok 1%Z
    /\ Design.k_rounded product (len sentences) = 2%Z.
Proof.
  eexists _, _, _. split; [vm_compute; reflexivity|].
  split; [reflexivity|]. split; [vm_compute; reflexivity|].
  split; vm_compute; reflexivity.
Qed.

(** ** Sorting *)

Section SortByFacts.
Variable A : Type.
Variable leb : A -> A -> bool.

Lemma insert_sorted_perm (x : A) (l : list A) :
  Permutation (insert_sorted leb x l) (x :: l).
Proof.
  induction l as [|y l IH]; simpl; [reflexivity|].
  destruct (leb x y); [reflexivity|].
  rewrite IH. apply perm_swap.
Qed.

Lemma sort_by_perm (l : list A) : Permutation (sort_by leb l) l.
Proof.
  induction l as [|x l IH]; simpl; [reflexivity|].
  rewrite insert_sorted_perm. now constructor.
Qed.

Hypothesis leb_total : forall a b, leb a b = true \/ leb b a = true.
Hypothesis leb_trans :
  forall a b c, leb a b = true -> leb b c = true -> leb a c = true.

Let le (a b : A) : Prop := leb a b = true.

Lemma insert_sorted_sorted (x : A) (l : list A) :
  StronglySorted le l -> StronglySorted le (insert_sorted leb x l).
Proof.
  induction 1 as [|y l Hs IH Hy]; simpl.
  - repeat constructor.
  - destruct (leb x y) eqn:Hxy.
    + constructor; [now constructor|].
      constructor; [exact Hxy|].
      eapply Forall_impl; [|exact Hy].
      intros z Hz. eapply leb_trans; eassumption.
    + constructor; [exact IH|].
      assert (Hyx : le y x) by (destruct (leb_total x y); [congruence | assumption]).
      rewrite (Forall_forall (le y)). intros z Hz.
      apply (Permutation_in _ (insert_sorted_perm x l)) in Hz.
      destruct Hz as [<-|Hz]; [exact Hyx|].
      rewrite Forall_forall in Hy. now apply Hy.
Qed.

Lemma sort_by_sorted (l : list A) : StronglySorted le (sort_by leb l).
Proof.
  induction l as [|x l IH]; simpl; [constructor|].
  now apply insert_sorted_sorted.
Qed.
End SortByFacts.

(** A list of naturals that is sorted and has no duplicate is strictly
    increasing. *)
Lemma sorted_nodup_increasing (l : list nat) :
  StronglySorted le l -> NoDup l -> StronglySorted lt l.
Proof.
  induction 1 as [|x l Hs IH Hx]; intros Hnd; [constructor|].
  inversion Hnd as [|? ? Hnotin Hnd']; subst.
  constructor; [now apply IH|].
  rewrite Forall_forall in *. intros y Hy.
  specialize (Hx y Hy).
  assert (x <> y) by (intros ->; contradiction).
  lia.
Qed.

(** ** The Selector *)

Section SelectorFacts.
Variable score : Type.
Variable score_ltb : score -> score -> bool.

Abbreviation member := (member score).

Lemma members_from_placed (sentences : list str) :
  forall (i : nat) (labels : list Z) (scores : list score),
    Forall (placed i sentences) (members_from i sentences labels scores).
Proof.
  induction sentences as [|s sentences IH]; intros i labels scores; simpl.
  - constructor.
  - destruct labels as [|l labels]; [constructor|].
    destruct scores as [|c scores]; [constructor|].
    constructor.
    + unfold placed. simpl. split; [lia|]. now rewrite Nat.sub_diag.
    + eapply Forall_impl; [|apply (IH (S i))].
      intros m [Hge Hnth]. unfold placed. split; [lia|].
      replace (position m - i)%nat with (S (position m - S i)) by lia.
      exact Hnth.
Qed.

Lemma members_from_positions (sentences : list str) :
  forall (i : nat) (labels : list Z) (scores : list score),
    exists n, map (@position score) (members_from i sentences labels scores)
              = seq i n.
Proof.
  induction sentences as [|s sentences IH]; intros i labels scores; simpl.
  - now exists 0%nat.
  - destruct labels as [|l labels]; [now exists 0%nat|].
    destruct scores as [|c scores]; [now exists 0%nat|].
    destruct (IH (S i) labels scores) as [n Hn].
    exists (S n). simpl. now rewrite Hn.
Qed.

Lemma best_of_source (g : Z) (ms : list member) :
  forall (best : option member) (m : member),
    best_of score_ltb g best ms = Some m ->
    best = Some m \/ (In m ms /\ label m = g).
Proof.
  induction ms as [|x ms IH]; intros best m; simpl.
  - now left.
  - destruct (label x =? g)%Z eqn:Hx.
    + apply Z.eqb_eq in Hx.
      destruct best as [b|].
      * destruct (score_ltb (member_score b) (member_score x)).
        -- intros H. destruct (IH _ _ H) as [Hb|[Hin Hl]].
           ++ injection Hb as <-. right. now split; [left|].
           ++ right. now split; [right|].
        -- intros H. destruct (IH _ _ H) as [Hb|[Hin Hl]].
           ++ now left.
           ++ right. now split; [right|].
      * intros H. destruct (IH _ _ H) as [Hb|[Hin Hl]].
        -- injection Hb as <-. right. now split; [left|].
        -- right. now split; [right|].
    + intros H. destruct (IH _ _ H) as [Hb|[Hin Hl]].
      * now left.
      * right. now split; [right|].
Qed.

Lemma occupied_fresh (ms : list member) :
  forall seen, NoDup (occupied seen ms)
               /\ forall g, In g (occupied seen ms) -> ~ In g seen.
Proof.
  induction ms as [|m ms IH]; intros seen; simpl.
  - split; [constructor | intros g []].
  - destruct (existsb (Z.eqb (label m)) seen) eqn:Hex.
    + apply IH.
    + destruct (IH (label m :: seen)) as [Hnd Hfresh].
      assert (Hm : ~ In (label m) seen).
      { intros Hin.
        assert (existsb (Z.eqb (label m)) seen = true)
          by (apply existsb_exists; exists (label m); split;
              [exact Hin | apply Z.eqb_refl]).
        congruence. }
      split.
      * constructor; [|exact Hnd].
        intros Hin. apply (Hfresh _ Hin). now left.
      * intros g [<-|Hin]; [exact Hm|].
        intros Hs. apply (Hfresh _ Hin). now right.
Qed.

Lemma collect_members (ms : list member) (groups : list Z) :
  Forall (fun m => In m ms /\ In (label m) groups) (collect score_ltb ms groups).
Proof.
  induction groups as [|g groups IH]; simpl; [constructor|].
  assert (Hrest : Forall (fun m => In m ms /\ In (label m) (g :: groups))
                         (collect score_ltb ms groups)).
  { eapply Forall_impl; [|exact IH]. intros m [H1 H2]. split; [exact H1 | now right]. }
  destruct (best_of score_ltb g None ms) as [m|] eqn:Hb; [|exact Hrest].
  constructor; [|exact Hrest].
  destruct (best_of_source g ms _ Hb) as [Habs|[Hin Hl]]; [discriminate|].
  split; [exact Hin | now left].
Qed.

Lemma collect_labels_nodup (ms : list member) (groups : list Z) :
  NoDup groups ->
  NoDup (map (@label score) (collect score_ltb ms groups)).
Proof.
  induction 1 as [|g groups Hnotin Hnd IH]; simpl; [constructor|].
  destruct (best_of score_ltb g None ms) as [m|] eqn:Hb; [|exact IH].
  destruct (best_of_source g ms _ Hb) as [Habs|[Hin Hl]]; [discriminate|].
  simpl. constructor; [|exact IH].
  rewrite Hl. intros Hg. apply Hnotin.
  apply in_map_iff in Hg as [m' [Hl' Hin']].
  pose proof (collect_members ms groups) as Hall.
  rewrite Forall_forall in Hall. rewrite <- Hl'. now apply Hall.
Qed.

(** Members with distinct labels have distinct positions, when every
    position of [ms] occurs once. *)
Lemma positions_nodup (ms chosen : list member) :
  NoDup (map (@position score) ms) ->
  Forall (fun m => In m ms) chosen ->
  NoDup (map (@label score) chosen) ->
  NoDup (map (@position score) chosen).
Proof.
  intros Hms. induction chosen as [|m chosen IH]; simpl; intros Hin Hnd;
    [constructor|].
  inversion Hin as [|? ? Hm Hin']; subst.
  inversion Hnd as [|? ? Hnotin Hnd']; subst.
  constructor; [|now apply IH].
  intros Hp. apply Hnotin.
  apply in_map_iff in Hp as [m' [Hpos Hm']].
  rewrite Forall_forall in Hin'.
  assert (m' = m).
  { clear - Hms Hm Hpos Hm' Hin'.
    specialize (Hin' _ Hm').
    induction ms as [|x ms IHms]; [contradiction|].
    simpl in Hms. inversion Hms as [|? ? Hx Hms']; subst.
    destruct Hm as [->|Hm], Hin' as [->|Hin'].
    - reflexivity.
    - exfalso. apply Hx. rewrite <- Hpos. now apply in_map.
    - exfalso. apply Hx. rewrite Hpos. now apply in_map.
    - now apply IHms. }
  subst m'. now apply in_map.
Qed.

(** The Selector returns sentences of the document at strictly
    increasing positions, whatever the labels and the scores are. *)
Lemma select_in_document_order (sentences : list str) (labels : list Z)
      (scores : list score) :
  in_document_order sentences
    (select_representative_sentences score_ltb sentences labels scores).
Proof.
  unfold select_representative_sentences, select_members.
  set (ms := members_from 0 sentences labels scores).
  set (chosen := collect score_ltb ms (occupied [] ms)).
  set (sorted := sort_by (@position_leb score) chosen).
  assert (Hperm : Permutation sorted chosen) by apply sort_by_perm.
  assert (Hchosen : Forall (fun m => In m ms) chosen).
  { eapply Forall_impl; [|apply collect_members]. now intros m [H _]. }
  assert (Hplaced : Forall (placed 0 sentences) ms) by apply members_from_placed.
  assert (Hmsnd : NoDup (map (@position score) ms)).
  { destruct (members_from_positions sentences 0 labels scores) as [n Hn].
    fold ms in Hn. rewrite Hn. apply seq_NoDup. }
  assert (Hnd : NoDup (map (@position score) sorted)).
  { apply (Permutation_NoDup (l := map (@position score) chosen)).
    - apply Permutation_map. now symmetry.
    - apply (@positions_nodup ms chosen Hmsnd Hchosen).
      apply collect_labels_nodup. apply (occupied_fresh ms []). }
  assert (Hsorted_in : Forall (placed 0 sentences) sorted).
  { rewrite Forall_forall in *. intros m Hm.
    apply Hplaced, Hchosen. now apply (Permutation_in _ Hperm). }
  exists (map (@position score) sorted). split; [|split].
  - clear - Hsorted_in. induction sorted as [|m l IH]; simpl; [constructor|].
    inversion Hsorted_in as [|? ? [_ Hm] Hl]; subst.
    constructor; [|now apply IH].
    now rewrite Nat.sub_0_r in Hm.
  - apply sorted_nodup_increasing; [|exact Hnd].
    assert (Hs : StronglySorted (fun a b => position_leb a b = true) sorted).
    { apply sort_by_sorted.
      - intros a b. unfold position_leb.
        destruct (Nat.le_ge_cases (position a) (position b)) as [H|H];
          [left | right]; now apply Nat.leb_le.
      - intros a b c. unfold position_leb. rewrite !Nat.leb_le. lia. }
    clear - Hs. induction Hs as [|m l Hs IH Hm]; simpl; constructor.
    + exact IH.
    + rewrite Forall_map. eapply Forall_impl; [|exact Hm].
      intros b Hb. now apply Nat.leb_le.
  - rewrite length_map, <- (length_map (@position score)).
    rewrite <- (length_seq (List.length sentences) 0).
    apply NoDup_incl_length; [exact Hnd|].
    intros p Hp. apply in_map_iff in Hp as [m [<- Hm]].
    rewrite Forall_forall in Hsorted_in.
    destruct (Hsorted_in m Hm) as [_ Hnth].
    rewrite Nat.sub_0_r in Hnth.
    apply in_seq. split; [lia|]. simpl.
    apply nth_error_Some. congruence.
Qed.
End SelectorFacts.

(** ** The weights *)

Local Open Scope R_scope.

Lemma ln_nonneg (x : R) : 1 <= x -> 0 <= ln x.
Proof.
  intros [H| <-].
  - left. rewrite <- ln_1. apply ln_increasing; lra.
  - rewrite ln_1. lra.
Qed.

Lemma tf_nonneg (count : nat) : 0 <= tf count.
Proof.
  destruct count as [|n]; unfold tf; [lra|].
  assert (1 <= INR (S n)).
  { rewrite S_INR. pose proof (pos_INR n). lra. }
  pose proof (ln_nonneg H). lra.
Qed.

Lemma tf_matches_design (count : nat) : tf count = Design.tf_spec count.
Proof.
  unfold Design.tf_spec. destruct count; reflexivity.
Qed.

Lemma df_le_docs (t : str) (docs : list (list str)) :
  (df t docs <= List.length docs)%nat.
Proof. unfold df. apply filter_length_le. Qed.

Lemma idf_smooth (n df_t : nat) :
  idf n df_t = ln ((1 + INR n) / (1 + INR df_t)) + 1.
Proof.
  unfold idf. rewrite !plus_INR. simpl INR.
  now rewrite (Rplus_comm (INR n)), (Rplus_comm (INR df_t)).
Qed.

Lemma idf_ge_1 (n df_t : nat) : (df_t <= n)%nat -> 1 <= idf n df_t.
Proof.
  intros Hle. rewrite idf_smooth.
  apply le_INR in Hle. pose proof (pos_INR df_t).
  assert (1 <= (1 + INR n) / (1 + INR df_t)).
  { apply (Rmult_le_reg_r (1 + INR df_t)); [lra|].
    unfold Rdiv. rewrite Rmult_assoc, Rinv_l by lra. lra. }
  pose proof (ln_nonneg H0). lra.
Qed.

Lemma weight_nonneg (docs : list (list str)) (doc : list str) (t : str) :
  0 <= weight docs doc t.
Proof.
  unfold weight. apply Rmult_le_pos; [apply tf_nonneg|].
  pose proof (idf_ge_1 (df_le_docs t docs)). lra.
Qed.

Lemma sum_nonneg (row : list R) :
  Forall (fun x => 0 <= x) row -> 0 <= feature_extraction.sum row.
Proof.
  induction 1 as [|x row Hx _ IH]; simpl; lra.
Qed.

Lemma sum_zero_row (row : list R) :
  zero_row row -> feature_extraction.sum row = 0.
Proof.
  induction 1 as [|x row Hx _ IH]; simpl; lra.
Qed.

Lemma sum_squares_nonneg (row : list R) : 0 <= sum_squares row.
Proof.
  unfold sum_squares. induction row as [|x row IH]; simpl; [lra|].
  pose proof (Rle_0_sqr x) as Hx. unfold Rsqr in Hx. lra.
Qed.

Lemma sum_squares_zero (row : list R) :
  sum_squares row = 0 -> zero_row row.
Proof.
  unfold zero_row. induction row as [|x row IH]; intros H; constructor.
  - unfold sum_squares in H. simpl in H.
    pose proof (sum_squares_nonneg row) as Hr. unfold sum_squares in Hr.
    pose proof (Rle_0_sqr x) as Hx. unfold Rsqr in Hx.
    assert (x * x = 0) by lra.
    destruct (Rmult_integral _ _ H0); assumption.
  - apply IH. unfold sum_squares in *. simpl in H.
    pose proof (sum_squares_nonneg row) as Hr. unfold sum_squares in Hr.
    pose proof (Rle_0_sqr x) as Hx. unfold Rsqr in Hx. lra.
Qed.

Lemma sum_squares_scaled (c : R) (row : list R) :
  c <> 0 ->
  sum_squares (map (fun x => x / c) row) = sum_squares row / (c * c).
Proof.
  intros Hc. unfold sum_squares.
  induction row as [|x row IH]; simpl.
  - unfold Rdiv. now rewrite Rmult_0_l.
  - rewrite IH. field. exact Hc.
Qed.

(** A row that is not the zero vector has norm 1 once normalised; the
    zero vector is left as it is. *)
Lemma normalize_row_unit (row : list R) :
  sum_squares row <> 0 -> l2_norm (normalize_row row) = 1.
Proof.
  intros Hne. unfold normalize_row.
  destruct (Req_dec_T (sum_squares row) 0) as [Heq|_]; [contradiction|].
  pose proof (sum_squares_nonneg row) as Hpos.
  assert (Hlt : 0 < sum_squares row) by lra.
  pose proof (sqrt_lt_R0 _ Hlt) as Hs.
  unfold l2_norm at 1.
  rewrite sum_squares_scaled by (unfold l2_norm; lra).
  unfold l2_norm. rewrite sqrt_def by lra.
  unfold Rdiv. rewrite Rinv_r by lra. apply sqrt_1.
Qed.

Lemma zero_row_sum_squares (row : list R) :
  zero_row row -> sum_squares row = 0.
Proof.
  unfold sum_squares.
  induction 1 as [|x row Hx _ IH]; simpl; [reflexivity|].
  rewrite IH, Hx. lra.
Qed.

Lemma normalize_row_zero (row : list R) :
  zero_row row -> normalize_row row = row.
Proof.
  intros Hz. unfold normalize_row.
  destruct (Req_dec_T (sum_squares row) 0) as [_|Hne]; [reflexivity|].
  exfalso. apply Hne. now apply zero_row_sum_squares.
Qed.

Lemma normalize_row_cases (row : list R) :
  l2_norm (normalize_row row) = 1
  \/ (zero_row row /\ normalize_row row = row).
Proof.
  destruct (Req_dec_T (sum_squares row) 0) as [Heq|Hne].
  - right. pose proof (sum_squares_zero row Heq) as Hz.
    split; [exact Hz | now apply normalize_row_zero].
  - left. now apply normalize_row_unit.
Qed.

Lemma normalize_row_nonneg (row : list R) :
  Forall (fun x => 0 <= x) row -> Forall (fun x => 0 <= x) (normalize_row row).
Proof.
  intros Hrow. unfold normalize_row.
  destruct (Req_dec_T (sum_squares row) 0) as [_|Hne]; [exact Hrow|].
  pose proof (sum_squares_nonneg row) as Hpos.
  assert (Hlt : 0 < sum_squares row) by lra.
  pose proof (sqrt_lt_R0 _ Hlt) as Hs. fold (l2_norm row) in Hs.
  rewrite Forall_map. eapply Forall_impl; [|exact Hrow].
  intros x Hx. simpl. unfold Rdiv. apply Rmult_le_pos; [exact Hx|].
  left. now apply Rinv_0_lt_compat.
Qed.

Lemma normalize_row_length (row : list R) :
  List.length (normalize_row row) = List.length row.
Proof.
  unfold normalize_row. destruct (Req_dec_T _ _); [reflexivity|].
  apply length_map.
Qed.

Lemma build_tfidf_matrix_inv (E : Env) (sentences : list str) (M : matrix)
      (vocabulary : list str) :
  build_tfidf_matrix E sentences = Ok (M, vocabulary) ->
  fit_vocabulary (map (analyzer E) sentences) = Ok vocabulary
  /\ M = map normalize_row
           (weight_matrix (map (analyzer E) sentences) vocabulary).
Proof.
  unfold build_tfidf_matrix.
  destruct (fit_vocabulary _) as [v|e]; simpl; [|discriminate].
  intros H. injection H as <- <-. split; reflexivity.
Qed.

Lemma matrix_row (E : Env) (sentences : list str) (M : matrix)
      (vocabulary : list str) (i : nat) (row : list R) :
  build_tfidf_matrix E sentences = Ok (M, vocabulary) ->
  nth_error M i = Some row ->
  exists s, nth_error sentences i = Some s
    /\ row = normalize_row
               (weight_row (map (analyzer E) sentences) vocabulary (analyzer E s)).
Proof.
  intros Hb Hrow. destruct (build_tfidf_matrix_inv E sentences Hb) as [_ ->].
  unfold weight_matrix in Hrow. rewrite !nth_error_map in Hrow.
  destruct (nth_error sentences i) as [s|]; simpl in Hrow; [|discriminate].
  exists s. split; [reflexivity | congruence].
Qed.

Lemma weight_row_nonneg (docs : list (list str)) (vocabulary : list str)
      (doc : list str) :
  Forall (fun x => 0 <= x) (weight_row docs vocabulary doc).
Proof.
  unfold weight_row. rewrite Forall_map.
  rewrite Forall_forall. intros t _. apply weight_nonneg.
Qed.

Local Close Scope R_scope.

Lemma fit_vocabulary4 :
  fit_vocabulary (map (analyzer Demo.env) Demo.sentences4) = Ok Demo.vocabulary4.
Proof. vm_compute. reflexivity. Qed.

Lemma build_tfidf_matrix4 :
  build_tfidf_matrix Demo.env Demo.sentences4 =
    Ok (map normalize_row
          (weight_matrix (map (analyzer Demo.env) Demo.sentences4) Demo.vocabulary4),
        Demo.vocabulary4).
Proof.
  unfold build_tfidf_matrix. rewrite fit_vocabulary4. reflexivity.
Qed.

(** The Vectorizer refuses a document whose every term is in more than 95%
    of the sentences: pruning leaves no term. *)
Lemma build_tfidf_matrix_refuses :
  build_tfidf_matrix Demo.env Demo.same_three = Raise ValueError.
Proof.
  unfold build_tfidf_matrix.
  assert (H : fit_vocabulary (map (analyzer Demo.env) Demo.same_three)
              = Raise ValueError) by (vm_compute; reflexivity).
  rewrite H. reflexivity.
Qed.

Local Open Scope R_scope.

(** C5.  The matrix has one row per sentence, every row has Euclidean
    norm 1 or is the zero vector, a row whose weights are all zero before
    the normalisation is left exactly as it is, and a row with a weight
    that is not zero is its weights divided by their Euclidean norm, a row
    of norm 1. *)
Theorem rows_unit_or_zero (E : Env) (sentences : list str) (M : matrix)
        (vocabulary : list str) :
  build_tfidf_matrix E sentences = Ok (M, vocabulary) ->
  List.length M = List.length sentences
  /\ Forall (fun row => l2_norm row = 1 \/ zero_row row) M
  /\ (forall (i : nat) (s : str),
        nth_error sentences i = Some s ->
        zero_row (weight_row (map (analyzer E) sentences) vocabulary (analyzer E s)) ->
        nth_error M i =
          Some (weight_row (map (analyzer E) sentences) vocabulary (analyzer E s)))
  /\ (forall (i : nat) (s : str),
        nth_error sentences i = Some s ->
        ~ zero_row (weight_row (map (analyzer E) sentences) vocabulary
                      (analyzer E s)) ->
        exists row : list R,
          nth_error M i = Some row
          /\ l2_norm row = 1
          /\ row = map (fun x => x / l2_norm
                                      (weight_row (map (analyzer E) sentences)
                                         vocabulary (analyzer E s)))
                       (weight_row (map (analyzer E) sentences) vocabulary
                          (analyzer E s))).
Proof.
  intros Hb. destruct (build_tfidf_matrix_inv E sentences Hb) as [_ ->].
  unfold weight_matrix. split; [|split; [|split]].
  - now rewrite !length_map.
  - rewrite !Forall_map, Forall_forall. intros s _.
    destruct (normalize_row_cases
                (weight_row (map (analyzer E) sentences) vocabulary (analyzer E s)))
      as [H|[Hz Heq]]; [now left|].
    right. now rewrite Heq.
  - intros i s Hs Hz. rewrite !nth_error_map, Hs. simpl.
    now rewrite (normalize_row_zero Hz).
  - intros i s Hs Hnz.
    set (weights := weight_row (map (analyzer E) sentences) vocabulary
                      (analyzer E s)) in *.
    assert (Hne : sum_squares weights <> 0)
      by (intros H0; apply Hnz; now apply sum_squares_zero).
    exists (normalize_row weights). split; [|split].
    + rewrite !nth_error_map, Hs. reflexivity.
    + now apply normalize_row_unit.
    + unfold normalize_row.
      destruct (Req_dec_T (sum_squares weights) 0) as [H0|_];
        [contradiction | reflexivity].
Qed.

Lemma rows_unit_or_zero_witness :
  List.length (map normalize_row
                 (weight_matrix (map (analyzer Demo.env) Demo.sentences4)
                    Demo.vocabulary4))
    = List.length Demo.sentences4
  /\ Forall (fun row => l2_norm row = 1 \/ zero_row row)
       (map normalize_row
          (weight_matrix (map (analyzer Demo.env) Demo.sentences4)
             Demo.vocabulary4))
  /\ (forall (i : nat) (s : str),
        nth_error Demo.sentences4 i = Some s ->
        zero_row (weight_row (map (analyzer Demo.env) Demo.sentences4)
                    Demo.vocabulary4 (analyzer Demo.env s)) ->
        nth_error (map normalize_row
                     (weight_matrix (map (analyzer Demo.env) Demo.sentences4)
                        Demo.vocabulary4)) i =
          Some (weight_row (map (analyzer Demo.env) Demo.sentences4)
                  Demo.vocabulary4 (analyzer Demo.env s)))
  /\ (forall (i : nat) (s : str),
        nth_error Demo.sentences4 i = Some s ->
        ~ zero_row (weight_row (map (analyzer Demo.env) Demo.sentences4)
                      Demo.vocabulary4 (analyzer Demo.env s)) ->
        exists row : list R,
          nth_error (map normalize_row
                       (weight_matrix (map (analyzer Demo.env) Demo.sentences4)
                          Demo.vocabulary4)) i = Some row
          /\ l2_norm row = 1
          /\ row = map (fun x => x / l2_norm
                                      (weight_row
                                         (map (analyzer Demo.env) Demo.sentences4)
                                         Demo.vocabulary4 (analyzer Demo.env s)))
                       (weight_row (map (analyzer Demo.env) Demo.sentences4)
                          Demo.vocabulary4 (analyzer Demo.env s))).
Proof.
  apply (rows_unit_or_zero Demo.env Demo.sentences4 (vocabulary := Demo.vocabulary4)).
  unfold build_tfidf_matrix.
  replace (fit_vocabulary (map (analyzer Demo.env) Demo.sentences4))
    with (Ok Demo.vocabulary4) by (vm_compute; reflexivity).
  reflexivity.
Defined.

(** C6.  The Scorer returns one score per row, the sum of the row's cells
    over the number of vocabulary columns, zero cells included; a zero row
    scores exactly 0, no score is negative, and the scores line up with
    the sentences, so that every sentence, a zero row's included, is among
    the members that the Selector chooses from. *)
Theorem scores_are_row_means (E : Env) (sentences : list str) (M : matrix)
        (vocabulary : list str) :
  build_tfidf_matrix E sentences = Ok (M, vocabulary) ->
  List.length (get_sentence_scores M) = List.length sentences
  /\ (forall (i : nat) (row : list R),
        nth_error M i = Some row ->
        List.length row = List.length vocabulary
        /\ nth_error (get_sentence_scores M) i =
             Some (feature_extraction.sum row / INR (List.length vocabulary))
        /\ 0 <= feature_extraction.sum row / INR (List.length vocabulary)
        /\ (zero_row row ->
            feature_extraction.sum row / INR (List.length vocabulary) = 0))
  /\ (forall labels : list Z,
        List.length labels = List.length sentences ->
        map (@position R)
            (members_from 0 sentences labels (get_sentence_scores M))
          = seq 0 (List.length sentences)).
Proof.
  intros Hb.
  assert (Hlen : List.length (get_sentence_scores M) = List.length sentences).
  { destruct (build_tfidf_matrix_inv E sentences Hb) as [_ ->].
    unfold get_sentence_scores, weight_matrix. now rewrite !length_map. }
  split; [exact Hlen|]. split.
  - intros i row Hrow.
    destruct (matrix_row E sentences i Hb Hrow) as (s & Hs & ->).
    set (wrow := weight_row (map (analyzer E) sentences) vocabulary (analyzer E s)) in *.
    assert (Hw : List.length (normalize_row wrow) = List.length vocabulary).
    { rewrite normalize_row_length. unfold wrow, weight_row. apply length_map. }
    split; [exact Hw|]. split; [|split].
    + unfold get_sentence_scores. rewrite nth_error_map, Hrow.
      cbn [option_map]. now rewrite Hw.
    + assert (Hnn : Forall (fun x => 0 <= x) (normalize_row wrow))
        by apply normalize_row_nonneg, weight_row_nonneg.
      pose proof (sum_nonneg Hnn) as Hsum.
      destruct (List.length vocabulary) as [|n] eqn:Hn.
      * destruct (normalize_row wrow); [|discriminate].
        simpl. unfold Rdiv. rewrite Rmult_0_l. lra.
      * unfold Rdiv. apply Rmult_le_pos; [exact Hsum|].
        left. apply Rinv_0_lt_compat. apply lt_0_INR. lia.
    + intros Hz. rewrite (sum_zero_row Hz). unfold Rdiv. apply Rmult_0_l.
  - intros labels Hlab.
    remember (get_sentence_scores M) as scores eqn:Hsc. clear Hsc Hb.
    clear vocabulary M E.
    revert labels scores Hlab Hlen. generalize 0%nat.
    induction sentences as [|s sentences IH]; intros i labels scores Hlab Hlen.
    + reflexivity.
    + destruct labels as [|l labels]; [discriminate|].
      destruct scores as [|c scores]; [discriminate|].
      simpl. f_equal. apply IH; simpl in *; lia.
Qed.

Lemma scores_are_row_means_witness :
  List.length (get_sentence_scores
                 (map normalize_row
                    (weight_matrix (map (analyzer Demo.env) Demo.sentences4)
                       Demo.vocabulary4)))
    = List.length Demo.sentences4
  /\ (forall (i : nat) (row : list R),
        nth_error (map normalize_row
                     (weight_matrix (map (analyzer Demo.env) Demo.sentences4)
                        Demo.vocabulary4)) i = Some row ->
        List.length row = List.length Demo.vocabulary4
        /\ nth_error (get_sentence_scores
                        (map normalize_row
                           (weight_matrix (map (analyzer Demo.env) Demo.sentences4)
                              Demo.vocabulary4))) i =
             Some (feature_extraction.sum row / INR (List.length Demo.vocabulary4))
        /\ 0 <= feature_extraction.sum row / INR (List.length Demo.vocabulary4)
        /\ (zero_row row ->
            feature_extraction.sum row / INR (List.length Demo.vocabulary4) = 0))
  /\ (forall labels : list Z,
        List.length labels = List.length Demo.sentences4 ->
        map (@position R)
            (members_from 0 Demo.sentences4 labels
               (get_sentence_scores
                  (map normalize_row
                     (weight_matrix (map (analyzer Demo.env) Demo.sentences4)
                        Demo.vocabulary4))))
          = seq 0 (List.length Demo.sentences4)).
Proof.
  apply (scores_are_row_means Demo.env Demo.sentences4 (vocabulary := Demo.vocabulary4)).
  unfold build_tfidf_matrix.
  replace (fit_vocabulary (map (analyzer Demo.env) Demo.sentences4))
    with (Ok Demo.vocabulary4) by (vm_compute; reflexivity).
  reflexivity.
Defined.

Local Close Scope R_scope.

Local Open Scope R_scope.

(** C2, as the code has it.  The inverse document frequency is the
    smoothed one, [ln((1 + N) / (1 + df(t))) + 1], with [df(t)] the number
    of sentences that contain [t], between 1 and N for a vocabulary term;
    a cell before the normalisation is [tf * idf] with
    [tf = 1 + log(tf_raw)] for a term that occurs and 0 otherwise. *)
Theorem cells_are_tf_times_smooth_idf (E : Env) (sentences : list str)
        (M : matrix) (vocabulary : list str) :
  build_tfidf_matrix E sentences = Ok (M, vocabulary) ->
  M = map normalize_row (weight_matrix (map (analyzer E) sentences) vocabulary)
  /\ forall (i j : nat) (s t : str),
       nth_error sentences i = Some s ->
       nth_error vocabulary j = Some t ->
       let n := List.length sentences in
       let df_t := df t (map (analyzer E) sentences) in
       (df_t <= n)%nat
       /\ idf n df_t = ln ((1 + INR n) / (1 + INR df_t)) + 1
       /\ exists row,
            nth_error (weight_matrix (map (analyzer E) sentences) vocabulary) i
              = Some row
            /\ nth_error row j =
                 Some (Design.tf_spec (tf_raw t (analyzer E s))
                       * (ln ((1 + INR n) / (1 + INR df_t)) + 1)).
Proof.
  intros Hb. destruct (build_tfidf_matrix_inv E sentences Hb) as [_ ->].
  split; [reflexivity|].
  intros i j s t Hs Ht n df_t.
  assert (Hn : n = List.length (map (analyzer E) sentences))
    by (unfold n; now rewrite length_map).
  split; [rewrite Hn; apply df_le_docs|].
  split; [apply idf_smooth|].
  exists (weight_row (map (analyzer E) sentences) vocabulary (analyzer E s)).
  split.
  - unfold weight_matrix. now rewrite !nth_error_map, Hs.
  - unfold weight_row. rewrite nth_error_map, Ht. cbn [option_map].
    unfold weight. rewrite <- Hn. fold df_t.
    now rewrite idf_smooth, tf_matches_design.
Qed.

Lemma cells_are_tf_times_smooth_idf_witness :
  map normalize_row
      (weight_matrix (map (analyzer Demo.env) Demo.sentences4) Demo.vocabulary4)
  = map normalize_row
      (weight_matrix (map (analyzer Demo.env) Demo.sentences4) Demo.vocabulary4)
  /\ forall (i j : nat) (s t : str),
       nth_error Demo.sentences4 i = Some s ->
       nth_error Demo.vocabulary4 j = Some t ->
       let n := List.length Demo.sentences4 in
       let df_t := df t (map (analyzer Demo.env) Demo.sentences4) in
       (df_t <= n)%nat
       /\ idf n df_t = ln ((1 + INR n) / (1 + INR df_t)) + 1
       /\ exists row,
            nth_error (weight_matrix (map (analyzer Demo.env) Demo.sentences4)
                         Demo.vocabulary4) i
              = Some row
            /\ nth_error row j =
                 Some (Design.tf_spec (tf_raw t (analyzer Demo.env s))
                       * (ln ((1 + INR n) / (1 + INR df_t)) + 1)).
Proof.
  apply (cells_are_tf_times_smooth_idf Demo.env Demo.sentences4
           (vocabulary := Demo.vocabulary4)).
  unfold build_tfidf_matrix.
  replace (fit_vocabulary (map (analyzer Demo.env) Demo.sentences4))
    with (Ok Demo.vocabulary4) by (vm_compute; reflexivity).
  reflexivity.
Defined.

(** C2, as the design document states it, fails: in the four-sentence document the term
    "cats" is in 2 sentences, its fitted idf is [ln(5/3) + 1], and
    [ln(N / (1 + df)) + 1] is [ln(4/3) + 1]; the cell of "cats" in the
    first sentence, where it occurs once, is the fitted idf and not the
    unsmoothed one. *)
Lemma idf_is_not_unsmoothed :
  fit_vocabulary (map (analyzer Demo.env) Demo.sentences4) = Ok Demo.vocabulary4
  /\ nth_error Demo.vocabulary4 1 = Some (of_string "cats")
  /\ List.length Demo.sentences4 = 4%nat
  /\ df (of_string "cats") (map (analyzer Demo.env) Demo.sentences4) = 2%nat
  /\ tf_raw (of_string "cats") (analyzer Demo.env (of_string "Cats chase mice."))
     = 1%nat
  /\ idf 4 2 = ln (5 / 3) + 1
  /\ Design.idf_spec 4 2 = ln (4 / 3) + 1
  /\ idf 4 2 <> Design.idf_spec 4 2
  /\ weight (map (analyzer Demo.env) Demo.sentences4)
            (analyzer Demo.env (of_string "Cats chase mice."))
            (of_string "cats")
     <> Design.tf_spec 1 * Design.idf_spec 4 2.
Proof.
  assert (H5 : idf 4 2 = ln (5 / 3) + 1).
  { unfold idf. simpl INR. do 2 f_equal. f_equal; lra. }
  assert (H4 : Design.idf_spec 4 2 = ln (4 / 3) + 1).
  { unfold Design.idf_spec. simpl INR. do 2 f_equal. f_equal; lra. }
  assert (Hne : ln (5 / 3) <> ln (4 / 3)).
  { intros Hln. apply ln_inv in Hln; lra. }
  assert (Hdf : df (of_string "cats") (map (analyzer Demo.env) Demo.sentences4)
                = 2%nat) by (vm_compute; reflexivity).
  assert (Htf : tf_raw (of_string "cats")
                  (analyzer Demo.env (of_string "Cats chase mice.")) = 1%nat)
    by (vm_compute; reflexivity).
  split; [vm_compute; reflexivity|].
  split; [reflexivity|]. split; [reflexivity|].
  split; [exact Hdf|]. split; [exact Htf|].
  split; [exact H5|]. split; [exact H4|].
  split; [rewrite H5, H4; lra|].
  unfold weight. rewrite Htf, Hdf.
  replace (List.length (map (analyzer Demo.env) Demo.sentences4)) with 4%nat
    by reflexivity.
  rewrite H5, H4. unfold tf, Design.tf_spec.
  replace (0 <? 1)%nat with true by reflexivity.
  simpl INR. rewrite ln_1. lra.
Qed.

Local Close Scope R_scope.

(** ** Rounding to binary64 *)

Local Open Scope Z_scope.

Lemma digits2_pos_size (p : positive) : digits2_pos p = Pos.size p.
Proof. induction p; simpl; congruence. Qed.

Lemma digits2_log2 (p : positive) :
  Zpos (digits2_pos p) = Z.log2 (Zpos p) + 1.
Proof.
  rewrite digits2_pos_size. destruct p; simpl; lia.
Qed.

Lemma digits2_bounds (p : positive) :
  2 ^ (Zpos (digits2_pos p) - 1) <= Zpos p < 2 ^ Zpos (digits2_pos p).
Proof.
  rewrite digits2_log2.
  replace (Z.log2 (Zpos p) + 1 - 1) with (Z.log2 (Zpos p)) by lia.
  apply Z.log2_spec. lia.
Qed.

Lemma shr_1_m (mrs : shr_record) :
  0 <= shr_m mrs -> shr_m (shr_1 mrs) = shr_m mrs / 2.
Proof.
  destruct mrs as [m r s]. simpl. intros Hm.
  rewrite <- Z.div2_div.
  destruct m as [|p|p]; [reflexivity| |lia].
  destruct p; reflexivity.
Qed.

Lemma shr_1_nonneg (mrs : shr_record) :
  0 <= shr_m mrs -> 0 <= shr_m (shr_1 mrs).
Proof.
  intros H. rewrite shr_1_m by exact H. apply Z.div_pos; lia.
Qed.

Lemma iter_shr_1_m (n : positive) :
  forall mrs, 0 <= shr_m mrs ->
    shr_m (SpecFloat.iter_pos shr_1 n mrs) = shr_m mrs / 2 ^ Zpos n.
Proof.
  induction n as [n IH|n IH|]; intros mrs Hm; simpl SpecFloat.iter_pos.
  - assert (H1 : 0 <= shr_m (shr_1 mrs)) by now apply shr_1_nonneg.
    assert (H2 : 0 <= shr_m (SpecFloat.iter_pos shr_1 n (shr_1 mrs))).
    { rewrite IH by exact H1. apply Z.div_pos; [exact H1|]. apply Z.pow_pos_nonneg; lia. }
    rewrite IH by exact H2. rewrite IH by exact H1. rewrite shr_1_m by exact Hm.
    rewrite !Z.div_div by (try apply Z.pow_pos_nonneg; try apply Z.pow_nonzero; lia).
    f_equal. replace (Zpos n~1) with (1 + Zpos n + Zpos n) by lia.
    rewrite !Z.pow_add_r by lia. change (2 ^ 1) with 2. lia.
  - assert (H2 : 0 <= shr_m (SpecFloat.iter_pos shr_1 n mrs)).
    { rewrite IH by exact Hm. apply Z.div_pos; [exact Hm|]. apply Z.pow_pos_nonneg; lia. }
    rewrite IH by exact H2. rewrite IH by exact Hm.
    rewrite !Z.div_div by (try apply Z.pow_pos_nonneg; try apply Z.pow_nonzero; lia).
    f_equal. replace (Zpos n~0) with (Zpos n + Zpos n) by lia.
    rewrite !Z.pow_add_r by lia. lia.
  - rewrite shr_1_m by exact Hm. reflexivity.
Qed.

Lemma shr_record_of_loc_m (m : Z) (l : location) :
  shr_m (shr_record_of_loc m l) = m.
Proof. destruct l as [|[| |]]; reflexivity. Qed.

(** What [shr_fexp] returns: the mantissa shifted right by the number of
    bits that the format cannot hold, if any. *)
Lemma shr_fexp_spec (m e : Z) (l : location) :
  0 <= m ->
  let n := fexp F64.prec F64.emax (Zdigits2 m + e) - e in
  (n <= 0 /\ shr_m (fst (shr_fexp F64.prec F64.emax m e l)) = m
          /\ snd (shr_fexp F64.prec F64.emax m e l) = e)
  \/ (0 < n /\ shr_m (fst (shr_fexp F64.prec F64.emax m e l)) = m / 2 ^ n
            /\ snd (shr_fexp F64.prec F64.emax m e l) = e + n).
Proof.
  intros Hm n. unfold shr_fexp. fold n. unfold shr.
  destruct n as [|p|p] eqn:Hn.
  - left. simpl. rewrite shr_record_of_loc_m. repeat split; lia.
  - right. simpl. rewrite iter_shr_1_m by (rewrite shr_record_of_loc_m; exact Hm).
    rewrite shr_record_of_loc_m. repeat split; lia.
  - left. simpl. rewrite shr_record_of_loc_m. repeat split; lia.
Qed.

Lemma round_nearest_even_bounds (m : Z) (l : location) :
  m <= round_nearest_even m l <= m + 1.
Proof.
  destruct l as [|[| |]]; simpl; try lia.
  destruct (Z.even m); lia.
Qed.

Lemma at_least_pos (m e K : Z) : 1 <= K -> F64.at_least m e K -> 0 < m.
Proof.
  unfold F64.at_least. intros HK H.
  assert (0 < 2 ^ Z.max (- e) 0) by (apply Z.pow_pos_nonneg; lia).
  assert (0 < 2 ^ Z.max e 0) by (apply Z.pow_pos_nonneg; lia).
  nia.
Qed.

Lemma at_least_mono (m m' e K : Z) :
  m <= m' -> F64.at_least m e K -> F64.at_least m' e K.
Proof.
  unfold F64.at_least. intros Hm H.
  assert (0 < 2 ^ Z.max e 0) by (apply Z.pow_pos_nonneg; lia).
  nia.
Qed.

(** Truncation of a value that is at least [K] is at least [K]. *)
Lemma at_least_shiftl (m e K : Z) :
  0 <= m -> F64.at_least m e K -> K <= Z.shiftl m e.
Proof.
  unfold F64.at_least. intros Hm H.
  destruct (Z.le_gt_cases 0 e) as [He|He].
  - rewrite (Z.max_r (- e) 0), (Z.max_l e 0) in H by lia.
    rewrite Z.shiftl_mul_pow2 by lia. change (2 ^ 0) with 1 in H. lia.
  - rewrite (Z.max_l (- e) 0), (Z.max_r e 0) in H by lia.
    replace e with (- - e) by lia.
    rewrite Z.shiftl_opp_r, Z.shiftr_div_pow2 by lia.
    change (2 ^ 0) with 1 in H.
    apply Z.div_le_lower_bound; [apply Z.pow_pos_nonneg; lia | lia].
Qed.

Lemma fexp_normal (x : Z) : 1 <= x -> fexp F64.prec F64.emax x = x - 53.
Proof.
  intros H. unfold fexp, emin, F64.prec, F64.emax. lia.
Qed.

(** The shift that [shr_fexp] applies keeps a value above an integer of
    at most 53 bits above it. *)
Lemma shr_fexp_lower (m e K : Z) (l : location) :
  1 <= K <= 2 ^ 53 ->
  F64.at_least m e K ->
  F64.at_least (shr_m (fst (shr_fexp F64.prec F64.emax m e l)))
           (snd (shr_fexp F64.prec F64.emax m e l)) K.
Proof.
  intros HK Hge.
  pose proof (@at_least_pos m e K (proj1 HK) Hge) as Hm.
  destruct m as [|p|p]; try lia.
  destruct (@shr_fexp_spec (Zpos p) e l (Z.lt_le_incl _ _ Hm))
    as [(Hn & -> & ->)|(Hn & -> & ->)]; [exact Hge|].
  cbn [Zdigits2] in *.
  pose proof (digits2_bounds p) as Hd.
  set (d := Zpos (digits2_pos p)) in *.
  assert (Hde : 1 <= d + e).
  { unfold F64.at_least in Hge.
    destruct (Z.le_gt_cases 0 e) as [He|He]; [lia|].
    rewrite (Z.max_l (- e) 0), (Z.max_r e 0) in Hge by lia.
    change (2 ^ 0) with 1 in Hge.
    assert (2 ^ (- e) < 2 ^ d).
    { assert (0 < 2 ^ (- e)) by (apply Z.pow_pos_nonneg; lia). nia. }
    apply Z.pow_lt_mono_r_iff in H; lia. }
  rewrite (@fexp_normal _ Hde) in *.
  set (n := d + e - 53 - e) in *.
  assert (Hnd : n = d - 53) by (unfold n; lia).
  unfold F64.at_least.
  destruct (Z.le_gt_cases (e + n) 0) as [He'|He'].
  - rewrite (Z.max_l (- (e + n)) 0), (Z.max_r (e + n) 0) by lia.
    change (2 ^ 0) with 1. rewrite Z.mul_1_r.
    apply Z.div_le_lower_bound; [apply Z.pow_pos_nonneg; lia|].
    unfold F64.at_least in Hge.
    rewrite (Z.max_l (- e) 0), (Z.max_r e 0) in Hge by lia.
    change (2 ^ 0) with 1 in Hge.
    replace (- e) with (n + - (e + n)) in Hge by lia.
    rewrite Z.pow_add_r in Hge by lia. lia.
  - rewrite (Z.max_r (- (e + n)) 0), (Z.max_l (e + n) 0) by lia.
    change (2 ^ 0) with 1.
    assert (H52 : 2 ^ 52 <= Zpos p / 2 ^ n).
    { apply Z.div_le_lower_bound; [apply Z.pow_pos_nonneg; lia|].
      rewrite <- Z.pow_add_r by lia.
      replace (n + 52) with (d - 1) by lia. lia. }
    assert (H2 : 2 ^ 1 <= 2 ^ (e + n)) by (apply Z.pow_le_mono_r; lia).
    change (2 ^ 1) with 2 in H2.
    assert (2 ^ 53 = 2 ^ 52 * 2) by reflexivity.
    nia.
Qed.

(** Rounding a value that is at least [K], an integer of at most 53 bits:
    the result is a float that is at least [K], or an infinity. *)
Lemma binary_round_aux_lower (m e K : Z) (l : location) :
  1 <= K <= 2 ^ 53 ->
  F64.at_least m e K ->
  match binary_round_aux F64.prec F64.emax false m e l with
  | S754_finite false m' e' => F64.at_least (Zpos m') e' K
  | S754_infinity false => True
  | _ => False
  end.
Proof.
  intros HK Hge. unfold binary_round_aux.
  pose proof (@shr_fexp_lower m e K l HK Hge) as H1.
  destruct (shr_fexp F64.prec F64.emax m e l) as [mrs1 e1].
  cbn [fst snd] in H1.
  pose proof (round_nearest_even_bounds (shr_m mrs1) (loc_of_shr_record mrs1)) as Hr.
  assert (H2 : F64.at_least (round_nearest_even (shr_m mrs1) (loc_of_shr_record mrs1)) e1 K)
    by (eapply at_least_mono; [apply Hr | exact H1]).
  pose proof (@shr_fexp_lower _ e1 K loc_Exact HK H2) as H3.
  destruct (shr_fexp F64.prec F64.emax _ e1 loc_Exact) as [mrs2 e2].
  cbn [fst snd] in H3.
  pose proof (@at_least_pos _ _ K (proj1 HK) H3) as Hpos.
  destruct (shr_m mrs2) as [|p|p]; try lia.
  destruct (e2 <=? F64.emax - F64.prec); [exact H3 | exact I].
Qed.

Lemma binary_round_aux_sign (s : bool) (m e : Z) (l : location) :
  match binary_round_aux F64.prec F64.emax s m e l with
  | S754_zero s' | S754_infinity s' | S754_finite s' _ _ => s' = s
  | S754_nan => True
  end.
Proof.
  unfold binary_round_aux.
  destruct (shr_fexp F64.prec F64.emax m e l) as [mrs1 e1].
  destruct (shr_fexp F64.prec F64.emax _ e1 loc_Exact) as [mrs2 e2].
  destruct (shr_m mrs2); [reflexivity| |exact I].
  destruct (e2 <=? F64.emax - F64.prec); reflexivity.
Qed.

Lemma shl_align_exact (p : positive) (e e' : Z) (K : Z) :
  F64.at_least (Zpos p) e K ->
  F64.at_least (Zpos (fst (shl_align p e e'))) (snd (shl_align p e e')) K.
Proof.
  unfold shl_align. intros H.
  destruct (e' - e) as [|d|d] eqn:Hd; cbn [fst snd]; try exact H.
  change (Pos.iter xO p d) with (shift_pos d p).
  rewrite shift_pos_correct, Z.pow_pos_fold.
  unfold F64.at_least in *.
  assert (He : e = e' + Zpos d) by lia. subst e.
  assert (Hp : 0 < 2 ^ Zpos d) by (apply Z.pow_pos_nonneg; lia).
  destruct (Z.le_gt_cases 0 e') as [H0|H0].
  - rewrite (Z.max_r (- e') 0), (Z.max_l e' 0) by lia.
    rewrite (Z.max_r (- (e' + Zpos d)) 0), (Z.max_l (e' + Zpos d) 0) in H by lia.
    rewrite Z.pow_add_r in H by lia. lia.
  - rewrite (Z.max_l (- e') 0), (Z.max_r e' 0) by lia.
    change (2 ^ 0) with 1. rewrite Z.mul_1_r.
    destruct (Z.le_gt_cases 0 (e' + Zpos d)) as [H1|H1].
    + rewrite (Z.max_r (- (e' + Zpos d)) 0), (Z.max_l (e' + Zpos d) 0) in H by lia.
      change (2 ^ 0) with 1 in H.
      replace (Zpos d) with (- e' + (e' + Zpos d)) at 1 by lia.
      rewrite Z.pow_add_r by lia.
      assert (0 < 2 ^ (- e')) by (apply Z.pow_pos_nonneg; lia).
      nia.
    + rewrite (Z.max_l (- (e' + Zpos d)) 0), (Z.max_r (e' + Zpos d) 0) in H by lia.
      change (2 ^ 0) with 1 in H.
      replace (- e') with (Zpos d + - (e' + Zpos d)) by lia.
      rewrite Z.pow_add_r by lia. nia.
Qed.

(** [float(N)] is at least [N] for a positive integer of at most 53 bits
    (it is [N] itself). *)
Lemma of_int_lower (N : Z) (x : F64.float) :
  1 <= N <= 2 ^ 53 ->
  F64.of_int N = Ok x ->
  exists m e, x = S754_finite false m e /\ F64.at_least (Zpos m) e N.
Proof.
  intros HN. unfold F64.of_int, binary_normalize.
  destruct N as [|p|p]; try lia.
  unfold binary_round.
  assert (H0 : F64.at_least (Zpos p) 0 (Zpos p)) by (unfold F64.at_least; simpl; lia).
  pose proof (@shl_align_exact p 0
                (fexp F64.prec F64.emax (Zpos (digits2_pos p) + 0)) _ H0) as H1.
  destruct (shl_align p 0 _) as [mz ez]. cbn [fst snd] in H1.
  pose proof (@binary_round_aux_lower (Zpos mz) ez (Zpos p) loc_Exact HN H1) as H2.
  destruct (binary_round_aux F64.prec F64.emax false (Zpos mz) ez loc_Exact)
    as [s|s| |s m e]; try contradiction.
  - destruct s; [contradiction | discriminate].
  - destruct s; [contradiction|].
    intros H. injection H as <-. now exists m, e.
Qed.

Lemma at_least_mul (a b e1 e2 K : Z) :
  0 <= K -> 0 < b ->
  F64.at_least a e1 K -> F64.at_least b e2 1 -> F64.at_least (a * b) (e1 + e2) K.
Proof.
  unfold F64.at_least. intros HK Hb H1 H2.
  set (t := Z.max (- e1) 0 + Z.max (- e2) 0 - Z.max (- (e1 + e2)) 0).
  assert (Ht : 0 <= t) by (unfold t; lia).
  assert (Hpt : 0 < 2 ^ t) by (apply Z.pow_pos_nonneg; lia).
  apply (Z.mul_le_mono_pos_r _ _ (2 ^ t) Hpt).
  rewrite <- !Z.mul_assoc, <- !Z.pow_add_r by lia.
  replace (Z.max (- (e1 + e2)) 0 + t)
    with (Z.max (- e1) 0 + Z.max (- e2) 0) by (unfold t; lia).
  replace (Z.max (e1 + e2) 0 + t)
    with (Z.max e1 0 + Z.max e2 0) by (unfold t; lia).
  rewrite !Z.pow_add_r by lia.
  assert (0 < 2 ^ Z.max (- e1) 0) by (apply Z.pow_pos_nonneg; lia).
  assert (0 < 2 ^ Z.max (- e2) 0) by (apply Z.pow_pos_nonneg; lia).
  assert (0 < 2 ^ Z.max e1 0) by (apply Z.pow_pos_nonneg; lia).
  assert (0 < 2 ^ Z.max e2 0) by (apply Z.pow_pos_nonneg; lia).
  rewrite Z.mul_1_l in H2.
  transitivity (a * 2 ^ Z.max e1 0 * 2 ^ Z.max (- e2) 0); [nia|].
  assert (0 <= a * 2 ^ Z.max e1 0) by nia.
  nia.
Qed.

(** A float above 1.0 is a finite value of at least 1, or the positive
    infinity. *)
Lemma above_one (x : F64.float) :
  F64.valid x -> F64.ltb F64.one x = true ->
  x = S754_infinity false
  \/ exists m e, x = S754_finite false m e /\ F64.at_least (Zpos m) e 1.
Proof.
  intros Hv Hlt. unfold F64.ltb, SFltb, F64.one in Hlt.
  destruct x as [s|s| |s m e]; try discriminate.
  - destruct s; [discriminate | now left].
  - destruct s; [discriminate|]. right. exists m, e. split; [reflexivity|].
    unfold F64.valid, valid_binary, bounded, canonical_mantissa in Hv.
    apply andb_true_iff in Hv as [Hc _]. apply Z.eqb_eq in Hc.
    pose proof (digits2_bounds m) as Hd.
    unfold F64.at_least. rewrite Z.mul_1_l.
    destruct (Z.le_gt_cases 0 e) as [He|He].
    + rewrite (Z.max_r (- e) 0), (Z.max_l e 0) by lia.
      assert (0 < 2 ^ e) by (apply Z.pow_pos_nonneg; lia).
      change (2 ^ 0) with 1. nia.
    + rewrite (Z.max_l (- e) 0), (Z.max_r e 0) by lia.
      change (2 ^ 0) with 1. rewrite Z.mul_1_r.
      unfold SFcompare in Hlt.
      destruct (Z.compare (-52) e) eqn:Hcmp; try discriminate.
      * apply Z.compare_eq_iff in Hcmp. subst e.
        change (Pos.compare_cont Eq 4503599627370496 m)
          with (4503599627370496 ?= m)%positive in Hlt.
        destruct (4503599627370496 ?= m)%positive eqn:Hm; try discriminate.
        pose proof (proj1 (Pos.compare_lt_iff _ _) Hm) as Hm'.
        change (- (-52)) with 52.
        change (2 ^ 52) with 4503599627370496. lia.
      * pose proof (proj1 (Z.compare_lt_iff _ _) Hcmp) as Hlow.
        unfold fexp, emin, F64.prec, F64.emax in Hc.
        assert (Hdm : Zpos (digits2_pos m) = 53) by lia.
        rewrite Hdm in Hd.
        transitivity (2 ^ 52); [apply Z.pow_le_mono_r; lia | lia].
Qed.

(** *** The rounded quotient of two list lengths is finite *)

Lemma Zdigits2_le (m k : Z) :
  0 <= k -> 0 <= m < 2 ^ k -> Zdigits2 m <= k.
Proof.
  intros Hk [Hm Hlt]. destruct m as [|p|p]; simpl; try lia.
  pose proof (digits2_bounds p) as [Hlo _].
  assert (H : 2 ^ (Zpos (digits2_pos p) - 1) < 2 ^ k) by lia.
  apply Z.pow_lt_mono_r_iff in H; lia.
Qed.

Lemma Zdigits2_upper (m : Z) : 0 <= m -> m < 2 ^ Zdigits2 m.
Proof.
  intros Hm. destruct m as [|p|p]; simpl; try lia.
  apply digits2_bounds.
Qed.

Lemma Zdigits2_nonneg (m : Z) : 0 <= Zdigits2 m.
Proof. destruct m; simpl; lia. Qed.

(** The exponent that [shr_fexp] returns stays in range as long as the
    magnitude does. *)
Lemma shr_fexp_range (m e B : Z) (l : location) :
  0 <= m -> e <= 971 -> -1074 <= B <= 1024 -> Zdigits2 m + e <= B ->
  0 <= shr_m (fst (shr_fexp F64.prec F64.emax m e l))
  /\ snd (shr_fexp F64.prec F64.emax m e l) <= 971
  /\ Zdigits2 (shr_m (fst (shr_fexp F64.prec F64.emax m e l)))
     + snd (shr_fexp F64.prec F64.emax m e l) <= B.
Proof.
  intros Hm He HB HD.
  destruct (@shr_fexp_spec m e l Hm) as [(Hn & -> & ->)|(Hn & -> & ->)];
    [repeat split; lia|].
  set (n := fexp F64.prec F64.emax (Zdigits2 m + e) - e) in *.
  assert (Hn' : e + n = Z.max (Zdigits2 m + e - 53) (-1074))
    by (unfold n, fexp, emin, F64.prec, F64.emax; lia).
  assert (Hp : 0 < 2 ^ n) by (apply Z.pow_pos_nonneg; lia).
  split; [apply Z.div_pos; lia|]. split; [lia|].
  pose proof (Zdigits2_upper Hm) as Hup.
  pose proof (Zdigits2_nonneg m) as Hd0.
  destruct (Z.le_gt_cases n (Zdigits2 m)) as [Hle|Hgt].
  - assert (Zdigits2 (m / 2 ^ n) <= Zdigits2 m - n); [|lia].
    apply Zdigits2_le; [lia|]. split; [apply Z.div_pos; lia|].
    apply Z.div_lt_upper_bound; [exact Hp|].
    rewrite <- Z.pow_add_r by lia.
    now replace (n + (Zdigits2 m - n)) with (Zdigits2 m) by lia.
  - assert (Hlt : m < 2 ^ n).
    { eapply Z.lt_le_trans; [exact Hup|]. apply Z.pow_le_mono_r; lia. }
    rewrite Z.div_small by lia. simpl Zdigits2. lia.
Qed.

Lemma binary_round_aux_finite (s : bool) (m e : Z) (l : location) :
  0 <= m -> e <= 971 -> Zdigits2 m + e <= 1023 ->
  match binary_round_aux F64.prec F64.emax s m e l with
  | S754_infinity _ => False
  | _ => True
  end.
Proof.
  intros Hm He HD. unfold binary_round_aux.
  pose proof (@shr_fexp_range m e 1023 l Hm He ltac:(lia) HD) as (H0 & H1 & H2).
  destruct (shr_fexp F64.prec F64.emax m e l) as [mrs1 e1].
  cbn [fst snd] in *.
  pose proof (round_nearest_even_bounds (shr_m mrs1) (loc_of_shr_record mrs1)) as Hr.
  set (m2 := round_nearest_even (shr_m mrs1) (loc_of_shr_record mrs1)) in *.
  assert (Hd2 : Zdigits2 m2 <= Zdigits2 (shr_m mrs1) + 1).
  { pose proof (Zdigits2_nonneg (shr_m mrs1)).
    apply Zdigits2_le; [lia|]. split; [lia|].
    pose proof (Zdigits2_upper H0) as Hup.
    rewrite Z.pow_add_r by lia. change (2 ^ 1) with 2. lia. }
  pose proof (@shr_fexp_range m2 e1 1024 loc_Exact ltac:(lia) H1 ltac:(lia)
                ltac:(lia)) as (_ & H3 & _).
  destruct (shr_fexp F64.prec F64.emax m2 e1 loc_Exact) as [mrs2 e2].
  cbn [fst snd] in *.
  destruct (shr_m mrs2); try exact I.
  unfold F64.emax, F64.prec.
  destruct (e2 <=? 1024 - 53) eqn:Hle; [exact I|].
  apply Z.leb_gt in Hle. lia.
Qed.

(** [a / b] does not overflow when [0 <= a <= b] and [b > 0]. *)
Lemma truediv_returns (a b : Z) :
  0 <= a <= b -> 0 < b -> exists q, F64.truediv a b = Ok q.
Proof.
  intros Ha Hb. unfold F64.truediv.
  destruct (b =? 0) eqn:Hb0; [apply Z.eqb_eq in Hb0; lia|].
  destruct b as [|pb|pb]; try lia.
  destruct a as [|pa|pa]; try lia.
  - simpl. eauto.
  - unfold F64.div, F64.exact_of_int, SFdiv.
    destruct (SFdiv_core_binary F64.prec F64.emax (Zpos pa) 0 (Zpos pb) 0)
      as [[mz ez] lz] eqn:Hcore.
    assert (Hq : 0 <= mz /\ ez <= 0 /\ Zdigits2 mz + ez <= 1).
    { unfold SFdiv_core_binary in Hcore.
      set (e' := Z.min (fexp F64.prec F64.emax
                          (Zdigits2 (Zpos pa) + 0 - (Zdigits2 (Zpos pb) + 0)))
                       (0 - 0)) in *.
      assert (He' : e' <= 0) by (unfold e'; lia).
      set (m' := match 0 - 0 - e' with
                 | Z0 => Zpos pa
                 | Zpos _ => Z.shiftl (Zpos pa) (0 - 0 - e')
                 | Zneg _ => 0
                 end) in *.
      assert (Hm' : m' = Zpos pa * 2 ^ (- e')).
      { unfold m'. destruct (0 - 0 - e') as [|p|p] eqn:Hs; try lia.
        - replace (- e') with 0 by lia. simpl. lia.
        - rewrite Z.shiftl_mul_pow2 by lia. f_equal. f_equal. lia. }
      pose proof (Z_div_mod m' (Zpos pb) ltac:(reflexivity)) as Hdm.
      destruct (Z.div_eucl m' (Zpos pb)) as [q r].
      injection Hcore as <- <- _.
      assert (Hp : 0 < 2 ^ (- e')) by (apply Z.pow_pos_nonneg; lia).
      assert (Hq0 : 0 <= q) by nia.
      assert (Hqle : q <= 2 ^ (- e')) by nia.
      split; [exact Hq0|]. split; [exact He'|].
      assert (Zdigits2 q <= - e' + 1); [|lia].
      apply Zdigits2_le; [lia|]. split; [exact Hq0|].
      rewrite Z.pow_add_r by lia. change (2 ^ 1) with 2. lia. }
    destruct Hq as (Hq0 & Hez & Hd).
    pose proof (@binary_round_aux_finite (xorb false false) mz ez lz Hq0
                  ltac:(lia) ltac:(lia)) as Hfin.
    destruct (binary_round_aux F64.prec F64.emax (xorb false false) mz ez lz);
      try contradiction; eauto.
Qed.

(** *** The group count at the two ends *)

Lemma of_int_sign (N : Z) (x : F64.float) :
  0 < N -> F64.of_int N = Ok x ->
  match x with
  | S754_zero s | S754_finite s _ _ => s = false
  | S754_infinity _ => False
  | S754_nan => True
  end.
Proof.
  intros HN. unfold F64.of_int, binary_normalize.
  destruct N as [|p|p]; try lia. unfold binary_round.
  destruct (shl_align p 0 _) as [mz ez].
  pose proof (binary_round_aux_sign false (Zpos mz) ez loc_Exact) as Hs.
  destruct (binary_round_aux F64.prec F64.emax false (Zpos mz) ez loc_Exact);
    intros H; try discriminate; injection H as <-; exact Hs.
Qed.

(** With a ratio that is zero or negative the count is 1. *)
Lemma derive_n_clusters_below (N : Z) (ratio product : F64.float) :
  1 <= N ->
  F64.leb ratio F64.zero = true ->
  F64.int_mul N ratio = Ok product ->
  F64.is_finite product = true ->
  derive_n_clusters N ratio = Ok 1.
Proof.
  intros HN Hle Hmul Hfin. unfold derive_n_clusters. rewrite Hmul.
  cbn [bind]. unfold F64.int_mul in Hmul.
  destruct (F64.of_int N) as [fn|ex] eqn:Hfn; [|discriminate].
  cbn [bind] in Hmul. injection Hmul as <-.
  pose proof (@of_int_sign N fn ltac:(lia) Hfn) as Hs.
  assert (Ht : exists t, F64.to_int (F64.mul fn ratio) = Ok t /\ t <= 0).
  { unfold F64.leb, SFleb, F64.zero in Hle. unfold F64.mul in *.
    destruct ratio as [sr|sr| |sr mr er]; try discriminate.
    - destruct fn as [sf|sf| |sf mf ef]; try contradiction; try discriminate;
        simpl; exists 0; split; (reflexivity || lia).
    - destruct sr; [|discriminate].
      destruct fn as [sf|sf| |sf mf ef]; try contradiction; discriminate.
    - destruct sr; [|discriminate].
      destruct fn as [sf|sf| |sf mf ef]; try contradiction; try discriminate.
      + simpl. exists 0. split; [reflexivity | lia].
      + subst sf. cbn [SFmul xorb] in *.
        pose proof (binary_round_aux_sign true (Zpos (mf * mr)) (ef + er) loc_Exact)
          as Hsign.
        destruct (binary_round_aux F64.prec F64.emax true (Zpos (mf * mr))
                    (ef + er) loc_Exact) as [s|s| |s m e]; try discriminate.
        * exists 0. split; [reflexivity | lia].
        * subst s. cbn [F64.to_int cond_Zopp]. eexists. split; [reflexivity|].
          assert (0 <= Z.shiftl (Zpos m) e) by (apply Z.shiftl_nonneg; lia).
          lia. }
  destruct Ht as (t & -> & Ht). cbn [bind]. f_equal. lia.
Qed.

(** With a ratio above 1 the count is the number of sentences. *)
Lemma derive_n_clusters_above (N : Z) (ratio product : F64.float) :
  1 <= N <= 2 ^ 53 ->
  F64.valid ratio ->
  F64.ltb F64.one ratio = true ->
  F64.int_mul N ratio = Ok product ->
  F64.is_finite product = true ->
  derive_n_clusters N ratio = Ok N.
Proof.
  intros HN Hv Hgt Hmul Hfin. unfold derive_n_clusters. rewrite Hmul.
  cbn [bind]. unfold F64.int_mul in Hmul.
  destruct (F64.of_int N) as [fn|ex] eqn:Hfn; [|discriminate].
  cbn [bind] in Hmul. injection Hmul as <-.
  destruct (@of_int_lower N fn HN Hfn) as (mf & ef & -> & Hf).
  assert (Ht : exists t, F64.to_int (F64.mul (S754_finite false mf ef) ratio) = Ok t
                         /\ N <= t).
  { destruct (@above_one ratio Hv Hgt) as [->|(mr & er & -> & Hr)];
      [discriminate|].
    unfold F64.mul in *. cbn [SFmul xorb] in *.
    assert (Hp : F64.at_least (Zpos (mf * mr)) (ef + er) N).
    { rewrite Pos2Z.inj_mul. apply at_least_mul; try assumption; lia. }
    pose proof (@binary_round_aux_lower _ _ N loc_Exact HN Hp) as Hlow.
    destruct (binary_round_aux F64.prec F64.emax false (Zpos (mf * mr))
                (ef + er) loc_Exact) as [s|s| |s m e];
      try contradiction; try discriminate.
    destruct s; [contradiction|].
    cbn [F64.to_int cond_Zopp]. eexists. split; [reflexivity|].
    apply at_least_shiftl; [lia | exact Hlow]. }
  destruct Ht as (t & -> & Ht). cbn [bind]. f_equal. lia.
Qed.

(** The pipeline returns a result as soon as the Vectorizer accepts the
    sentences and the Grouper returns its labels. *)
Lemma run_pipeline_returns (E : Env) (sentences : list str) (k : Z)
      (M : matrix) (vocabulary : list str) (labels : list Z) :
  sentences <> [] ->
  build_tfidf_matrix E sentences = Ok (M, vocabulary) ->
  cluster_sentences E M k = Ok labels ->
  exists r, run_pipeline E sentences k = Ok r
            /\ original_sentence_count r = len sentences
            /\ summary r = join [space] (representatives sentences M labels)
            /\ summary_sentence_count r = len (representatives sentences M labels).
Proof.
  intros Hne Hb Hc. unfold run_pipeline. rewrite Hb. cbn [bind]. rewrite Hc.
  cbn [bind].
  destruct (@select_in_document_order R Rltb sentences labels
              (get_sentence_scores M)) as (positions & _ & _ & Hle).
  fold (representatives sentences M labels) in Hle.
  destruct (@truediv_returns (len (representatives sentences M labels))
              (len sentences)) as [q Hq].
  - unfold len. lia.
  - unfold len. destruct sentences; [congruence | simpl; lia].
  - rewrite Hq. cbn [bind]. eexists. split; [reflexivity|].
    cbn. repeat split; reflexivity.
Qed.

(** C7, as the code has it.  With at least three sentences (at most 2^53)
    and a ratio that is at most 0 or above 1, as long as the float product
    [N * ratio] is finite: the group count is 1 for a ratio at most 0 and N
    for a ratio above 1, no exception comes from the ratio, and the call
    returns a result whenever the Vectorizer accepts the sentences and the
    Grouper meets its contract. *)
Theorem out_of_range_ratio_is_clamped (E : Env) (w : world) (text : str)
        (ratio : F64.float) (cleaned : str) (sentences : list str)
        (product : F64.float) :
  forallb isspace text = false ->
  fst (preprocess_text E w text) = Ok (cleaned, sentences) ->
  3 <= len sentences <= 2 ^ 53 ->
  F64.valid ratio ->
  F64.leb ratio F64.zero = true \/ F64.ltb F64.one ratio = true ->
  F64.int_mul (len sentences) ratio = Ok product ->
  F64.is_finite product = true ->
  derive_n_clusters (len sentences) ratio =
    Ok (if F64.leb ratio F64.zero then 1 else len sentences)
  /\ fst (summarize E w text ratio) =
       run_pipeline E sentences
         (if F64.leb ratio F64.zero then 1 else len sentences)
  /\ (Grouper_contract E ->
      forall (M : matrix) (vocabulary : list str),
        build_tfidf_matrix E sentences = Ok (M, vocabulary) ->
        exists r, fst (summarize E w text ratio) = Ok r
                  /\ original_sentence_count r = len sentences
                  /\ 0 <= summary_sentence_count r <= len sentences).
Proof.
  intros Hb Hp Hlen Hv Hout Hmul Hfin.
  assert (Hk : derive_n_clusters (len sentences) ratio =
               Ok (if F64.leb ratio F64.zero then 1 else len sentences)).
  { destruct (F64.leb ratio F64.zero) eqn:Hle.
    - apply (@derive_n_clusters_below _ _ product); try assumption; lia.
    - destruct Hout as [Habs|Hgt]; [discriminate|].
      apply (@derive_n_clusters_above _ _ product); try assumption; lia. }
  assert (Hs : fst (summarize E w text ratio) =
               run_pipeline E sentences
                 (if F64.leb ratio F64.zero then 1 else len sentences)).
  { rewrite (summarize_not_blank E w text ratio Hb Hp).
    destruct (len sentences <=? 2) eqn:H2; [apply Z.leb_le in H2; lia|].
    rewrite Hk. reflexivity. }
  split; [exact Hk|]. split; [exact Hs|].
  intros Hg M vocabulary Hbuild.
  set (k := if F64.leb ratio F64.zero then 1 else len sentences) in *.
  assert (HM : len M = len sentences).
  { destruct (build_tfidf_matrix_inv E sentences Hbuild) as [_ ->].
    unfold len, weight_matrix. now rewrite !length_map. }
  destruct (Hg M k) as (labels & Hc & _).
  { rewrite HM. unfold k. destruct (F64.leb ratio F64.zero); lia. }
  destruct (@run_pipeline_returns E sentences k M vocabulary labels)
    as (r & Hr & Ho & _ & Hcount); try assumption.
  { intros ->. unfold len in Hlen. simpl in Hlen. lia. }
  exists r. rewrite Hs, Hr. split; [reflexivity|]. split; [exact Ho|].
  rewrite Hcount.
  destruct (@select_in_document_order R Rltb sentences labels
              (get_sentence_scores M)) as (positions & _ & _ & Hle).
  fold (representatives sentences M labels) in Hle.
  unfold len. lia.
Qed.

(** The Grouper of the example environment meets the contract. *)
Lemma round_robin_contract : Grouper_contract Demo.env.
Proof.
  intros M k Hk. exists (map (fun i => Z.of_nat i mod k) (seq 0 (List.length M))).
  split; [reflexivity|]. split.
  - now rewrite length_map, length_seq.
  - rewrite Forall_map, Forall_forall. intros i _.
    apply Z.mod_pos_bound. lia.
Qed.

Lemma out_of_range_ratio_is_clamped_witness :
  derive_n_clusters (len Demo.sentences4) Demo.ratio_2 =
    Ok (if F64.leb Demo.ratio_2 F64.zero then 1 else len Demo.sentences4)
  /\ fst (summarize Demo.env Demo.fresh Demo.four_sentences Demo.ratio_2) =
       run_pipeline Demo.env Demo.sentences4
         (if F64.leb Demo.ratio_2 F64.zero then 1 else len Demo.sentences4)
  /\ (Grouper_contract Demo.env ->
      forall (M : matrix) (vocabulary : list str),
        build_tfidf_matrix Demo.env Demo.sentences4 = Ok (M, vocabulary) ->
        exists r,
          fst (summarize Demo.env Demo.fresh Demo.four_sentences Demo.ratio_2) = Ok r
          /\ original_sentence_count r = len Demo.sentences4
          /\ 0 <= summary_sentence_count r <= len Demo.sentences4).
Proof.
  apply (@out_of_range_ratio_is_clamped Demo.env Demo.fresh Demo.four_sentences
           Demo.ratio_2 (clean_text Demo.four_sentences) Demo.sentences4
           (S754_finite false 4503599627370496 (-49))).
  - reflexivity.
  - vm_compute. reflexivity.
  - unfold len. simpl. lia.
  - reflexivity.
  - right. reflexivity.
  - vm_compute. reflexivity.
  - reflexivity.
Defined.

(** C7, as the design document states it, fails: the largest finite float is a ratio
    above 1; with four sentences the product [4 * ratio] overflows to an
    infinity and [int] raises [OverflowError], so the call fails. *)
Lemma huge_ratio_raises :
  F64.valid Demo.ratio_huge
  /\ F64.ltb F64.one Demo.ratio_huge = true
  /\ fst (preprocess_text Demo.env Demo.fresh Demo.four_sentences)
     = Ok (clean_text Demo.four_sentences, Demo.sentences4)
  /\ len Demo.sentences4 = 4
  /\ F64.int_mul 4 Demo.ratio_huge = Ok (S754_infinity false)
  /\ fst (summarize Demo.env Demo.fresh Demo.four_sentences Demo.ratio_huge)
     = Raise OverflowError.
Proof.
  split; [reflexivity|]. split; [reflexivity|].
  split; [vm_compute; reflexivity|]. split; [reflexivity|].
  split; [vm_compute; reflexivity|].
  rewrite (@summarize_not_blank Demo.env Demo.fresh Demo.four_sentences
             Demo.ratio_huge (clean_text Demo.four_sentences) Demo.sentences4);
    [|reflexivity | vm_compute; reflexivity].
  reflexivity.
Qed.

(** The outcome of the pipeline, when it has one, is built from the
    sentences that the Selector returns. *)
Lemma run_pipeline_result (E : Env) (sentences : list str) (k : Z) (r : result) :
  run_pipeline E sentences k = Ok r ->
  exists tfidf_matrix vocabulary labels,
    build_tfidf_matrix E sentences = Ok (tfidf_matrix, vocabulary)
    /\ cluster_sentences E tfidf_matrix k = Ok labels
    /\ summary r = join [space] (representatives sentences tfidf_matrix labels)
    /\ summary_sentence_count r = len (representatives sentences tfidf_matrix labels)
    /\ original_sentence_count r = len sentences.
Proof.
  unfold run_pipeline.
  destruct (build_tfidf_matrix E sentences) as [[M v]|e] eqn:Hb; simpl;
    [|discriminate].
  destruct (cluster_sentences E M k) as [labels|e] eqn:Hc; simpl;
    [|discriminate].
  destruct (F64.truediv _ _) as [q|e]; simpl; [|discriminate].
  intros H. injection H as <-. exists M, v, labels. simpl.
  repeat split; try reflexivity. exact Hc.
Qed.

(** C8.  In the normal regime the summary is the join of sentences of the
    document, each taken at its own position, the positions strictly
    increasing, and there are at most N of them.  This holds for every
    Grouper and every analyzer, hence for all labels and scores; and the
    summary is there as soon as the group count is derived, the
    Vectorizer accepts the sentences and the Grouper returns labels. *)
Theorem summary_in_document_order (E : Env) (w : world) (text : str)
        (ratio : F64.float) (cleaned : str) (sentences : list str) :
  forallb isspace text = false ->
  fst (preprocess_text E w text) = Ok (cleaned, sentences) ->
  3 <= len sentences ->
  (forall r : result,
      fst (summarize E w text ratio) = Ok r ->
      exists chosen : list str,
        in_document_order sentences chosen
        /\ summary r = join [space] chosen
        /\ summary_sentence_count r = len chosen
        /\ len chosen <= len sentences)
  /\ (forall (k : Z) (M : matrix) (vocabulary : list str) (labels : list Z),
        derive_n_clusters (len sentences) ratio = Ok k ->
        build_tfidf_matrix E sentences = Ok (M, vocabulary) ->
        cluster_sentences E M k = Ok labels ->
        exists r : result,
          fst (summarize E w text ratio) = Ok r
          /\ summary r =
               join [space]
                 (select_representative_sentences Rltb sentences labels
                    (get_sentence_scores M))
          /\ in_document_order sentences
               (select_representative_sentences Rltb sentences labels
                  (get_sentence_scores M))).
Proof.
  intros Hb Hp Hlen.
  rewrite (summarize_not_blank E w text ratio Hb Hp).
  destruct (len sentences <=? 2) eqn:H2; [apply Z.leb_le in H2; lia|].
  split.
  - intros r Hr.
    destruct (derive_n_clusters (len sentences) ratio) as [k|e];
      [|discriminate].
    cbn [bind] in Hr.
    destruct (run_pipeline_result E sentences k Hr)
      as (M & v & labels & _ & _ & Hsum & Hcount & _).
    exists (representatives sentences M labels).
    pose proof (select_in_document_order Rltb sentences labels
                  (get_sentence_scores M)) as Hord.
    fold (representatives sentences M labels) in Hord.
    repeat split; try assumption.
    destruct Hord as (positions & _ & _ & Hle). unfold len. lia.
  - intros k M v labels Hk Hbuild Hc. rewrite Hk. cbn [bind].
    destruct (@run_pipeline_returns E sentences k M v labels)
      as (r & Hr & _ & Hsum & _); try assumption.
    { intros ->. unfold len in Hlen. simpl in Hlen. lia. }
    exists r. split; [exact Hr|]. split; [exact Hsum|].
    apply select_in_document_order.
Qed.

Lemma summary_in_document_order_witness :
  (forall r : result,
      fst (summarize Demo.env Demo.fresh Demo.four_sentences default_ratio) = Ok r ->
      exists chosen : list str,
        in_document_order Demo.sentences4 chosen
        /\ summary r = join [space] chosen
        /\ summary_sentence_count r = len chosen
        /\ len chosen <= len Demo.sentences4)
  /\ (forall (k : Z) (M : matrix) (vocabulary : list str) (labels : list Z),
        derive_n_clusters (len Demo.sentences4) default_ratio = Ok k ->
        build_tfidf_matrix Demo.env Demo.sentences4 = Ok (M, vocabulary) ->
        cluster_sentences Demo.env M k = Ok labels ->
        exists r : result,
          fst (summarize Demo.env Demo.fresh Demo.four_sentences default_ratio)
            = Ok r
          /\ summary r =
               join [space]
                 (select_representative_sentences Rltb Demo.sentences4 labels
                    (get_sentence_scores M))
          /\ in_document_order Demo.sentences4
               (select_representative_sentences Rltb Demo.sentences4 labels
                  (get_sentence_scores M))).
Proof.
  apply (@summary_in_document_order Demo.env Demo.fresh Demo.four_sentences
           default_ratio (clean_text Demo.four_sentences) Demo.sentences4).
  - reflexivity.
  - vm_compute. reflexivity.
  - unfold len. simpl. lia.
Defined.

(** ** Worked examples *)

(** The float literals are the binary64 values nearest to their decimals. *)
Example literals_are_nearest :
  F64.div (F64.exact_of_int 95) (F64.exact_of_int 100) = F64.lit_0_95
  /\ F64.div (F64.exact_of_int 3) (F64.exact_of_int 10) = F64.lit_0_3
  /\ F64.of_int 1 = Ok F64.one
  /\ F64.valid F64.lit_0_95 /\ F64.valid F64.lit_0_3 /\ F64.valid F64.one.
Proof. repeat split; vm_compute; reflexivity. Qed.

(** [round(1 / 3, 2)] is the float 0.33 and [round(1 / 8, 2)] is 0.12, the
    tie going to the even digit. *)
Example round2_examples :
  bind (F64.truediv 1 3) (fun q => Ok (F64.round2 q))
    = Ok (F64.div (F64.exact_of_int 33) (F64.exact_of_int 100))
  /\ bind (F64.truediv 1 8) (fun q => Ok (F64.round2 q))
    = Ok (F64.div (F64.exact_of_int 12) (F64.exact_of_int 100)).
Proof. split; vm_compute; reflexivity. Qed.

(** Ten sentences at the default ratio: [10 * 0.3] is the float 3.0. *)
Example ten_sentences_default_ratio :
  derive_n_clusters 10 default_ratio = Ok 3.
Proof. vm_compute. reflexivity. Qed.

(** A negative ratio gives one group. *)
Example four_sentences_negative_ratio :
  derive_n_clusters 4 Demo.ratio_minus_1 = Ok 1.
Proof. vm_compute. reflexivity. Qed.

(** The Selector on integer scores: groups 1, 0 and 2 are occupied, the
    tie in group 1 goes to the earlier sentence, and the output follows
    the document. *)
Example selector_example :
  select_representative_sentences Z.ltb
    [of_string "a"; of_string "b"; of_string "c"; of_string "d"; of_string "e"]
    [1; 0; 1; 0; 2] [5; 7; 5; 9; 0]
  = [of_string "a"; of_string "d"; of_string "e"].
Proof. vm_compute. reflexivity. Qed.


(* ================================================================== *)
(** * Further properties of the embedded code *)
(* ================================================================== *)

Import Shape.

(** ** Cleaning *)

Lemma lstrip_split (s : str) :
  exists ws, s = ws ++ lstrip s /\ forallb isspace ws = true.
Proof.
  induction s as [|c s (ws & Hs & Hws)]; simpl.
  - now exists [].
  - destruct (isspace c) eqn:Hc.
    + exists (c :: ws). simpl. rewrite Hc, Hws. split; [congruence | reflexivity].
    + now exists [].
Qed.

Lemma forallb_isspace_rev (s : str) :
  forallb isspace s = true -> forallb isspace (rev s) = true.
Proof.
  rewrite !forallb_forall. intros H c Hc. apply H. now apply in_rev.
Qed.

Lemma rstrip_split (s : str) :
  exists ws, s = rstrip s ++ ws /\ forallb isspace ws = true.
Proof.
  unfold rstrip. destruct (lstrip_split (rev s)) as (ws & Hs & Hws).
  exists (rev ws). split; [|now apply forallb_isspace_rev].
  rewrite <- rev_app_distr, <- Hs. now rewrite rev_involutive.
Qed.

Lemma lstrip_fixed (c : codepoint) (s : str) :
  isspace c = false -> lstrip (c :: s) = c :: s.
Proof. intros H. simpl. now rewrite H. Qed.

Lemma rstrip_head (s : str) (c : codepoint) (t : str) :
  rstrip s = c :: t -> exists t', s = c :: t'.
Proof.
  intros H. destruct (rstrip_split s) as (ws & Hs & _).
  rewrite H in Hs. simpl in Hs. eauto.
Qed.

Lemma rstrip_last (s : str) (d : codepoint) :
  rstrip s <> [] -> isspace (last (rstrip s) d) = false.
Proof.
  unfold rstrip. intros Hne.
  pose proof (lstrip_head (rev s)) as Hh.
  destruct (lstrip (rev s)) as [|c z]; [now contradiction Hne|].
  simpl rev. now rewrite last_last.
Qed.

(** [strip] leaves a text that neither begins nor ends with whitespace. *)
Lemma strip_trimmed (s : str) : trimmed (strip s).
Proof.
  unfold trimmed, strip.
  destruct (rstrip (lstrip s)) as [|c t] eqn:Hr; [exact I|].
  split.
  - destruct (rstrip_head _ Hr) as [t' Ht'].
    pose proof (lstrip_head s) as Hh. now rewrite Ht' in Hh.
  - rewrite <- Hr. apply rstrip_last. rewrite Hr. discriminate.
Qed.

Lemma rstrip_fixed (s : str) (c : codepoint) :
  isspace (last (c :: s) c) = false -> rstrip (c :: s) = c :: s.
Proof.
  intros H. unfold rstrip.
  assert (Hrev : exists d z, rev (c :: s) = d :: z /\ d = last (c :: s) c).
  { destruct (exists_last (l := c :: s) ltac:(discriminate)) as (p & d & Hp).
    rewrite Hp, rev_app_distr, last_last. simpl. eauto. }
  destruct Hrev as (d & z & Hz & Hd). rewrite Hz.
  rewrite lstrip_fixed by (now rewrite Hd).
  rewrite <- Hz. apply rev_involutive.
Qed.

(** [strip] does nothing to such a text. *)
Lemma strip_fixed (s : str) : trimmed s -> strip s = s.
Proof.
  destruct s as [|c s]; [reflexivity|]. intros [Hh Hl].
  unfold strip. rewrite lstrip_fixed by exact Hh. now apply rstrip_fixed.
Qed.

Lemma sub_ws_from_collapsed (s : str) :
  forall b, collapsed b (sub_ws_from b s) = true.
Proof.
  induction s as [|c s IH]; intros b; simpl; [reflexivity|].
  destruct (isspace c) eqn:Hc.
  - destruct b; [apply IH|].
    simpl. apply IH.
  - simpl. rewrite Hc. apply IH.
Qed.

Lemma sub_ws_from_fixed (s : str) :
  forall b, collapsed b s = true -> sub_ws_from b s = s.
Proof.
  induction s as [|c s IH]; intros b; simpl; [reflexivity|].
  destruct (isspace c) eqn:Hc.
  - intros H. apply andb_true_iff in H as [H Hs].
    apply andb_true_iff in H as [Hsp Hb].
    apply N.eqb_eq in Hsp. destruct b; [discriminate|].
    rewrite (IH true Hs). now subst c.
  - intros H. now rewrite (IH false H).
Qed.

Lemma collapsed_prefix (p t : str) :
  forall b, collapsed b (p ++ t) = true -> collapsed b p = true.
Proof.
  induction p as [|c p IH]; intros b; simpl; [reflexivity|].
  destruct (isspace c).
  - intros H. apply andb_true_iff in H as [H Hs]. rewrite H. now apply IH.
  - apply IH.
Qed.

Lemma collapsed_lstrip (s : str) :
  forall b b', collapsed b s = true -> collapsed b' (lstrip s) = true.
Proof.
  induction s as [|c s IH]; intros b b'; simpl; [reflexivity|].
  destruct (isspace c) eqn:Hc.
  - intros H. apply andb_true_iff in H as [_ Hs]. now apply (IH true).
  - intros H. simpl. now rewrite Hc.
Qed.

Lemma collapsed_strip (s : str) (b : bool) :
  collapsed b s = true -> collapsed false (strip s) = true.
Proof.
  intros H. unfold strip.
  destruct (rstrip_split (lstrip s)) as (ws & Hs & _).
  apply (collapsed_prefix (rstrip (lstrip s)) ws).
  rewrite <- Hs. now apply (collapsed_lstrip s b).
Qed.

Lemma ink_app (a b : str) : ink (a ++ b) = ink a ++ ink b.
Proof. apply filter_app. Qed.

Lemma ink_blank (s : str) : forallb isspace s = true <-> ink s = [].
Proof.
  unfold ink. induction s as [|c s IH]; simpl; [tauto|].
  destruct (isspace c); simpl; [exact IH|].
  split; discriminate.
Qed.

Lemma ink_sub_ws_from (s : str) : forall b, ink (sub_ws_from b s) = ink s.
Proof.
  unfold ink. induction s as [|c s IH]; intros b; simpl; [reflexivity|].
  destruct (isspace c) eqn:Hc; simpl.
  - destruct b; [apply IH|]. simpl. apply IH.
  - rewrite Hc. simpl. now rewrite IH.
Qed.

Lemma ink_strip (s : str) : ink (strip s) = ink s.
Proof.
  unfold strip.
  destruct (lstrip_split s) as (ws1 & H1 & Hw1).
  destruct (rstrip_split (lstrip s)) as (ws2 & H2 & Hw2).
  rewrite H1 at 2. rewrite H2 at 2. rewrite !ink_app.
  apply ink_blank in Hw1, Hw2. rewrite Hw1, Hw2.
  now rewrite app_nil_r.
Qed.

Lemma clean_text_ink (text : str) : ink (clean_text text) = ink text.
Proof.
  unfold clean_text. destruct text as [|c t]; [reflexivity|].
  cbn [truthy negb]. rewrite ink_strip. apply ink_sub_ws_from.
Qed.

Lemma clean_text_trimmed (text : str) : trimmed (clean_text text).
Proof.
  unfold clean_text. destruct text as [|c t]; [exact I|].
  cbn [truthy negb]. apply strip_trimmed.
Qed.

Lemma clean_text_collapsed (text : str) :
  collapsed false (clean_text text) = true.
Proof.
  unfold clean_text. destruct text as [|c t]; [reflexivity|].
  cbn [truthy negb]. apply (collapsed_strip _ false).
  apply sub_ws_from_collapsed.
Qed.

(** A text in normal form is left as it is. *)
Lemma clean_text_fixed (s : str) :
  trimmed s -> collapsed false s = true -> clean_text s = s.
Proof.
  intros Ht Hc. unfold clean_text. destruct s as [|c s]; [reflexivity|].
  cbn [truthy negb]. unfold sub_ws. rewrite (sub_ws_from_fixed _ false Hc).
  now apply strip_fixed.
Qed.

Lemma clean_text_blank (text : str) :
  clean_text text = [] <-> forallb isspace text = true.
Proof.
  rewrite ink_blank, <- clean_text_ink. split.
  - intros ->. reflexivity.
  - intros Hink. pose proof (clean_text_trimmed text) as Ht.
    destruct (clean_text text) as [|c s]; [reflexivity|].
    destruct Ht as [Hc _]. unfold ink in Hink. simpl in Hink.
    rewrite Hc in Hink. discriminate.
Qed.

Lemma sub_ws_from_length (s : str) :
  forall b, (List.length (sub_ws_from b s) <= List.length s)%nat.
Proof.
  induction s as [|c s IH]; intros b; simpl; [lia|].
  destruct (isspace c).
  - destruct b; simpl; [specialize (IH true) | specialize (IH true)]; lia.
  - simpl. specialize (IH false). lia.
Qed.

Lemma strip_length (s : str) : (List.length (strip s) <= List.length s)%nat.
Proof.
  unfold strip.
  destruct (lstrip_split s) as (ws1 & H1 & _).
  destruct (rstrip_split (lstrip s)) as (ws2 & H2 & _).
  rewrite H1 at 2. rewrite H2 at 2. rewrite !length_app. lia.
Qed.

(** Summarizing depends on the text through its blankness and its cleaned
    form only. *)
Lemma summarize_congruence (E : Env) (w : world) (text1 text2 : str)
      (ratio : F64.float) :
  clean_text text1 = clean_text text2 ->
  summarize E w text1 ratio = summarize E w text2 ratio.
Proof.
  intros Hc.
  assert (Hb : is_blank text1 = is_blank text2).
  { rewrite !is_blank_spec.
    pose proof (clean_text_blank text1) as H1.
    pose proof (clean_text_blank text2) as H2.
    rewrite Hc in H1.
    destruct (forallb isspace text1), (forallb isspace text2);
      try reflexivity.
    - symmetry. apply H2, H1. reflexivity.
    - apply H1, H2. reflexivity. }
  unfold summarize, preprocess_text. now rewrite Hb, Hc.
Qed.

(** X1.  [clean_text] keeps the characters that are not whitespace, all of
    them and in their order (cleaning only changes the whitespace), and
    the cleaned text is never longer than the text. *)
Theorem clean_text_keeps_ink (text : str) :
  ink (clean_text text) = ink text
  /\ (List.length (clean_text text) <= List.length text)%nat.
Proof.
  split; [apply clean_text_ink|].
  unfold clean_text. destruct text as [|c t]; [simpl; lia|].
  cbn [truthy negb].
  pose proof (strip_length (sub_ws (c :: t))) as H1.
  pose proof (sub_ws_from_length (c :: t) false) as H2.
  unfold sub_ws in *. lia.
Qed.

(** X2.  The cleaned text is in normal form: it neither begins nor ends
    with whitespace, its only whitespace characters are single spaces, and
    no two of them are adjacent. *)
Theorem clean_text_normal_form (text : str) :
  trimmed (clean_text text) /\ collapsed false (clean_text text) = true.
Proof.
  split; [apply clean_text_trimmed | apply clean_text_collapsed].
Qed.

(** X3.  [clean_text] is idempotent: cleaning a cleaned text changes
    nothing. *)
Theorem clean_text_idempotent (text : str) :
  clean_text (clean_text text) = clean_text text.
Proof.
  apply clean_text_fixed.
  - apply clean_text_trimmed.
  - apply clean_text_collapsed.
Qed.

(** X4.  [clean_text] returns the empty string exactly on the texts that
    the guard of [summarize] stops, the empty text and the texts made of
    whitespace only. *)
Theorem clean_text_empty_iff_blank (text : str) :
  (clean_text text = [] <-> is_blank text = true)
  /\ (is_blank text = true <-> forall c, In c text -> isspace c = true).
Proof.
  rewrite is_blank_spec. split; [apply clean_text_blank|].
  apply forallb_forall.
Qed.

(** X5.  Only the cleaned form of the text matters: two texts with the
    same cleaned form, for instance the same words with another layout of
    spaces and line breaks, give the same outcome and leave the same
    state; in particular cleaning the text beforehand changes nothing. *)
Theorem summarize_ignores_layout (E : Env) (w : world) (text1 text2 : str)
        (ratio : F64.float) :
  clean_text text1 = clean_text text2 ->
  summarize E w text1 ratio = summarize E w text2 ratio
  /\ summarize E w (clean_text text1) ratio = summarize E w text1 ratio.
Proof.
  intros Hc. split; [now apply summarize_congruence|].
  apply summarize_congruence, clean_text_fixed.
  - apply clean_text_trimmed.
  - apply clean_text_collapsed.
Qed.

Lemma summarize_ignores_layout_witness :
  summarize Demo.env Demo.fresh Demo.two_sentences default_ratio
  = summarize Demo.env Demo.fresh
      (of_string "  One sentence. Two sentences. ") default_ratio
  /\ summarize Demo.env Demo.fresh (clean_text Demo.two_sentences) default_ratio
     = summarize Demo.env Demo.fresh Demo.two_sentences default_ratio.
Proof.
  apply (@summarize_ignores_layout Demo.env Demo.fresh Demo.two_sentences
           (of_string "  One sentence. Two sentences. ") default_ratio).
  vm_compute. reflexivity.
Defined.

(** X6.  In the trivial regime the summary is a fixed point: summarizing
    the returned summary, in the state the first call left and with any
    ratio, returns the same result again. *)
Theorem trivial_summary_is_fixed_point (E : Env) (w : world) (text : str)
        (ratio ratio' : F64.float) (cleaned : str) (sentences : list str) :
  forallb isspace text = false ->
  fst (preprocess_text E w text) = Ok (cleaned, sentences) ->
  (len sentences <= 2)%Z ->
  exists r : result,
    fst (summarize E w text ratio) = Ok r
    /\ fst (summarize E (snd (summarize E w text ratio)) (summary r) ratio')
       = Ok r.
Proof.
  intros Hb Hp Hlen.
  pose proof (preprocess_text_cleaned E w text Hp) as Hc.
  assert (Hr : forall q, fst (summarize E w text q) =
                 Ok {| summary := cleaned;
                       original_sentence_count := len sentences;
                       summary_sentence_count := len sentences;
                       compression_ratio := F64.one |}).
  { intros q. rewrite (summarize_not_blank E w text q Hb Hp).
    apply Z.leb_le in Hlen. now rewrite Hlen. }
  eexists. split; [apply Hr|]. cbn [summary].
  rewrite summarize_world. rewrite is_blank_spec, Hb.
  rewrite summarize_after_ensure.
  rewrite <- (Hr ratio'). f_equal. apply summarize_congruence.
  rewrite Hc. apply clean_text_fixed.
  - apply clean_text_trimmed.
  - apply clean_text_collapsed.
Qed.

Lemma trivial_summary_is_fixed_point_witness :
  exists r : result,
    fst (summarize Demo.env Demo.fresh Demo.two_sentences default_ratio) = Ok r
    /\ fst (summarize Demo.env
              (snd (summarize Demo.env Demo.fresh Demo.two_sentences default_ratio))
              (summary r) Demo.ratio_2)
       = Ok r.
Proof.
  apply (@trivial_summary_is_fixed_point Demo.env Demo.fresh Demo.two_sentences
           default_ratio Demo.ratio_2 (clean_text Demo.two_sentences)
           [of_string "One sentence."; of_string "Two sentences."]).
  - reflexivity.
  - vm_compute. reflexivity.
  - unfold len. simpl. lia.
Defined.

(** ** Sentence splitting *)

Lemma strip_nonblank_filter (fragments : list str) :
  strip_nonblank fragments = filter truthy (map strip fragments).
Proof.
  induction fragments as [|f fragments IH]; simpl; [reflexivity|].
  destruct (truthy (strip f)); now rewrite IH.
Qed.

Lemma strip_nonblank_shape (fragments : list str) :
  subsequence (strip_nonblank fragments) (map strip fragments)
  /\ Forall (fun s => s <> [] /\ trimmed s) (strip_nonblank fragments)
  /\ (forall f, In f fragments -> forallb isspace f = false ->
                In (strip f) (strip_nonblank fragments)).
Proof.
  induction fragments as [|f fragments (Hsub & Hall & Hin)]; simpl.
  - split; [constructor|]. split; [constructor | intros f []].
  - destruct (strip f) as [|c t] eqn:Hf; cbn [truthy].
    + split; [now constructor|]. split; [exact Hall|].
      intros g [<-|Hg] Hb; [|now apply Hin].
      exfalso. now apply (strip_not_blank f Hb).
    + split; [now constructor|]. split.
      * constructor; [|exact Hall]. split; [discriminate|].
        rewrite <- Hf. apply strip_trimmed.
      * intros g [<-|Hg] Hb; [left; now rewrite Hf | right; now apply Hin].
Qed.

(** X7.  What [split_sentences] returns: the stripped fragments of the
    tokenizer that are not empty, each of them as often as the tokenizer
    gave it and in the tokenizer's order, so the blank fragments are left
    out and no other; every sentence is non-empty and neither begins nor
    ends with whitespace. *)
Theorem split_sentences_shape (E : Env) (w : world) (text : str)
        (sentences : list str) :
  fst (split_sentences E w text) = Ok sentences ->
  exists fragments : list str,
    sent_tokenize E (data (ensure_nltk_data E w)) text = Ok fragments
    /\ sentences = filter (fun s => negb (List.length s =? 0)%nat)
                          (map strip fragments)
    /\ subsequence sentences (map strip fragments)
    /\ Forall (fun s => s <> [] /\ trimmed s) sentences
    /\ (forall f, In f fragments -> forallb isspace f = false ->
                  In (strip f) sentences).
Proof.
  unfold split_sentences. cbn [fst].
  destruct (sent_tokenize E _ text) as [fragments|e]; cbn [bind];
    [|discriminate].
  intros H. injection H as <-. exists fragments.
  split; [reflexivity|]. split; [|apply strip_nonblank_shape].
  rewrite strip_nonblank_filter. apply filter_ext. now intros [|c s].
Qed.

Lemma split_sentences_shape_witness :
  exists fragments : list str,
    sent_tokenize Demo.env (data (ensure_nltk_data Demo.env Demo.fresh))
      (of_string "One sentence. Two sentences. ") = Ok fragments
    /\ [of_string "One sentence."; of_string "Two sentences."]
       = filter (fun s => negb (List.length s =? 0)%nat) (map strip fragments)
    /\ subsequence [of_string "One sentence."; of_string "Two sentences."]
         (map strip fragments)
    /\ Forall (fun s => s <> [] /\ trimmed s)
         [of_string "One sentence."; of_string "Two sentences."]
    /\ (forall f, In f fragments -> forallb isspace f = false ->
                  In (strip f)
                     [of_string "One sentence."; of_string "Two sentences."]).
Proof.
  apply (@split_sentences_shape Demo.env Demo.fresh
           (of_string "One sentence. Two sentences. ")).
  vm_compute. reflexivity.
Defined.

(** ** The NLTK data *)

Lemma ensure_one_installs (E : Env) (d : nltk_data) (r : resource) :
  downloads_install E ->
  preprocess.nltk_find r (ensure_one E d r) = true
  /\ forall r', preprocess.nltk_find r' d = true ->
                preprocess.nltk_find r' (ensure_one E d r) = true.
Proof.
  intros Hd. unfold ensure_one.
  destruct (preprocess.nltk_find r d) eqn:Hr; [split; auto|].
  apply Hd.
Qed.

(** X8.  [ensure_nltk_data] downloads what is missing and nothing else:
    when the three packages are installed the data directory is left as
    it is, whatever a download would do; on a first call, if downloads
    install their package, the three packages are installed afterwards;
    and in either case the flag is set. *)
Theorem ensure_nltk_data_installs (E : Env) (w : world) :
  _NLTK_READY (ensure_nltk_data E w) = true
  /\ (all_installed (data w) -> data (ensure_nltk_data E w) = data w)
  /\ (_NLTK_READY w = false -> downloads_install E ->
      all_installed (data (ensure_nltk_data E w))).
Proof.
  split; [apply ensure_nltk_data_ready|]. split.
  - intros (H1 & H2 & H3). unfold ensure_nltk_data.
    destruct (_NLTK_READY w); [reflexivity|].
    cbn [data fold_left]. unfold ensure_one. now rewrite H1, H2, H3.
  - intros Hf Hd. unfold ensure_nltk_data. rewrite Hf.
    cbn [data fold_left].
    destruct (ensure_one_installs (data w) punkt Hd) as [A1 A2].
    destruct (ensure_one_installs (ensure_one E (data w) punkt) punkt_tab Hd)
      as [B1 B2].
    destruct (ensure_one_installs
                (ensure_one E (ensure_one E (data w) punkt) punkt_tab)
                stopwords Hd) as [C1 C2].
    split; [|split]; auto.
Qed.

Lemma demo_downloads_install : downloads_install Demo.env.
Proof.
  intros r d. split.
  - simpl. destruct r; reflexivity.
  - intros r' H. simpl. rewrite H. apply orb_true_r.
Qed.

Lemma ensure_nltk_data_installs_witness :
  _NLTK_READY (ensure_nltk_data Demo.env Demo.fresh) = true
  /\ all_installed (data (ensure_nltk_data Demo.env Demo.fresh)).
Proof.
  destruct (ensure_nltk_data_installs Demo.env Demo.fresh) as (H1 & _ & H3).
  split; [exact H1|]. apply H3; [reflexivity|]. apply demo_downloads_install.
Defined.

(** ** Failures of the collaborators and of the ratio *)

(** X9.  An exception of the sentence tokenizer comes out of [summarize]
    unchanged, and the readiness flag is set all the same: no later call
    looks at the NLTK data or downloads again, so the same text keeps
    failing the same way in that process. *)
Theorem tokenizer_failure_is_not_retried (E : Env) (w : world) (text : str)
        (ratio : F64.float) (e : exn) :
  forallb isspace text = false ->
  sent_tokenize E (data (ensure_nltk_data E w)) (clean_text text) = Raise e ->
  fst (summarize E w text ratio) = Raise e
  /\ _NLTK_READY (snd (summarize E w text ratio)) = true
  /\ (forall (text' : str) (ratio' : F64.float),
        snd (summarize E (snd (summarize E w text ratio)) text' ratio')
        = snd (summarize E w text ratio))
  /\ (forall ratio' : F64.float,
        fst (summarize E (snd (summarize E w text ratio)) text ratio')
        = Raise e).
Proof.
  intros Hb He.
  assert (Hf : forall q, fst (summarize E w text q) = Raise e).
  { intros q. unfold summarize. rewrite is_blank_spec, Hb.
    unfold preprocess_text, split_sentences. now rewrite He. }
  rewrite summarize_world, is_blank_spec, Hb.
  split; [apply Hf|]. split; [apply ensure_nltk_data_ready|]. split.
  - intros text' ratio'. rewrite summarize_world.
    rewrite ensure_nltk_data_idempotent. now destruct (is_blank text').
  - intros ratio'. rewrite summarize_after_ensure. apply Hf.
Qed.

Lemma tokenizer_failure_is_not_retried_witness :
  fst (summarize DemoWords.offline_env Demo.fresh Demo.two_sentences default_ratio)
    = Raise LookupError
  /\ _NLTK_READY (snd (summarize DemoWords.offline_env Demo.fresh
                         Demo.two_sentences default_ratio)) = true
  /\ (forall (text' : str) (ratio' : F64.float),
        snd (summarize DemoWords.offline_env
               (snd (summarize DemoWords.offline_env Demo.fresh
                       Demo.two_sentences default_ratio)) text' ratio')
        = snd (summarize DemoWords.offline_env Demo.fresh
                 Demo.two_sentences default_ratio))
  /\ (forall ratio' : F64.float,
        fst (summarize DemoWords.offline_env
               (snd (summarize DemoWords.offline_env Demo.fresh
                       Demo.two_sentences default_ratio))
               Demo.two_sentences ratio')
        = Raise LookupError).
Proof.
  apply (@tokenizer_failure_is_not_retried DemoWords.offline_env Demo.fresh
           Demo.two_sentences default_ratio LookupError).
  - reflexivity.
  - reflexivity.
Defined.

Local Open Scope Z_scope.

(** *** The magnitude of a rounded value *)

Lemma Zdigits2_mul_pow2 (p : positive) (k : Z) :
  0 <= k -> Zdigits2 (Zpos p * 2 ^ k) = Zdigits2 (Zpos p) + k.
Proof.
  intros Hk.
  assert (Hp : 0 < Zpos p * 2 ^ k).
  { apply Z.mul_pos_pos; [lia | apply Z.pow_pos_nonneg; lia]. }
  destruct (Zpos p * 2 ^ k) as [|q|q] eqn:Hq; try lia.
  cbn [Zdigits2]. rewrite !digits2_log2, <- Hq.
  rewrite Z.log2_mul_pow2 by lia. lia.
Qed.

Lemma Zdigits2_mul (a b : positive) :
  Zdigits2 (Zpos (a * b)) <= Zdigits2 (Zpos a) + Zdigits2 (Zpos b).
Proof.
  pose proof (@Zdigits2_upper (Zpos a) ltac:(lia)) as Ha.
  pose proof (@Zdigits2_upper (Zpos b) ltac:(lia)) as Hb.
  pose proof (Zdigits2_nonneg (Zpos a)) as Ha0.
  pose proof (Zdigits2_nonneg (Zpos b)) as Hb0.
  apply Zdigits2_le; [lia|]. split; [lia|].
  rewrite Pos2Z.inj_mul, Z.pow_add_r by lia.
  apply Z.mul_lt_mono_nonneg; lia.
Qed.

(** Rounding a value of small magnitude gives a zero or a finite float of
    about the same magnitude, never an infinity or a NaN. *)
Lemma binary_round_aux_bounded (s : bool) (m e B : Z) (l : location) :
  0 <= m -> e <= 971 -> -1074 <= B <= 1022 -> Zdigits2 m + e <= B ->
  match binary_round_aux F64.prec F64.emax s m e l with
  | S754_zero s' => s' = s
  | S754_finite s' m' e' =>
      s' = s /\ e' <= 971 /\ Zdigits2 (Zpos m') + e' <= B + 1
  | _ => False
  end.
Proof.
  intros Hm He HB HD. unfold binary_round_aux.
  pose proof (@shr_fexp_range m e B l Hm He ltac:(lia) HD) as (H0 & H1 & H2).
  destruct (shr_fexp F64.prec F64.emax m e l) as [mrs1 e1].
  cbn [fst snd] in *.
  pose proof (round_nearest_even_bounds (shr_m mrs1) (loc_of_shr_record mrs1)) as Hr.
  set (m2 := round_nearest_even (shr_m mrs1) (loc_of_shr_record mrs1)) in *.
  assert (Hd2 : Zdigits2 m2 <= Zdigits2 (shr_m mrs1) + 1).
  { pose proof (Zdigits2_nonneg (shr_m mrs1)).
    apply Zdigits2_le; [lia|]. split; [lia|].
    pose proof (Zdigits2_upper H0) as Hup.
    rewrite Z.pow_add_r by lia. change (2 ^ 1) with 2. lia. }
  pose proof (@shr_fexp_range m2 e1 (B + 1) loc_Exact ltac:(lia) H1 ltac:(lia)
                ltac:(lia)) as (H3 & H4 & H5).
  destruct (shr_fexp F64.prec F64.emax m2 e1 loc_Exact) as [mrs2 e2].
  cbn [fst snd] in *.
  destruct (shr_m mrs2) as [|p|p]; [reflexivity| |lia].
  unfold F64.emax, F64.prec.
  destruct (e2 <=? 1024 - 53) eqn:Hle; [|apply Z.leb_gt in Hle; lia].
  repeat split; assumption.
Qed.

(** [float(N)] for a positive integer of at most 53 bits: a positive
    finite float, at least [N], of at most 55 bits of magnitude. *)
Lemma of_int_finite (N : Z) :
  1 <= N <= 2 ^ 53 ->
  exists m e, F64.of_int N = Ok (S754_finite false m e)
              /\ F64.at_least (Zpos m) e N
              /\ e <= 971 /\ Zdigits2 (Zpos m) + e <= 55.
Proof.
  intros HN.
  assert (Hbound : match F64.of_int N with
                   | Ok (S754_finite s m e) =>
                       e <= 971 /\ Zdigits2 (Zpos m) + e <= 55
                   | Ok (S754_zero _) => True
                   | _ => False
                   end).
  { unfold F64.of_int, binary_normalize.
    destruct N as [|p|p]; try lia. unfold binary_round.
    assert (Hd : Zdigits2 (Zpos p) <= 54).
    { apply Zdigits2_le; [lia|]. split; [lia|].
      eapply Z.le_lt_trans; [apply HN | reflexivity]. }
    assert (Hal : 0 <= Zpos (fst (shl_align p 0 (fexp F64.prec F64.emax (Zpos (digits2_pos p) + 0))))
                  /\ snd (shl_align p 0 (fexp F64.prec F64.emax (Zpos (digits2_pos p) + 0))) <= 0
                  /\ Zdigits2 (Zpos (fst (shl_align p 0 (fexp F64.prec F64.emax (Zpos (digits2_pos p) + 0)))))
                     + snd (shl_align p 0 (fexp F64.prec F64.emax (Zpos (digits2_pos p) + 0)))
                     <= 54).
    { unfold shl_align.
      destruct (fexp F64.prec F64.emax (Zpos (digits2_pos p) + 0) - 0)
        as [|d|d] eqn:Hs; cbn [fst snd]; try (split; [lia|split; [lia|]]; lia).
      change (Pos.iter xO p d) with (shift_pos d p).
      rewrite shift_pos_correct, Z.pow_pos_fold.
      rewrite (Z.mul_comm (2 ^ Zpos d)), Zdigits2_mul_pow2 by lia.
      split; [lia|]. split; [lia|]. cbn [Zdigits2] in *. lia. }
    destruct (shl_align p 0 _) as [mz ez]. cbn [fst snd] in Hal.
    destruct Hal as (A0 & A1 & A2).
    pose proof (@binary_round_aux_bounded false (Zpos mz) ez 54 loc_Exact
                  A0 ltac:(lia) ltac:(lia) A2) as Hb.
    destruct (binary_round_aux F64.prec F64.emax false (Zpos mz) ez loc_Exact)
      as [s|s| |s m e]; try contradiction; [exact I|].
    destruct Hb as (_ & He & Hmag). split; lia. }
  destruct (F64.of_int N) as [fn|ex] eqn:Hfn; [|contradiction].
  destruct (@of_int_lower N fn HN Hfn) as (m & e & -> & Hge).
  exists m, e. destruct Hbound as [He Hmag]. repeat split; assumption.
Qed.


(** X10.  With at least three sentences, a ratio that is not a number
    makes [summarize] raise [ValueError] and an infinite ratio makes it
    raise [OverflowError]: [int] has no integer to return. *)
Theorem non_finite_ratio_raises (E : Env) (w : world) (text : str)
        (cleaned : str) (sentences : list str) :
  forallb isspace text = false ->
  fst (preprocess_text E w text) = Ok (cleaned, sentences) ->
  3 <= len sentences <= 2 ^ 53 ->
  fst (summarize E w text S754_nan) = Raise ValueError
  /\ forall s : bool,
       fst (summarize E w text (S754_infinity s)) = Raise OverflowError.
Proof.
  intros Hb Hp Hlen.
  destruct (@of_int_finite (len sentences) ltac:(lia)) as (m & e & Hn & _).
  split; [|intros s];
    rewrite (summarize_not_blank E w text _ Hb Hp);
    (destruct (len sentences <=? 2) eqn:H2; [apply Z.leb_le in H2; lia|]);
    unfold derive_n_clusters, F64.int_mul; rewrite Hn; reflexivity.
Qed.

Lemma non_finite_ratio_raises_witness :
  fst (summarize Demo.env Demo.fresh Demo.four_sentences S754_nan)
    = Raise ValueError
  /\ forall s : bool,
       fst (summarize Demo.env Demo.fresh Demo.four_sentences (S754_infinity s))
       = Raise OverflowError.
Proof.
  apply (@non_finite_ratio_raises Demo.env Demo.fresh Demo.four_sentences
           (clean_text Demo.four_sentences) Demo.sentences4).
  - reflexivity.
  - vm_compute. reflexivity.
  - unfold len. simpl. lia.
Defined.

(** A float between 0.0 and 1.0 is a zero or a positive finite float of
    magnitude at most 1. *)
Lemma unit_interval (x : F64.float) :
  F64.valid x -> F64.leb F64.zero x = true -> F64.leb x F64.one = true ->
  (exists s, x = S754_zero s)
  \/ exists m e, x = S754_finite false m e
                 /\ e <= -52 /\ Zdigits2 (Zpos m) + e <= 1.
Proof.
  intros Hv H0 H1. unfold F64.leb, SFleb, F64.zero, F64.one in *.
  destruct x as [s|s| |s m e]; try discriminate.
  - left. eauto.
  - destruct s; discriminate.
  - destruct s; [discriminate|]. right. exists m, e. split; [reflexivity|].
    unfold F64.valid, valid_binary, bounded, canonical_mantissa in Hv.
    apply andb_true_iff in Hv as [Hc _]. apply Z.eqb_eq in Hc.
    unfold fexp, emin, F64.prec, F64.emax in Hc.
    unfold SFcompare in H1. cbn [Zdigits2].
    destruct (Z.compare e (-52)) eqn:Hcmp; try discriminate.
    + apply Z.compare_eq_iff in Hcmp. subst e.
      assert (Hm : Zpos m <= 4503599627370496).
      { destruct (Pos.compare_cont Eq m 4503599627370496) eqn:Hcc;
          try discriminate.
        - pose proof (Pos.compare_eq _ _ (Hcc : (m ?= 4503599627370496)%positive = Eq)).
          subst m. reflexivity.
        - pose proof (proj1 (Pos.compare_lt_iff _ _)
                        (Hcc : (m ?= 4503599627370496)%positive = Lt)) as Hlt.
          apply Pos2Z.pos_lt_pos in Hlt. apply Z.lt_le_incl. exact Hlt. }
      split; [lia|].
      assert (Zdigits2 (Zpos m) <= 53); [|cbn [Zdigits2] in *; lia].
      apply Zdigits2_le; [lia|]. split; [lia|].
      change (2 ^ 53) with 9007199254740992. lia.
    + pose proof (proj1 (Z.compare_lt_iff _ _) Hcmp) as Hlt.
      split; lia.
Qed.

(** For a ratio from 0.0 to 1.0 the group count is derived, between 1 and
    [N]; at 1.0 it is [N]. *)
Lemma derive_n_clusters_in_range (N : Z) (ratio : F64.float) :
  1 <= N <= 2 ^ 53 ->
  F64.valid ratio ->
  F64.leb F64.zero ratio = true ->
  F64.leb ratio F64.one = true ->
  (exists k, derive_n_clusters N ratio = Ok k /\ 1 <= k <= N)
  /\ derive_n_clusters N F64.one = Ok N.
Proof.
  intros HN Hv H0 H1.
  destruct (@of_int_finite N HN) as (mf & ef & Hf & Hge & Hef & Hmag).
  assert (Hmul : forall mr er,
             er <= -52 -> Zdigits2 (Zpos mr) + er <= 1 ->
             exists t, F64.to_int (F64.mul (S754_finite false mf ef)
                                     (S754_finite false mr er)) = Ok t
                       /\ (F64.at_least (Zpos mr) er 1 -> N <= t)).
  { intros mr er Her Hr. unfold F64.mul. cbn [SFmul xorb].
    pose proof (Zdigits2_mul mf mr) as Hd.
    pose proof (@binary_round_aux_bounded false (Zpos (mf * mr)) (ef + er) 56
                  loc_Exact ltac:(lia) ltac:(lia) ltac:(lia) ltac:(lia)) as Hb.
    pose proof (fun K HK Hp =>
                  @binary_round_aux_lower (Zpos (mf * mr)) (ef + er) K
                    loc_Exact HK Hp) as Hlow.
    destruct (binary_round_aux F64.prec F64.emax false (Zpos (mf * mr))
                (ef + er) loc_Exact) as [s|s| |s m e]; try contradiction.
    - exists 0. split; [reflexivity|]. intros Hone. exfalso.
      apply (Hlow N HN). rewrite Pos2Z.inj_mul.
      apply at_least_mul; try assumption; lia.
    - destruct Hb as (-> & _). cbn [F64.to_int cond_Zopp].
      eexists. split; [reflexivity|]. intros Hone.
      apply at_least_shiftl; [lia|].
      apply (Hlow N HN). rewrite Pos2Z.inj_mul.
      apply at_least_mul; try assumption; lia. }
  split.
  - unfold derive_n_clusters, F64.int_mul. rewrite Hf. cbn [bind].
    destruct (unit_interval Hv H0 H1) as [[s ->]|(mr & er & -> & Her & Hr)].
    + unfold F64.mul. cbn [SFmul F64.to_int bind]. eexists.
      split; [reflexivity | lia].
    + destruct (Hmul mr er Her Hr) as (t & -> & _). cbn [bind].
      eexists. split; [reflexivity | lia].
  - unfold derive_n_clusters, F64.int_mul. rewrite Hf. cbn [bind].
    unfold F64.one.
    destruct (Hmul 4503599627370496%positive (-52) ltac:(lia)
                ltac:(vm_compute; discriminate)) as (t & -> & Ht).
    cbn [bind]. f_equal.
    assert (N <= t) by (apply Ht; unfold F64.at_least; vm_compute; discriminate).
    lia.
Qed.

(** X11.  For a ratio in the documented range, from 0.0 to 1.0, and at
    least three sentences (at most 2^53), the ratio never makes
    [summarize] raise: a group count between 1 and the number of
    sentences is derived and the pipeline runs with it; at the ratio 1.0
    the count is the number of sentences. *)
Theorem in_range_ratio_never_raises (E : Env) (w : world) (text : str)
        (ratio : F64.float) (cleaned : str) (sentences : list str) :
  forallb isspace text = false ->
  fst (preprocess_text E w text) = Ok (cleaned, sentences) ->
  3 <= len sentences <= 2 ^ 53 ->
  F64.valid ratio ->
  F64.leb F64.zero ratio = true ->
  F64.leb ratio F64.one = true ->
  (exists k, 1 <= k <= len sentences
             /\ derive_n_clusters (len sentences) ratio = Ok k
             /\ fst (summarize E w text ratio) = run_pipeline E sentences k)
  /\ fst (summarize E w text F64.one)
     = run_pipeline E sentences (len sentences).
Proof.
  intros Hb Hp Hlen Hv H0 H1.
  destruct (@derive_n_clusters_in_range (len sentences) ratio ltac:(lia)
              Hv H0 H1) as [(k & Hk & Hrange) Hone].
  assert (H2 : (len sentences <=? 2) = false) by (apply Z.leb_gt; lia).
  split.
  - exists k. split; [exact Hrange|]. split; [exact Hk|].
    rewrite (summarize_not_blank E w text ratio Hb Hp), H2, Hk. reflexivity.
  - rewrite (summarize_not_blank E w text F64.one Hb Hp), H2, Hone.
    reflexivity.
Qed.

Lemma in_range_ratio_never_raises_witness :
  (exists k, 1 <= k <= len Demo.sentences4
             /\ derive_n_clusters (len Demo.sentences4) default_ratio = Ok k
             /\ fst (summarize Demo.env Demo.fresh Demo.four_sentences
                        default_ratio)
                = run_pipeline Demo.env Demo.sentences4 k)
  /\ fst (summarize Demo.env Demo.fresh Demo.four_sentences F64.one)
     = run_pipeline Demo.env Demo.sentences4 (len Demo.sentences4).
Proof.
  apply (@in_range_ratio_never_raises Demo.env Demo.fresh Demo.four_sentences
           default_ratio (clean_text Demo.four_sentences) Demo.sentences4).
  - reflexivity.
  - vm_compute. reflexivity.
  - unfold len. simpl. lia.
  - reflexivity.
  - reflexivity.
  - reflexivity.
Defined.

Local Close Scope Z_scope.

(** ** The vocabulary *)

Lemma str_eqb_eq (a b : str) : str_eqb a b = true <-> a = b.
Proof.
  revert b. induction a as [|x a IH]; intros [|y b]; simpl;
    try (split; (reflexivity || discriminate)).
  rewrite andb_true_iff, N.eqb_eq, IH. split.
  - intros [-> ->]. reflexivity.
  - intros H. injection H as -> ->. split; reflexivity.
Qed.

Lemma existsb_str_eqb (t : str) (l : list str) :
  existsb (str_eqb t) l = true <-> In t l.
Proof.
  rewrite existsb_exists. split.
  - intros (x & Hx & Heq). apply str_eqb_eq in Heq. now subst.
  - intros H. exists t. split; [exact H | now apply str_eqb_eq].
Qed.

Lemma str_leb_total (a b : str) : str_leb a b = true \/ str_leb b a = true.
Proof.
  revert b. induction a as [|x a IH]; intros [|y b]; simpl; auto.
  destruct (x <? y)%N eqn:Hxy; [now left|].
  destruct (y <? x)%N eqn:Hyx; [now right|]. apply IH.
Qed.

Lemma str_leb_trans (a b c : str) :
  str_leb a b = true -> str_leb b c = true -> str_leb a c = true.
Proof.
  revert b c. induction a as [|x a IH]; intros [|y b] [|z c]; simpl; auto;
    try discriminate.
  destruct (x <? y)%N eqn:Hxy, (y <? x)%N eqn:Hyx,
           (y <? z)%N eqn:Hyz, (z <? y)%N eqn:Hzy,
           (x <? z)%N eqn:Hxz, (z <? x)%N eqn:Hzx;
    rewrite ?N.ltb_lt, ?N.ltb_ge in *; try discriminate; try lia; auto.
  apply IH.
Qed.

Lemma str_leb_antisym (a b : str) :
  str_leb a b = true -> str_leb b a = true -> a = b.
Proof.
  revert b. induction a as [|x a IH]; intros [|y b]; simpl; auto;
    try discriminate.
  destruct (x <? y)%N eqn:Hxy, (y <? x)%N eqn:Hyx;
    rewrite ?N.ltb_lt, ?N.ltb_ge in *; try discriminate; try lia.
  intros H1 H2. f_equal; [lia | now apply IH].
Qed.

Lemma distinct_spec (l : list str) :
  forall seen,
    NoDup (distinct seen l)
    /\ forall t, In t (distinct seen l) <-> In t l /\ ~ In t seen.
Proof.
  induction l as [|x l IH]; intros seen; simpl.
  - split; [constructor | intros t; tauto].
  - destruct (existsb (str_eqb x) seen) eqn:Hx.
    + apply existsb_str_eqb in Hx. destruct (IH seen) as [Hnd Hin].
      split; [exact Hnd|]. intros t. rewrite Hin. split.
      * intros [H1 H2]. auto.
      * intros [[->|H1] H2]; [contradiction | auto].
    + assert (Hnx : ~ In x seen).
      { intros H. apply existsb_str_eqb in H. congruence. }
      destruct (IH (x :: seen)) as [Hnd Hin]. split.
      * constructor; [|exact Hnd]. rewrite Hin. simpl. tauto.
      * intros t. simpl. rewrite Hin. simpl. split.
        -- intros [<-|[H1 H2]]; [auto | tauto].
        -- intros [[<-|H1] H2]; [auto|].
           destruct (list_eq_dec N.eq_dec x t) as [->|Hne]; [auto|].
           right. tauto.
Qed.

Lemma df_positive (t : str) (docs : list (list str)) :
  In t (concat docs) -> (1 <= df t docs)%nat.
Proof.
  intros H. apply in_concat in H as (doc & Hdoc & Ht).
  unfold df.
  assert (Hin : In doc (filter (fun doc => existsb (str_eqb t) doc) docs)).
  { apply filter_In. split; [exact Hdoc | now apply existsb_str_eqb]. }
  destruct (filter _ docs); [contradiction | simpl; lia].
Qed.

Lemma fit_vocabulary_inv (docs : list (list str)) (vocabulary : list str) :
  fit_vocabulary docs = Ok vocabulary ->
  exists keep : str -> bool,
    Permutation vocabulary (filter keep (distinct [] (concat docs)))
    /\ vocabulary = sort_by str_leb (filter keep (distinct [] (concat docs)))
    /\ vocabulary <> [].
Proof.
  unfold fit_vocabulary.
  destruct (distinct [] (concat docs)) as [|t0 ts] eqn:Hd; [discriminate|].
  destruct (F64.int_mul (len docs) max_df) as [hi|e]; cbn [bind];
    [|discriminate].
  destruct (F64.of_int min_df) as [lo|e]; cbn [bind]; [|discriminate].
  destruct (F64.ltb hi lo); [discriminate|].
  match goal with
  | |- context [filter ?k (t0 :: ts)] => set (keep := k)
  end.
  destruct (filter keep (t0 :: ts)) as [|k0 ks] eqn:Hf; [discriminate|].
  intros H. injection H as <-. exists keep. rewrite Hf.
  split; [exact (sort_by_perm str_leb (k0 :: ks))|]. split; [reflexivity|].
  intros Habs.
  assert (Hp : Permutation (insert_sorted str_leb k0 (sort_by str_leb ks))
                           (k0 :: ks))
    by exact (sort_by_perm str_leb (k0 :: ks)).
  rewrite Habs in Hp. apply Permutation_nil in Hp. discriminate.
Qed.

(** X12.  The vocabulary that comes with the matrix: its terms are in
    strictly increasing order, so no term has two columns; each of them
    occurs in at least one sentence; there is at least one; and the
    matrix has one row per sentence and one cell per term. *)
Theorem vocabulary_is_sorted_and_occurs (E : Env) (sentences : list str)
        (M : matrix) (vocabulary : list str) :
  build_tfidf_matrix E sentences = Ok (M, vocabulary) ->
  StronglySorted (fun a b => str_leb a b = true /\ a <> b) vocabulary
  /\ Forall (fun t => exists s, In s sentences /\ In t (analyzer E s))
            vocabulary
  /\ vocabulary <> []
  /\ List.length M = List.length sentences
  /\ Forall (fun row => List.length row = List.length vocabulary) M.
Proof.
  intros Hb. destruct (build_tfidf_matrix_inv E sentences Hb) as [Hfit ->].
  destruct (fit_vocabulary_inv _ Hfit) as (keep & Hperm & Hsort & Hne).
  destruct (distinct_spec (concat (map (analyzer E) sentences)) [])
    as [Hnd Hin].
  assert (Hvnd : NoDup vocabulary).
  { apply (Permutation_NoDup (Permutation_sym Hperm)).
    now apply NoDup_filter. }
  assert (Hsorted : StronglySorted (fun a b => str_leb a b = true) vocabulary).
  { rewrite Hsort. apply sort_by_sorted.
    - apply str_leb_total.
    - apply str_leb_trans. }
  split; [|split; [|split; [exact Hne|split]]].
  - clear - Hvnd Hsorted.
    induction Hsorted as [|a l Hs IH Ha]; constructor.
    + apply IH. now inversion Hvnd.
    + inversion Hvnd as [|? ? Hnotin _]; subst.
      rewrite Forall_forall in *. intros b Hbl. split; [now apply Ha|].
      intros ->. contradiction.
  - rewrite Forall_forall. intros t Ht.
    apply (Permutation_in _ Hperm) in Ht. apply filter_In in Ht as [Ht _].
    apply Hin in Ht as [Ht _].
    apply in_concat in Ht as (doc & Hdoc & Htd).
    apply in_map_iff in Hdoc as (s & <- & Hs). eauto.
  - unfold weight_matrix. now rewrite !length_map.
  - unfold weight_matrix. rewrite !Forall_map, Forall_forall. intros s _.
    rewrite normalize_row_length. unfold weight_row. apply length_map.
Qed.

Lemma vocabulary_is_sorted_and_occurs_witness :
  StronglySorted (fun a b => str_leb a b = true /\ a <> b) Demo.vocabulary4
  /\ Forall (fun t => exists s, In s Demo.sentences4
                                /\ In t (analyzer Demo.env s))
            Demo.vocabulary4
  /\ Demo.vocabulary4 <> []
  /\ List.length
       (map normalize_row
          (weight_matrix (map (analyzer Demo.env) Demo.sentences4)
             Demo.vocabulary4))
     = List.length Demo.sentences4
  /\ Forall (fun row => List.length row = List.length Demo.vocabulary4)
       (map normalize_row
          (weight_matrix (map (analyzer Demo.env) Demo.sentences4)
             Demo.vocabulary4)).
Proof.
  apply (@vocabulary_is_sorted_and_occurs Demo.env Demo.sentences4).
  unfold build_tfidf_matrix.
  replace (fit_vocabulary (map (analyzer Demo.env) Demo.sentences4))
    with (Ok Demo.vocabulary4) by (vm_compute; reflexivity).
  reflexivity.
Defined.

(** X13.  The Vectorizer needs two sentences at least: on an empty list
    and on a single sentence [build_tfidf_matrix] raises [ValueError],
    whatever the sentence is (no vocabulary, or a [max_df] bound of 0.95
    document below the [min_df] bound of 1). *)
Theorem one_sentence_is_refused (E : Env) (sentences : list str) :
  (List.length sentences <= 1)%nat ->
  build_tfidf_matrix E sentences = Raise ValueError.
Proof.
  intros Hlen. unfold build_tfidf_matrix.
  destruct sentences as [|s [|s' rest]]; [reflexivity| |simpl in Hlen; lia].
  unfold fit_vocabulary. cbn [map].
  destruct (distinct [] (concat [analyzer E s])); reflexivity.
Qed.

Lemma one_sentence_is_refused_witness :
  build_tfidf_matrix Demo.env [of_string "Cats chase mice."] = Raise ValueError.
Proof.
  apply (@one_sentence_is_refused Demo.env [of_string "Cats chase mice."]).
  simpl. lia.
Defined.

(** ** The cells, the scores and the similarities *)

Import similarity.
Local Open Scope R_scope.

Lemma tf_raw_positive (t : str) (doc : list str) :
  (0 < tf_raw t doc)%nat <-> In t doc.
Proof.
  unfold tf_raw. split.
  - intros H. destruct (filter (str_eqb t) doc) as [|x l] eqn:Hf;
      [simpl in H; lia|].
    assert (Hx : In x (filter (str_eqb t) doc)) by (rewrite Hf; now left).
    apply filter_In in Hx as [Hx Heq]. apply str_eqb_eq in Heq. now subst.
  - intros H.
    assert (Hx : In t (filter (str_eqb t) doc)).
    { apply filter_In. split; [exact H | now apply str_eqb_eq]. }
    destruct (filter (str_eqb t) doc); [contradiction | simpl; lia].
Qed.

Lemma tf_positive (count : nat) : 0 < tf count <-> (0 < count)%nat.
Proof.
  destruct count as [|n]; unfold tf.
  - split; [lra | lia].
  - split; [lia|]. intros _.
    assert (1 <= INR (S n)).
    { rewrite S_INR. pose proof (pos_INR n). lra. }
    pose proof (ln_nonneg H). lra.
Qed.

(** A weight is positive exactly when the term occurs in the sentence. *)
Lemma weight_positive (docs : list (list str)) (doc : list str) (t : str) :
  0 < weight docs doc t <-> In t doc.
Proof.
  rewrite <- tf_raw_positive, <- tf_positive. unfold weight.
  pose proof (idf_ge_1 (df_le_docs t docs)) as Hidf.
  pose proof (tf_nonneg (tf_raw t doc)) as Htf.
  split; intros H; [|apply Rmult_lt_0_compat; lra].
  destruct Htf as [Hpos|Hz]; [exact Hpos|].
  rewrite <- Hz, Rmult_0_l in H. lra.
Qed.

Lemma square_le_sum_squares (row : list R) (j : nat) (x : R) :
  nth_error row j = Some x -> x * x <= sum_squares row.
Proof.
  revert j. unfold sum_squares.
  induction row as [|y row IH]; intros [|j]; simpl; try discriminate.
  - intros H. injection H as ->.
    pose proof (sum_squares_nonneg row) as Hr. unfold sum_squares in Hr. lra.
  - intros H. specialize (IH j H).
    pose proof (Rle_0_sqr y) as Hy. unfold Rsqr in Hy. lra.
Qed.

(** A cell of a normalised row: the weight over a positive norm, or the
    weight itself in a zero row. *)
Lemma normalize_row_cell (row : list R) (j : nat) (x : R) :
  Forall (fun y => 0 <= y) row ->
  nth_error row j = Some x ->
  exists y, nth_error (normalize_row row) j = Some y
            /\ 0 <= y <= 1 /\ (0 < y <-> 0 < x).
Proof.
  intros Hnn Hx.
  assert (Hx0 : 0 <= x).
  { rewrite Forall_forall in Hnn. apply Hnn. eapply nth_error_In, Hx. }
  unfold normalize_row.
  destruct (Req_dec_T (sum_squares row) 0) as [Hz|Hnz].
  - exists x. split; [exact Hx|].
    pose proof (square_le_sum_squares row j Hx) as Hsq. rewrite Hz in Hsq.
    assert (x = 0) by nra. subst x. split; [lra | tauto].
  - pose proof (sum_squares_nonneg row) as Hss.
    assert (Hpos : 0 < sum_squares row) by lra.
    pose proof (sqrt_lt_R0 _ Hpos) as Hn. fold (l2_norm row) in Hn.
    exists (x / l2_norm row). split.
    + rewrite nth_error_map, Hx. reflexivity.
    + assert (Hle : x <= l2_norm row).
      { unfold l2_norm. rewrite <- (sqrt_square x Hx0).
        apply sqrt_le_1; [nra | lra |].
        now apply (square_le_sum_squares row j). }
      split; [split|].
      * unfold Rdiv. apply Rmult_le_pos; [exact Hx0|].
        left. now apply Rinv_0_lt_compat.
      * apply (Rmult_le_reg_r (l2_norm row)); [exact Hn|].
        unfold Rdiv. rewrite Rmult_assoc, Rinv_l by lra. lra.
      * split; intros H.
        -- destruct Hx0 as [Hp|Hz]; [exact Hp|]. subst x.
           unfold Rdiv in H. rewrite Rmult_0_l in H. lra.
        -- unfold Rdiv. apply Rmult_lt_0_compat; [exact H|].
           now apply Rinv_0_lt_compat.
Qed.

Lemma matrix_cells (E : Env) (sentences : list str) (M : matrix)
      (vocabulary : list str) (i j : nat) (s t : str) :
  build_tfidf_matrix E sentences = Ok (M, vocabulary) ->
  nth_error sentences i = Some s ->
  nth_error vocabulary j = Some t ->
  exists (row : list R) (x : R),
    nth_error M i = Some row
    /\ List.length row = List.length vocabulary
    /\ nth_error row j = Some x
    /\ 0 <= x <= 1
    /\ (0 < x <-> In t (analyzer E s)).
Proof.
  intros Hb Hs Ht.
  destruct (build_tfidf_matrix_inv E sentences Hb) as [_ ->].
  set (docs := map (analyzer E) sentences).
  set (wrow := weight_row docs vocabulary (analyzer E s)).
  assert (Hw : nth_error wrow j = Some (weight docs (analyzer E s) t)).
  { unfold wrow, weight_row. now rewrite nth_error_map, Ht. }
  destruct (@normalize_row_cell wrow j _
              (weight_row_nonneg docs vocabulary (analyzer E s)) Hw)
    as (x & Hx & Hrange & Hpos).
  exists (normalize_row wrow), x.
  split; [|split; [|split; [exact Hx|split; [exact Hrange|]]]].
  - unfold weight_matrix. fold docs.
    unfold docs at 2. now rewrite !nth_error_map, Hs.
  - rewrite normalize_row_length. unfold wrow, weight_row. apply length_map.
  - rewrite Hpos. apply weight_positive.
Qed.

(** X14.  The cells of the matrix: every cell lies between 0 and 1, and
    the cell of sentence [i] and term [j] is positive exactly when the
    term occurs in the analysed sentence, so the matrix has the sparsity
    pattern of the term occurrences. *)
Theorem cells_follow_occurrences (E : Env) (sentences : list str)
        (M : matrix) (vocabulary : list str) (i j : nat) (s t : str) :
  build_tfidf_matrix E sentences = Ok (M, vocabulary) ->
  nth_error sentences i = Some s ->
  nth_error vocabulary j = Some t ->
  exists x : R,
    cell M i j = Some x
    /\ 0 <= x <= 1
    /\ (0 < x <-> In t (analyzer E s))
    /\ (x = 0 <-> ~ In t (analyzer E s)).
Proof.
  intros Hb Hs Ht.
  destruct (matrix_cells E sentences i j Hb Hs Ht)
    as (row & x & Hrow & _ & Hx & Hrange & Hpos).
  exists x. unfold cell. rewrite Hrow.
  split; [exact Hx|]. split; [exact Hrange|]. split; [exact Hpos|].
  rewrite <- Hpos. split; [intros ->; lra | intros H; lra].
Qed.

Lemma cells_follow_occurrences_witness :
  exists x : R,
    cell (map normalize_row
            (weight_matrix (map (analyzer Demo.env) Demo.sentences4)
               Demo.vocabulary4)) 0 1 = Some x
    /\ 0 <= x <= 1
    /\ (0 < x <-> In (of_string "cats")
                      (analyzer Demo.env (of_string "Cats chase mice.")))
    /\ (x = 0 <-> ~ In (of_string "cats")
                       (analyzer Demo.env (of_string "Cats chase mice."))).
Proof.
  apply (@cells_follow_occurrences Demo.env Demo.sentences4 _ Demo.vocabulary4
           0 1 (of_string "Cats chase mice.") (of_string "cats")).
  - unfold build_tfidf_matrix.
    replace (fit_vocabulary (map (analyzer Demo.env) Demo.sentences4))
      with (Ok Demo.vocabulary4) by (vm_compute; reflexivity).
    reflexivity.
  - reflexivity.
  - reflexivity.
Defined.

Lemma sum_le_length (row : list R) :
  Forall (fun x => 0 <= x <= 1) row ->
  0 <= feature_extraction.sum row <= INR (List.length row).
Proof.
  induction 1 as [|x row Hx _ IH]; [simpl; lra|].
  cbn [feature_extraction.sum fold_right List.length]. rewrite S_INR.
  fold (feature_extraction.sum row). lra.
Qed.

Lemma sum_zero_all_zero (row : list R) :
  Forall (fun x => 0 <= x) row ->
  feature_extraction.sum row = 0 -> zero_row row.
Proof.
  unfold zero_row. induction 1 as [|x row Hx Hrow IH]; intros Hs;
    [constructor|].
  cbn [feature_extraction.sum fold_right] in Hs.
  fold (feature_extraction.sum row) in Hs.
  pose proof (sum_nonneg Hrow) as Hr.
  constructor; [lra | apply IH; lra].
Qed.

(** X15.  The score of a sentence lies between 0 and 1, and it is 0
    exactly when no term of the vocabulary occurs in the sentence: a
    sentence with a vocabulary term always scores above a sentence
    without one. *)
Theorem score_is_zero_without_terms (E : Env) (sentences : list str)
        (M : matrix) (vocabulary : list str) (i : nat) (s : str) :
  build_tfidf_matrix E sentences = Ok (M, vocabulary) ->
  nth_error sentences i = Some s ->
  exists score : R,
    nth_error (get_sentence_scores M) i = Some score
    /\ 0 <= score <= 1
    /\ (score = 0 <-> forall t, In t vocabulary -> ~ In t (analyzer E s)).
Proof.
  intros Hb Hs.
  assert (Hrow : exists row, nth_error M i = Some row
                             /\ List.length row = List.length vocabulary).
  { destruct (build_tfidf_matrix_inv E sentences Hb) as [_ ->].
    unfold weight_matrix. rewrite !nth_error_map, Hs. cbn [option_map].
    eexists. split; [reflexivity|].
    rewrite normalize_row_length. unfold weight_row. apply length_map. }
  destruct Hrow as (row & Hrow & Hlen).
  assert (Hcells : forall j t, nth_error vocabulary j = Some t ->
            exists x, nth_error row j = Some x /\ 0 <= x <= 1
                      /\ (0 < x <-> In t (analyzer E s))).
  { intros j t Ht.
    destruct (matrix_cells E sentences i j Hb Hs Ht)
      as (row' & x & Hrow' & _ & Hx & H).
    assert (row' = row) by congruence. subst row'. eauto. }
  assert (Hall : Forall (fun x => 0 <= x <= 1) row).
  { rewrite Forall_forall. intros x Hx.
    apply In_nth_error in Hx as [j Hj].
    assert (Hjv : (j < List.length vocabulary)%nat).
    { rewrite <- Hlen. apply nth_error_Some. congruence. }
    destruct (nth_error vocabulary j) as [t|] eqn:Ht;
      [|apply nth_error_None in Ht; lia].
    destruct (Hcells j t Ht) as (x' & Hx' & Hr & _).
    congruence. }
  pose proof (sum_le_length Hall) as Hsum.
  assert (Hne : (0 < List.length row)%nat).
  { rewrite Hlen. destruct (build_tfidf_matrix_inv E sentences Hb) as [Hfit _].
    destruct (fit_vocabulary_inv _ Hfit) as (_ & _ & _ & Hv).
    destruct vocabulary; [congruence | simpl; lia]. }
  assert (Hn : 0 < INR (List.length row)) by now apply lt_0_INR.
  exists (feature_extraction.sum row / INR (List.length row)).
  split; [|split; [split|]].
  - unfold get_sentence_scores. now rewrite nth_error_map, Hrow.
  - unfold Rdiv. apply Rmult_le_pos; [lra|]. left. now apply Rinv_0_lt_compat.
  - apply (Rmult_le_reg_r (INR (List.length row))); [exact Hn|].
    unfold Rdiv. rewrite Rmult_assoc, Rinv_l by lra. lra.
  - split.
    + intros Hz t Ht Hocc.
      assert (Hs0 : feature_extraction.sum row = 0).
      { apply (Rmult_eq_reg_r (/ INR (List.length row)));
          [|apply Rinv_neq_0_compat; lra].
        unfold Rdiv in Hz. rewrite Hz. lra. }
      assert (Hzero : zero_row row).
      { apply sum_zero_all_zero; [|exact Hs0].
        eapply Forall_impl; [|exact Hall]. intros x Hx. lra. }
      apply In_nth_error in Ht as [j Hj].
      destruct (Hcells j t Hj) as (x & Hx & _ & Hpos).
      apply Hpos in Hocc.
      unfold zero_row in Hzero. rewrite Forall_forall in Hzero.
      assert (x = 0) by (apply Hzero; eapply nth_error_In, Hx). lra.
    + intros Hnone.
      assert (Hzero : zero_row row).
      { unfold zero_row. rewrite Forall_forall. intros x Hx.
        apply In_nth_error in Hx as [j Hj].
        assert (Hjv : (j < List.length vocabulary)%nat).
        { rewrite <- Hlen. apply nth_error_Some. congruence. }
        destruct (nth_error vocabulary j) as [t|] eqn:Ht;
          [|apply nth_error_None in Ht; lia].
        destruct (Hcells j t Ht) as (x' & Hx' & Hr & Hpos).
        assert (x' = x) by congruence. subst x'.
        destruct (proj1 Hr) as [Hp|Hz]; [|now symmetry].
        exfalso. apply (Hnone t); [eapply nth_error_In, Ht | now apply Hpos]. }
      rewrite (sum_zero_row Hzero). unfold Rdiv. apply Rmult_0_l.
Qed.

Lemma score_is_zero_without_terms_witness :
  exists score : R,
    nth_error (get_sentence_scores
                 (map normalize_row
                    (weight_matrix (map (analyzer Demo.env) Demo.sentences4)
                       Demo.vocabulary4))) 0 = Some score
    /\ 0 <= score <= 1
    /\ (score = 0 <->
        forall t, In t Demo.vocabulary4 ->
                  ~ In t (analyzer Demo.env (of_string "Cats chase mice."))).
Proof.
  apply (@score_is_zero_without_terms Demo.env Demo.sentences4 _
           Demo.vocabulary4 0 (of_string "Cats chase mice.")).
  - unfold build_tfidf_matrix.
    replace (fit_vocabulary (map (analyzer Demo.env) Demo.sentences4))
      with (Ok Demo.vocabulary4) by (vm_compute; reflexivity).
    reflexivity.
  - reflexivity.
Defined.

(** *** Cosine similarity *)

Lemma dot_comm (a b : list R) : dot a b = dot b a.
Proof.
  revert b. induction a as [|x a IH]; intros [|y b]; simpl; try reflexivity.
  rewrite IH. lra.
Qed.

Lemma dot_nonneg (a b : list R) :
  Forall (fun x => 0 <= x) a -> Forall (fun x => 0 <= x) b -> 0 <= dot a b.
Proof.
  intros Ha. revert b. induction Ha as [|x a Hx _ IH]; intros b Hb;
    [simpl; lra|].
  destruct Hb as [|y b Hy Hb]; [simpl; lra|].
  simpl. specialize (IH b Hb). pose proof (Rmult_le_pos _ _ Hx Hy). lra.
Qed.

Lemma unit_sum_squares (row : list R) : l2_norm row = 1 -> sum_squares row = 1.
Proof.
  unfold l2_norm. intros H.
  rewrite <- (sqrt_def (sum_squares row) (sum_squares_nonneg row)), H. lra.
Qed.

(** The squared norm of a normalised row: 1, or 0 for a zero row. *)
Lemma normalize_row_sum_squares (row : list R) :
  (zero_row row /\ sum_squares (normalize_row row) = 0)
  \/ (~ zero_row row /\ sum_squares (normalize_row row) = 1).
Proof.
  destruct (Req_dec_T (sum_squares row) 0) as [Hz|Hnz].
  - left. pose proof (sum_squares_zero row Hz) as Hzero.
    split; [exact Hzero|]. now rewrite (normalize_row_zero Hzero).
  - right. split.
    + intros Hzero. apply Hnz. now apply zero_row_sum_squares.
    + apply unit_sum_squares. now apply normalize_row_unit.
Qed.

(** Normalising twice is normalising once. *)
Lemma normalize_row_idempotent (row : list R) :
  normalize_row (normalize_row row) = normalize_row row.
Proof.
  destruct (normalize_row_sum_squares row) as [[Hz _]|[_ H1]].
  - now rewrite (normalize_row_zero Hz), (normalize_row_zero Hz).
  - set (u := normalize_row row) in *. unfold normalize_row.
    destruct (Req_dec_T (sum_squares u) 0) as [_|_]; [reflexivity|].
    unfold l2_norm. rewrite H1, sqrt_1.
    rewrite <- (map_id u) at 2. apply map_ext. intros x. lra.
Qed.

Lemma similarity_cell (X : matrix) (i j : nat) (row_i row_j : list R) :
  nth_error X i = Some row_i ->
  nth_error X j = Some row_j ->
  cell (compute_similarity_matrix X) i j
  = Some (dot (normalize_row row_i) (normalize_row row_j)).
Proof.
  intros Hi Hj. unfold cell, compute_similarity_matrix, cosine_similarity.
  rewrite !nth_error_map, Hi. cbn [option_map].
  now rewrite !nth_error_map, Hj.
Qed.

Lemma dot_zero_row (a b : list R) : zero_row a -> dot a b = 0.
Proof.
  intros Ha. revert b. induction Ha as [|x a Hx _ IH]; intros [|y b];
    simpl; try reflexivity.
  rewrite IH, Hx. lra.
Qed.

(** The dot product of two rows without a negative cell is positive
    exactly when some column is positive in both. *)
Lemma dot_positive (a b : list R) :
  Forall (fun x => 0 <= x) a -> Forall (fun x => 0 <= x) b ->
  (0 < dot a b <->
   exists (k : nat) (x y : R),
     nth_error a k = Some x /\ nth_error b k = Some y /\ 0 < x /\ 0 < y).
Proof.
  intros Ha. revert b. induction Ha as [|x a Hx Ha IH]; intros b Hb.
  - simpl. split; [lra|]. intros (k & x & y & H & _).
    destruct k; discriminate.
  - destruct Hb as [|y b Hy Hb].
    + simpl. split; [lra|]. intros (k & x' & y' & _ & H & _).
      destruct k; discriminate.
    + cbn [dot]. specialize (IH b Hb).
      pose proof (dot_nonneg Ha Hb) as Hd.
      pose proof (Rmult_le_pos _ _ Hx Hy) as Hxy.
      split.
      * intros Hpos. destruct (Rlt_le_dec 0 (x * y)) as [Hp|Hn].
        -- exists 0%nat, x, y.
           split; [reflexivity|]. split; [reflexivity|]. split.
           ++ destruct Hx as [Hx|<-]; [exact Hx|].
              rewrite Rmult_0_l in Hp. lra.
           ++ destruct Hy as [Hy|<-]; [exact Hy|].
              rewrite Rmult_0_r in Hp. lra.
        -- assert (H : 0 < dot a b) by lra.
           apply IH in H as (k & x' & y' & H1 & H2 & H3 & H4).
           exists (S k), x', y'. auto.
      * intros (k & x' & y' & H1 & H2 & H3 & H4).
        destruct k as [|k]; cbn [nth_error] in H1, H2.
        -- injection H1 as ->. injection H2 as ->.
           pose proof (Rmult_lt_0_compat _ _ H3 H4). lra.
        -- assert (H : 0 < dot a b) by (apply IH; eauto 8). lra.
Qed.

(** X16.  The similarity matrix of a matrix with N rows is N by N and
    symmetric, and a row that is the zero vector has similarity 0 with
    every row, itself included.  (No bound and no diagonal value is
    stated: in binary64 they hold up to rounding only.) *)
Theorem similarity_is_symmetric (X : matrix) (i j : nat)
        (row_i row_j : list R) :
  nth_error X i = Some row_i ->
  nth_error X j = Some row_j ->
  List.length (compute_similarity_matrix X) = List.length X
  /\ Forall (fun row => List.length row = List.length X)
            (compute_similarity_matrix X)
  /\ (exists c : R,
        cell (compute_similarity_matrix X) i j = Some c
        /\ cell (compute_similarity_matrix X) j i = Some c)
  /\ (zero_row row_i ->
      cell (compute_similarity_matrix X) i i = Some 0
      /\ cell (compute_similarity_matrix X) i j = Some 0
      /\ cell (compute_similarity_matrix X) j i = Some 0).
Proof.
  intros Hi Hj. split; [|split; [|split]].
  - unfold compute_similarity_matrix, cosine_similarity.
    now rewrite !length_map.
  - unfold compute_similarity_matrix, cosine_similarity.
    rewrite Forall_map, Forall_forall. intros x _. now rewrite !length_map.
  - exists (dot (normalize_row row_i) (normalize_row row_j)).
    split; [now apply similarity_cell|].
    rewrite dot_comm. now apply similarity_cell.
  - intros Hz.
    rewrite (similarity_cell X i i Hi Hi), (similarity_cell X i j Hi Hj),
      (similarity_cell X j i Hj Hi).
    rewrite (dot_comm (normalize_row row_j)).
    rewrite (normalize_row_zero Hz), !(dot_zero_row _ Hz). auto.
Qed.

Lemma similarity_is_symmetric_witness :
  List.length (compute_similarity_matrix [[0; 0]; [3; 4]])
  = List.length [[0; 0]; [3; 4]]
  /\ Forall (fun row => List.length row = List.length [[0; 0]; [3; 4]])
            (compute_similarity_matrix [[0; 0]; [3; 4]])
  /\ (exists c : R,
        cell (compute_similarity_matrix [[0; 0]; [3; 4]]) 0 1 = Some c
        /\ cell (compute_similarity_matrix [[0; 0]; [3; 4]]) 1 0 = Some c)
  /\ (zero_row [0; 0] ->
      cell (compute_similarity_matrix [[0; 0]; [3; 4]]) 0 0 = Some 0
      /\ cell (compute_similarity_matrix [[0; 0]; [3; 4]]) 0 1 = Some 0
      /\ cell (compute_similarity_matrix [[0; 0]; [3; 4]]) 1 0 = Some 0).
Proof.
  apply (@similarity_is_symmetric [[0; 0]; [3; 4]] 0 1 [0; 0] [3; 4]).
  - reflexivity.
  - reflexivity.
Defined.

Lemma matrix_row_of_sentence (E : Env) (sentences : list str) (M : matrix)
      (vocabulary : list str) (i : nat) (s : str) :
  build_tfidf_matrix E sentences = Ok (M, vocabulary) ->
  nth_error sentences i = Some s ->
  nth_error M i
  = Some (normalize_row
            (weight_row (map (analyzer E) sentences) vocabulary (analyzer E s))).
Proof.
  intros Hb Hs. destruct (build_tfidf_matrix_inv E sentences Hb) as [_ ->].
  unfold weight_matrix. now rewrite !nth_error_map, Hs.
Qed.

(** X17.  On the matrix that [build_tfidf_matrix] returns, the similarity
    of two sentences is the same in both directions and never negative,
    and it is positive exactly when the two sentences share a term of the
    vocabulary: sentences without a common term have similarity 0. *)
Theorem similarity_follows_shared_terms (E : Env) (sentences : list str)
        (M : matrix) (vocabulary : list str) (i j : nat) (s_i s_j : str) :
  build_tfidf_matrix E sentences = Ok (M, vocabulary) ->
  nth_error sentences i = Some s_i ->
  nth_error sentences j = Some s_j ->
  exists c : R,
    cell (compute_similarity_matrix M) i j = Some c
    /\ cell (compute_similarity_matrix M) j i = Some c
    /\ 0 <= c
    /\ (0 < c <-> exists t, In t vocabulary
                            /\ In t (analyzer E s_i) /\ In t (analyzer E s_j))
    /\ (c = 0 <-> forall t, In t vocabulary -> In t (analyzer E s_i) ->
                            ~ In t (analyzer E s_j)).
Proof.
  intros Hb Hsi Hsj.
  pose proof (matrix_row_of_sentence E sentences i Hb Hsi) as Hri.
  pose proof (matrix_row_of_sentence E sentences j Hb Hsj) as Hrj.
  set (docs := map (analyzer E) sentences) in *.
  set (r_i := normalize_row (weight_row docs vocabulary (analyzer E s_i))) in *.
  set (r_j := normalize_row (weight_row docs vocabulary (analyzer E s_j))) in *.
  assert (Hni : Forall (fun x => 0 <= x) r_i)
    by apply normalize_row_nonneg, weight_row_nonneg.
  assert (Hnj : Forall (fun x => 0 <= x) r_j)
    by apply normalize_row_nonneg, weight_row_nonneg.
  assert (Hlen : List.length r_i = List.length vocabulary).
  { unfold r_i. rewrite normalize_row_length. unfold weight_row.
    apply length_map. }
  assert (Hcell_i : forall k t, nth_error vocabulary k = Some t ->
            exists x, nth_error r_i k = Some x
                      /\ (0 < x <-> In t (analyzer E s_i))).
  { intros k t Ht.
    destruct (matrix_cells E sentences i k Hb Hsi Ht)
      as (row & x & Hrow & _ & Hx & _ & Hpos).
    assert (row = r_i) by congruence. subst row. eauto. }
  assert (Hcell_j : forall k t, nth_error vocabulary k = Some t ->
            exists y, nth_error r_j k = Some y
                      /\ (0 < y <-> In t (analyzer E s_j))).
  { intros k t Ht.
    destruct (matrix_cells E sentences j k Hb Hsj Ht)
      as (row & y & Hrow & _ & Hy & _ & Hpos).
    assert (row = r_j) by congruence. subst row. eauto. }
  assert (Hpos : 0 < dot r_i r_j <->
                 exists t, In t vocabulary
                           /\ In t (analyzer E s_i) /\ In t (analyzer E s_j)).
  { rewrite (dot_positive Hni Hnj). split.
    - intros (k & x & y & Hx & Hy & Hx0 & Hy0).
      assert (Hk : (k < List.length vocabulary)%nat).
      { rewrite <- Hlen. apply nth_error_Some. congruence. }
      destruct (nth_error vocabulary k) as [t|] eqn:Ht;
        [|apply nth_error_None in Ht; lia].
      exists t. split; [eapply nth_error_In, Ht|].
      destruct (Hcell_i k t Ht) as (x' & Hx' & Hix).
      destruct (Hcell_j k t Ht) as (y' & Hy' & Hjy).
      assert (x' = x) by congruence. assert (y' = y) by congruence.
      subst x' y'. split; [now apply Hix | now apply Hjy].
    - intros (t & Ht & Hti & Htj).
      apply In_nth_error in Ht as [k Hk].
      destruct (Hcell_i k t Hk) as (x & Hx & Hix).
      destruct (Hcell_j k t Hk) as (y & Hy & Hjy).
      exists k, x, y. split; [exact Hx|]. split; [exact Hy|].
      split; [now apply Hix | now apply Hjy]. }
  pose proof (dot_nonneg Hni Hnj) as H0.
  exists (dot r_i r_j).
  split; [|split; [|split; [exact H0|split; [exact Hpos|]]]].
  - rewrite (similarity_cell M i j Hri Hrj).
    unfold r_i, r_j. now rewrite !normalize_row_idempotent.
  - rewrite (similarity_cell M j i Hrj Hri), (dot_comm r_i r_j).
    unfold r_i, r_j. now rewrite !normalize_row_idempotent.
  - split.
    + intros Hz t Ht Hti Htj.
      assert (H : 0 < dot r_i r_j) by (apply Hpos; eauto). lra.
    + intros Hnone. destruct H0 as [Hlt|Heq]; [|now symmetry].
      apply Hpos in Hlt as (t & Ht & Hti & Htj).
      exfalso. now apply (Hnone t).
Qed.

Lemma similarity_follows_shared_terms_witness :
  exists c : R,
    cell (compute_similarity_matrix
            (map normalize_row
               (weight_matrix (map (analyzer Demo.env) Demo.sentences4)
                  Demo.vocabulary4))) 0 1 = Some c
    /\ cell (compute_similarity_matrix
               (map normalize_row
                  (weight_matrix (map (analyzer Demo.env) Demo.sentences4)
                     Demo.vocabulary4))) 1 0 = Some c
    /\ 0 <= c
    /\ (0 < c <->
        exists t, In t Demo.vocabulary4
                  /\ In t (analyzer Demo.env (of_string "Cats chase mice."))
                  /\ In t (analyzer Demo.env (of_string "Dogs chase cats.")))
    /\ (c = 0 <->
        forall t, In t Demo.vocabulary4 ->
                  In t (analyzer Demo.env (of_string "Cats chase mice.")) ->
                  ~ In t (analyzer Demo.env (of_string "Dogs chase cats."))).
Proof.
  apply (@similarity_follows_shared_terms Demo.env Demo.sentences4 _
           Demo.vocabulary4 0 1).
  - unfold build_tfidf_matrix.
    replace (fit_vocabulary (map (analyzer Demo.env) Demo.sentences4))
      with (Ok Demo.vocabulary4) by (vm_compute; reflexivity).
    reflexivity.
  - reflexivity.
  - reflexivity.
Defined.

Local Close Scope R_scope.

(** ** Word-level tokenization *)

Import tokenization.

Lemma filter_subsequence (A : Type) (f : A -> bool) (l : list A) :
  subsequence (filter f l) l.
Proof.
  induction l as [|x l IH]; simpl; [constructor|].
  destruct (f x); now constructor.
Qed.

Lemma subsequence_trans (A : Type) (a b c : list A) :
  subsequence a b -> subsequence b c -> subsequence a c.
Proof.
  intros Hab Hbc. revert a Hab.
  induction Hbc as [|x b c Hbc IH|x b c Hbc IH]; intros a Hab.
  - exact Hab.
  - inversion Hab; subst; constructor; now apply IH.
  - constructor. now apply IH.
Qed.

Lemma in_set_spec (stop_words : list str) (t : str) :
  in_set stop_words t = true <-> In t stop_words.
Proof. apply existsb_str_eqb. Qed.

Lemma isalpha_spec (L : Lexer) (t : str) :
  isalpha L t = true <->
  t <> [] /\ forall c, In c t -> isalpha_char L c = true.
Proof.
  unfold isalpha. rewrite andb_true_iff, forallb_forall.
  destruct t; simpl; split; intros [H1 H2]; split;
    try discriminate; try congruence; auto.
Qed.

(** X18.  What [tokenize_and_clean] returns: tokens of the word tokenizer
    run on the lower-cased sentence, in their order; each of them is
    non-empty and alphabetic; and with [remove_stopwords] none of them
    is in the stop-word set, which the call leaves in the cache: the
    result is the result without the removal, filtered by that set. *)
Theorem tokenize_and_clean_tokens (L : Lexer) (E : Env) (cw : cached_world)
        (sentence : str) (remove_stopwords : bool) (tokens : list str) :
  fst (tokenize_and_clean L E cw sentence remove_stopwords) = Ok tokens ->
  exists raw : list str,
    word_tokenize L (data (ensure_nltk_data E (process cw))) (lower L sentence)
      = Ok raw
    /\ subsequence tokens raw
    /\ Forall (fun t => t <> [] /\ forall c, In c t -> isalpha_char L c = true)
              tokens
    /\ (remove_stopwords = true ->
        exists stop_words : list str,
          stop_words_cache
            (snd (tokenize_and_clean L E cw sentence remove_stopwords))
            = Some stop_words
          /\ Forall (fun t => ~ In t stop_words) tokens
          /\ exists unfiltered : list str,
               fst (tokenize_and_clean L E cw sentence false) = Ok unfiltered
               /\ tokens = filter (fun t => negb (in_set stop_words t))
                                  unfiltered).
Proof.
  unfold tokenize_and_clean.
  destruct (word_tokenize L _ (lower L sentence)) as [raw|e] eqn:Hraw;
    [|discriminate].
  assert (Halpha : Forall (fun t => t <> [] /\
                     forall c, In c t -> isalpha_char L c = true)
                     (filter (isalpha L) raw)).
  { rewrite Forall_forall. intros t Ht. apply filter_In in Ht as [_ Ht].
    now apply isalpha_spec. }
  destruct remove_stopwords.
  - destruct (_get_stop_words L E _) as [r cw2] eqn:Hget. cbn [fst snd].
    destruct r as [stop_words|e]; cbn [bind]; [|discriminate].
    intros H. injection H as <-. exists raw. split; [reflexivity|].
    split; [|split].
    + eapply subsequence_trans; apply filter_subsequence.
    + rewrite Forall_forall in *. intros t Ht.
      apply filter_In in Ht as [Ht _]. now apply Halpha.
    + intros _. exists stop_words. split; [|split].
      * unfold _get_stop_words in Hget. cbn [stop_words_cache process] in Hget.
        destruct (stop_words_cache cw) as [cached|].
        -- injection Hget as <- <-. reflexivity.
        -- destruct (stopwords_words L _) as [ws|e]; [|discriminate].
           injection Hget as <- <-. reflexivity.
      * rewrite Forall_forall. intros t Ht.
        apply filter_In in Ht as [_ Ht]. apply negb_true_iff in Ht.
        intros Hin. apply in_set_spec in Hin. congruence.
      * exists (filter (isalpha L) raw). split; reflexivity.
  - cbn [fst]. intros H. injection H as <-. exists raw.
    split; [reflexivity|]. split; [apply filter_subsequence|].
    split; [exact Halpha | discriminate].
Qed.

Lemma tokenize_and_clean_tokens_witness :
  exists raw : list str,
    word_tokenize DemoWords.lexer
      (data (ensure_nltk_data Demo.env (process DemoWords.fresh)))
      (lower DemoWords.lexer (of_string "The cat is 4 years old"))
      = Ok raw
    /\ subsequence [of_string "cat"; of_string "years"; of_string "old"] raw
    /\ Forall (fun t => t <> [] /\
                forall c, In c t -> isalpha_char DemoWords.lexer c = true)
              [of_string "cat"; of_string "years"; of_string "old"]
    /\ (true = true ->
        exists stop_words : list str,
          stop_words_cache
            (snd (tokenize_and_clean DemoWords.lexer Demo.env DemoWords.fresh
                    (of_string "The cat is 4 years old") true))
            = Some stop_words
          /\ Forall (fun t => ~ In t stop_words)
               [of_string "cat"; of_string "years"; of_string "old"]
          /\ exists unfiltered : list str,
               fst (tokenize_and_clean DemoWords.lexer Demo.env DemoWords.fresh
                      (of_string "The cat is 4 years old") false)
                 = Ok unfiltered
               /\ [of_string "cat"; of_string "years"; of_string "old"]
                  = filter (fun t => negb (in_set stop_words t)) unfiltered).
Proof.
  apply (@tokenize_and_clean_tokens DemoWords.lexer Demo.env DemoWords.fresh
           (of_string "The cat is 4 years old") true).
  vm_compute. reflexivity.
Defined.

(** ** Terms that occur in every sentence *)

Local Open Scope Z_scope.

Lemma shr_fexp_none (m e : Z) (l : location) :
  fexp F64.prec F64.emax (Zdigits2 m + e) - e <= 0 ->
  shr_fexp F64.prec F64.emax m e l = (shr_record_of_loc m l, e).
Proof.
  intros H. unfold shr_fexp, shr.
  destruct (fexp F64.prec F64.emax (Zdigits2 m + e) - e); try reflexivity.
  lia.
Qed.

Lemma Zdigits2_53 (m : Z) :
  4503599627370496 <= m < 9007199254740992 -> Zdigits2 m = 53.
Proof.
  intros [Hlo Hhi].
  assert (Hle : Zdigits2 m <= 53).
  { apply Zdigits2_le; [lia|]. split; [lia|].
    change (2 ^ 53) with 9007199254740992. lia. }
  pose proof (@Zdigits2_upper m ltac:(lia)) as Hup.
  pose proof (Zdigits2_nonneg m) as H0.
  destruct (Z.le_gt_cases (Zdigits2 m) 52) as [H52|H52]; [|lia].
  exfalso.
  assert (2 ^ Zdigits2 m <= 2 ^ 52) by (apply Z.pow_le_mono_r; lia).
  change (2 ^ 52) with 4503599627370496 in H. lia.
Qed.

(** A mantissa of 53 bits with an exponent in range is rounded to
    itself. *)
Lemma binary_round_aux_canonical (s : bool) (p : positive) (e : Z) :
  Zdigits2 (Zpos p) = 53 -> -1074 <= e <= 971 ->
  binary_round_aux F64.prec F64.emax s (Zpos p) e loc_Exact
  = S754_finite s p e.
Proof.
  intros Hd He. unfold binary_round_aux.
  assert (Hn : fexp F64.prec F64.emax (Zdigits2 (Zpos p) + e) - e <= 0).
  { rewrite Hd. unfold fexp, emin, F64.prec, F64.emax. lia. }
  rewrite (@shr_fexp_none _ _ loc_Exact Hn). cbn [shr_record_of_loc shr_m
    loc_of_shr_record round_nearest_even].
  rewrite (@shr_fexp_none _ _ loc_Exact Hn). cbn [shr_record_of_loc shr_m].
  unfold F64.emax, F64.prec.
  destruct (e <=? 1024 - 53) eqn:Hle; [reflexivity|].
  apply Z.leb_gt in Hle. lia.
Qed.

(** [float(N)] for [1 <= N < 2^53]: the integer itself, with a mantissa
    of 53 bits. *)
Lemma of_int_exact (N : Z) :
  1 <= N < 2 ^ 53 ->
  exists mf ef,
    F64.of_int N = Ok (S754_finite false mf ef)
    /\ 4503599627370496 <= Zpos mf < 9007199254740992
    /\ -52 <= ef <= 0.
Proof.
  intros [HN1 HN2]. change (2 ^ 53) with 9007199254740992 in HN2.
  destruct N as [|p|p]; try lia.
  unfold F64.of_int, binary_normalize, binary_round.
  pose proof (digits2_bounds p) as Hd.
  set (d := Zpos (digits2_pos p)) in *.
  assert (Hd53 : 1 <= d <= 53).
  { split; [unfold d; lia|].
    destruct (Z.le_gt_cases d 53) as [H|H]; [exact H | exfalso].
    assert (2 ^ 53 <= 2 ^ (d - 1)) by (apply Z.pow_le_mono_r; lia).
    change (2 ^ 53) with 9007199254740992 in H0. lia. }
  assert (Hf : fexp F64.prec F64.emax (d + 0) = d - 53)
    by (unfold fexp, emin, F64.prec, F64.emax; lia).
  rewrite Hf. unfold shl_align.
  destruct (d - 53 - 0) as [|k|k] eqn:Hk; try lia.
  - assert (Hp : 4503599627370496 <= Zpos p < 9007199254740992).
    { replace (d - 1) with 52 in Hd by lia.
      change (2 ^ 52) with 4503599627370496 in Hd. lia. }
    rewrite (@binary_round_aux_canonical false p 0 (@Zdigits2_53 _ Hp))
      by lia.
    exists p, 0. repeat split; lia.
  - change (Pos.iter xO p k) with (shift_pos k p).
    assert (Hm : Zpos (shift_pos k p) = Zpos p * 2 ^ Zpos k).
    { rewrite shift_pos_correct, Z.pow_pos_fold. lia. }
    assert (Hp : 4503599627370496 <= Zpos (shift_pos k p) < 9007199254740992).
    { rewrite Hm.
      assert (H52 : 2 ^ (d - 1) * 2 ^ Zpos k = 4503599627370496).
      { rewrite <- Z.pow_add_r by lia.
        replace (d - 1 + Zpos k) with 52 by lia. reflexivity. }
      assert (H53 : 2 ^ d * 2 ^ Zpos k = 9007199254740992).
      { rewrite <- Z.pow_add_r by lia.
        replace (d + Zpos k) with 53 by lia. reflexivity. }
      assert (0 < 2 ^ Zpos k) by (apply Z.pow_pos_nonneg; lia).
      nia. }
    rewrite (@binary_round_aux_canonical false (shift_pos k p) (d - 53)
               (@Zdigits2_53 _ Hp)) by lia.
    exists (shift_pos k p), (d - 53). repeat split; lia.
Qed.

Lemma SFcompare_gt (m1 m2 : positive) (e1 e2 : Z) :
  e2 < e1 \/ (e2 = e1 /\ Zpos m2 < Zpos m1) ->
  SFcompare (S754_finite false m1 e1) (S754_finite false m2 e2) = Some Gt.
Proof.
  intros [H|[-> H]]; cbn [SFcompare].
  - now rewrite (proj2 (Z.compare_gt_iff e1 e2) H).
  - rewrite Z.compare_refl. f_equal.
    exact (proj2 (Z.compare_gt_iff (Zpos m1) (Zpos m2)) H).
Qed.

(** A float [N] is not at most [N * 0.95]. *)
Lemma not_below_95_percent (mf : positive) (ef : Z) :
  4503599627370496 <= Zpos mf < 9007199254740992 ->
  -52 <= ef <= 0 ->
  F64.leb (S754_finite false mf ef)
          (F64.mul (S754_finite false mf ef) F64.lit_0_95) = false.
Proof.
  intros Hmf Hef. unfold F64.mul, F64.lit_0_95. cbn [SFmul xorb].
  set (mc := 8556839292003942%positive).
  assert (HP : Zpos (mf * mc) = Zpos mf * 8556839292003942) by reflexivity.
  set (P := Zpos (mf * mc)) in *.
  assert (HPlo : 2 ^ 104 <= P).
  { change (2 ^ 104) with (4503599627370496 * 4503599627370496). nia. }
  assert (HPhi : P < 2 ^ 106).
  { change (2 ^ 106) with (9007199254740992 * 9007199254740992). nia. }
  pose proof (Zdigits2_nonneg P) as HD0.
  pose proof (@Zdigits2_upper P ltac:(lia)) as HDup.
  assert (HDle : Zdigits2 P <= 106) by (apply Zdigits2_le; lia).
  assert (HDge : 105 <= Zdigits2 P).
  { destruct (Z.le_gt_cases 105 (Zdigits2 P)) as [H|H]; [exact H | exfalso].
    assert (2 ^ Zdigits2 P <= 2 ^ 104) by (apply Z.pow_le_mono_r; lia). lia. }
  assert (HDlow : Zdigits2 P = 105 -> P < 2 ^ 105).
  { intros H. now rewrite H in HDup. }
  assert (HDhigh : Zdigits2 P = 106 -> 2 ^ 105 <= P).
  { intros H. unfold P in *. cbn [Zdigits2] in H.
    pose proof (digits2_bounds (mf * mc)) as [Hlo _].
    rewrite H in Hlo. exact Hlo. }
  unfold binary_round_aux.
  destruct (@shr_fexp_spec P (ef + -53) loc_Exact ltac:(lia))
    as [(Hn & _)|(Hn & Hm1 & He1)].
  { exfalso. unfold fexp, emin, F64.prec, F64.emax in Hn. lia. }
  assert (Hnv : fexp F64.prec F64.emax (Zdigits2 P + (ef + -53)) - (ef + -53)
                = Zdigits2 P - 53)
    by (unfold fexp, emin, F64.prec, F64.emax; lia).
  rewrite Hnv in Hm1, He1. clear Hn Hnv.
  destruct (shr_fexp F64.prec F64.emax P (ef + -53) loc_Exact) as [mrs1 e1].
  cbn [fst snd] in Hm1, He1.
  pose proof (round_nearest_even_bounds (shr_m mrs1) (loc_of_shr_record mrs1))
    as Hr.
  set (m2 := round_nearest_even (shr_m mrs1) (loc_of_shr_record mrs1)) in *.
  assert (Hcases :
            (e1 = ef /\ 4503599627370496 <= m2 < Zpos mf)
            \/ (e1 = ef - 1 /\ 4503599627370496 <= m2 < 9007199254740992)
            \/ (e1 = ef - 1 /\ m2 = 9007199254740992
                /\ 4503599627370496 < Zpos mf)).
  { assert (Hcase : Zdigits2 P = 105 \/ Zdigits2 P = 106) by lia.
    destruct Hcase as [H105|H106].
    - right. rewrite H105 in Hm1, He1.
      replace (105 - 53) with 52 in Hm1 by lia.
      assert (Hlo1 : 4503599627370496 <= shr_m mrs1).
      { rewrite Hm1. apply Z.div_le_lower_bound; [reflexivity|].
        change (2 ^ 52 * 4503599627370496) with (2 ^ 104). exact HPlo. }
      assert (Hhi1 : shr_m mrs1 < 9007199254740992).
      { rewrite Hm1. apply Z.div_lt_upper_bound; [reflexivity|].
        change (2 ^ 52 * 9007199254740992) with (2 ^ 105). now apply HDlow. }
      destruct (Z.eq_dec m2 9007199254740992) as [Heq|Hne].
      + right. split; [lia|]. split; [exact Heq|].
        assert (Hm1v : shr_m mrs1 = 9007199254740991) by lia.
        assert (HPge : 9007199254740991 * 2 ^ 52 <= P).
        { rewrite <- Hm1v, Hm1. rewrite Z.mul_comm.
          apply Z.mul_div_le. reflexivity. }
        change (2 ^ 52) with 4503599627370496 in HPge. lia.
      + left. split; lia.
    - left. rewrite H106 in Hm1, He1.
      replace (106 - 53) with 53 in Hm1 by lia.
      assert (Hlo1 : 4503599627370496 <= shr_m mrs1).
      { rewrite Hm1. apply Z.div_le_lower_bound; [reflexivity|].
        change (2 ^ 53 * 4503599627370496) with (2 ^ 105). now apply HDhigh. }
      assert (Hhi1 : shr_m mrs1 < Zpos mf - 1).
      { rewrite Hm1. apply Z.div_lt_upper_bound; [reflexivity|].
        change (2 ^ 53) with 9007199254740992. lia. }
      split; lia. }
  clear Hm1 He1 Hr.
  assert (Hfinal : forall mrs e,
             shr_fexp F64.prec F64.emax m2 e1 loc_Exact = (mrs, e) ->
             exists p3, shr_m mrs = Zpos p3
                        /\ (e < ef \/ (e = ef /\ Zpos p3 < Zpos mf))
                        /\ e <= 971).
  { intros mrs e Hsh.
    destruct Hcases as [(-> & Hm2)|[(-> & Hm2)|(-> & -> & Hmf2)]].
    - rewrite shr_fexp_none in Hsh.
      + injection Hsh as <- <-. cbn [shr_record_of_loc shr_m].
        destruct m2 as [|p3|p3]; try lia. exists p3. repeat split; lia.
      + rewrite (@Zdigits2_53 m2) by lia.
        unfold fexp, emin, F64.prec, F64.emax. lia.
    - rewrite shr_fexp_none in Hsh.
      + injection Hsh as <- <-. cbn [shr_record_of_loc shr_m].
        destruct m2 as [|p3|p3]; try lia. exists p3. repeat split; lia.
      + rewrite (@Zdigits2_53 m2) by lia.
        unfold fexp, emin, F64.prec, F64.emax. lia.
    - destruct (@shr_fexp_spec 9007199254740992 (ef - 1) loc_Exact
                  ltac:(lia)) as [(Hn & _)|(Hn & Hm3 & He3)].
      + exfalso. change (Zdigits2 9007199254740992) with 54 in Hn.
        unfold fexp, emin, F64.prec, F64.emax in Hn. lia.
      + change (Zdigits2 9007199254740992) with 54 in Hm3, He3.
        replace (fexp F64.prec F64.emax (54 + (ef - 1)) - (ef - 1)) with 1
          in Hm3, He3 by (unfold fexp, emin, F64.prec, F64.emax; lia).
        rewrite Hsh in Hm3, He3. cbn [fst snd] in Hm3, He3.
        change (9007199254740992 / 2 ^ 1) with 4503599627370496 in Hm3.
        exists 4503599627370496%positive. rewrite Hm3.
        repeat split; lia. }
  destruct (shr_fexp F64.prec F64.emax m2 e1 loc_Exact) as [mrs2 e2].
  destruct (Hfinal mrs2 e2 eq_refl) as (p3 & Hp3 & Hcmp & He2).
  rewrite Hp3. unfold F64.emax, F64.prec.
  destruct (e2 <=? 1024 - 53) eqn:Hle; [|apply Z.leb_gt in Hle; lia].
  unfold F64.leb, SFleb. now rewrite (@SFcompare_gt mf p3 ef e2 Hcmp).
Qed.

Lemma filter_length_lt (A : Type) (f : A -> bool) (l : list A) :
  (List.length (filter f l) < List.length l)%nat ->
  exists x, In x l /\ f x = false.
Proof.
  induction l as [|x l IH]; simpl; [lia|].
  destruct (f x) eqn:Hx.
  - simpl. intros H. destruct IH as (y & Hy & Hfy); [lia|].
    exists y. auto.
  - intros _. exists x. auto.
Qed.

Lemma filter_length_all (A : Type) (f : A -> bool) (l : list A) :
  (forall x, In x l -> f x = true) ->
  List.length (filter f l) = List.length l.
Proof.
  induction l as [|x l IH]; simpl; [reflexivity|]. intros H.
  rewrite (H x (or_introl eq_refl)). simpl. f_equal. apply IH. auto.
Qed.

(** What the pruning keeps: a term whose document frequency, as a float,
    is at most [0.95 * n_doc]. *)
Lemma fit_vocabulary_kept (docs : list (list str)) (vocabulary : list str) :
  fit_vocabulary docs = Ok vocabulary ->
  exists hi : F64.float,
    F64.int_mul (len docs) max_df = Ok hi
    /\ forall t, In t vocabulary ->
         In t (concat docs)
         /\ exists d, F64.of_int (Z.of_nat (df t docs)) = Ok d
                      /\ F64.leb d hi = true.
Proof.
  unfold fit_vocabulary.
  destruct (distinct_spec (concat docs) []) as [_ Hin].
  destruct (distinct [] (concat docs)) as [|t0 ts] eqn:Hd; [discriminate|].
  destruct (F64.int_mul (len docs) max_df) as [hi|e]; cbn [bind];
    [|discriminate].
  destruct (F64.of_int min_df) as [lo|e]; cbn [bind]; [|discriminate].
  destruct (F64.ltb hi lo); [discriminate|].
  match goal with
  | |- context [filter ?k (t0 :: ts)] => set (keep := k)
  end.
  destruct (filter keep (t0 :: ts)) as [|k0 ks] eqn:Hf; [discriminate|].
  intros H. injection H as <-. exists hi. split; [reflexivity|].
  intros t Ht.
  assert (Hp : Permutation (insert_sorted str_leb k0 (sort_by str_leb ks))
                           (k0 :: ks))
    by exact (sort_by_perm str_leb (k0 :: ks)).
  apply (Permutation_in _ Hp) in Ht. rewrite <- Hf in Ht.
  apply filter_In in Ht as [Ht Hk]. split; [now apply Hin|].
  unfold keep in Hk.
  destruct (F64.of_int (Z.of_nat (df t docs))) as [d|e]; [|discriminate].
  apply andb_true_iff in Hk as [Hk _]. eauto.
Qed.

(** No vocabulary term is in every sentence. *)
Lemma vocabulary_terms_miss_a_sentence (docs : list (list str))
      (vocabulary : list str) (t : str) :
  len docs < 2 ^ 53 ->
  fit_vocabulary docs = Ok vocabulary ->
  In t vocabulary ->
  (df t docs < List.length docs)%nat.
Proof.
  intros HN Hfit Ht.
  destruct (fit_vocabulary_kept _ Hfit) as (hi & Hhi & Hkept).
  destruct (Hkept t Ht) as (Hocc & d & Hd & Hle).
  pose proof (df_le_docs t docs) as Hdf.
  destruct (Nat.eq_dec (df t docs) (List.length docs)) as [Heq|Hne]; [|lia].
  exfalso. pose proof (df_positive t docs Hocc) as Hpos.
  rewrite Heq in Hd. fold (len docs) in Hd.
  destruct (@of_int_exact (len docs)) as (mf & ef & Hfn & Hmf & Hef).
  { unfold len in *. lia. }
  unfold F64.int_mul in Hhi. rewrite Hfn in Hhi, Hd.
  change (Ok (F64.mul (S754_finite false mf ef) F64.lit_0_95) = Ok hi) in Hhi.
  injection Hhi as <-. injection Hd as <-.
  exact (eq_true_false_abs _ Hle (not_below_95_percent Hmf Hef)).
Qed.

(** X19.  [max_df=0.95] prunes every term that occurs in all the
    sentences: each term of the vocabulary is absent from at least one
    sentence (for fewer than 2^53 sentences). *)
Theorem universal_terms_are_pruned (E : Env) (sentences : list str)
        (M : matrix) (vocabulary : list str) (t : str) :
  len sentences < 2 ^ 53 ->
  build_tfidf_matrix E sentences = Ok (M, vocabulary) ->
  In t vocabulary ->
  (df t (map (analyzer E) sentences) < List.length sentences)%nat
  /\ exists s, In s sentences /\ ~ In t (analyzer E s).
Proof.
  intros HN Hb Ht.
  destruct (build_tfidf_matrix_inv E sentences Hb) as [Hfit _].
  assert (Hlt : (df t (map (analyzer E) sentences)
                 < List.length (map (analyzer E) sentences))%nat).
  { apply (@vocabulary_terms_miss_a_sentence _ vocabulary); try assumption.
    unfold len in *. now rewrite length_map. }
  split; [now rewrite length_map in Hlt|].
  unfold df in Hlt. apply filter_length_lt in Hlt as (doc & Hdoc & Hf).
  apply in_map_iff in Hdoc as (s & <- & Hs). exists s. split; [exact Hs|].
  intros Hin. apply existsb_str_eqb in Hin. congruence.
Qed.

Lemma universal_terms_are_pruned_witness :
  (df (of_string "cats") (map (analyzer Demo.env) Demo.sentences4)
   < List.length Demo.sentences4)%nat
  /\ exists s, In s Demo.sentences4
               /\ ~ In (of_string "cats") (analyzer Demo.env s).
Proof.
  apply (@universal_terms_are_pruned Demo.env Demo.sentences4
           (map normalize_row
              (weight_matrix (map (analyzer Demo.env) Demo.sentences4)
                 Demo.vocabulary4))
           Demo.vocabulary4 (of_string "cats")).
  - unfold len. simpl. lia.
  - unfold build_tfidf_matrix.
    replace (fit_vocabulary (map (analyzer Demo.env) Demo.sentences4))
      with (Ok Demo.vocabulary4) by (vm_compute; reflexivity).
    reflexivity.
  - simpl. right. left. reflexivity.
Defined.

(** When every sentence has the same terms, pruning leaves none. *)
Lemma fit_vocabulary_shared (docs : list (list str)) :
  1 <= len docs < 2 ^ 53 ->
  (forall doc doc' t, In doc docs -> In doc' docs -> In t doc -> In t doc') ->
  fit_vocabulary docs = Raise ValueError.
Proof.
  intros HN Hshared.
  destruct (fit_vocabulary docs) as [vocabulary|e] eqn:Hfit.
  - exfalso.
    destruct (fit_vocabulary_inv _ Hfit) as (_ & _ & _ & Hne).
    destruct vocabulary as [|t v]; [congruence|].
    pose proof (@vocabulary_terms_miss_a_sentence docs (t :: v) t
                  (proj2 HN) Hfit (or_introl eq_refl)) as Hlt.
    destruct (fit_vocabulary_kept _ Hfit) as (hi & _ & Hkept).
    destruct (Hkept t (or_introl eq_refl)) as [Hocc _].
    apply in_concat in Hocc as (doc & Hdoc & Htd).
    unfold df in Hlt. rewrite filter_length_all in Hlt; [lia|].
    intros doc' Hdoc'. apply existsb_str_eqb. now apply (Hshared doc).
  - f_equal. unfold fit_vocabulary in Hfit.
    destruct (distinct [] (concat docs)); [congruence|].
    destruct (@of_int_exact (len docs) ltac:(lia)) as (mf & ef & Hfn & _).
    unfold F64.int_mul in Hfit. rewrite Hfn in Hfit. cbn [bind] in Hfit.
    change (F64.of_int min_df) with (Ok F64.one) in Hfit. cbn [bind] in Hfit.
    destruct (F64.ltb _ F64.one); [congruence|].
    destruct (filter _ _); congruence.
Qed.

(** X20.  A document whose sentences all have the same terms, for
    instance one sentence repeated, cannot be summarized: with three
    sentences or more and a ratio from 0.0 to 1.0 the Vectorizer is left
    without a term and [summarize] raises [ValueError]. *)
Theorem repeated_sentences_raise (E : Env) (w : world) (text : str)
        (ratio : F64.float) (cleaned : str) (sentences : list str) :
  forallb isspace text = false ->
  fst (preprocess_text E w text) = Ok (cleaned, sentences) ->
  3 <= len sentences < 2 ^ 53 ->
  (forall s s' t, In s sentences -> In s' sentences ->
                  In t (analyzer E s) -> In t (analyzer E s')) ->
  F64.valid ratio ->
  F64.leb F64.zero ratio = true ->
  F64.leb ratio F64.one = true ->
  build_tfidf_matrix E sentences = Raise ValueError
  /\ fst (summarize E w text ratio) = Raise ValueError.
Proof.
  intros Hb Hp Hlen Hshared Hv H0 H1.
  assert (Hbuild : build_tfidf_matrix E sentences = Raise ValueError).
  { unfold build_tfidf_matrix. rewrite fit_vocabulary_shared; [reflexivity| |].
    - unfold len in *. rewrite length_map. lia.
    - intros doc doc' t Hd Hd' Ht.
      apply in_map_iff in Hd as (s & <- & Hs).
      apply in_map_iff in Hd' as (s' & <- & Hs').
      now apply (Hshared s s'). }
  split; [exact Hbuild|].
  destruct (@derive_n_clusters_in_range (len sentences) ratio ltac:(lia)
              Hv H0 H1) as [(k & Hk & _) _].
  rewrite (summarize_not_blank E w text ratio Hb Hp).
  assert (H2 : (len sentences <=? 2) = false) by (apply Z.leb_gt; lia).
  rewrite H2, Hk. cbn [bind]. unfold run_pipeline. now rewrite Hbuild.
Qed.

Lemma repeated_sentences_raise_witness :
  build_tfidf_matrix Demo.env Demo.same_three = Raise ValueError
  /\ fst (summarize Demo.env Demo.fresh
            (of_string "Hello world. Hello world. Hello world.")
            default_ratio)
     = Raise ValueError.
Proof.
  apply (@repeated_sentences_raise Demo.env Demo.fresh
           (of_string "Hello world. Hello world. Hello world.")
           default_ratio
           (of_string "Hello world. Hello world. Hello world.")
           Demo.same_three).
  - reflexivity.
  - vm_compute. reflexivity.
  - unfold len. simpl. lia.
  - intros s s' t Hs Hs'. simpl in Hs, Hs'.
    destruct Hs as [<-|[<-|[<-|[]]]], Hs' as [<-|[<-|[<-|[]]]]; exact (fun H => H).
  - reflexivity.
  - reflexivity.
  - reflexivity.
Defined.

Local Close Scope Z_scope.
